(** * Tag Browser: the tag store, the folder scanner, global search,
    CSV import and the statistics aggregator

  A shallow embedding of [Modules/utils.py] ([load_tags], [save_tags]) and
  of the logical core of [Modules/tag_browser.py] ([TagBrowser]).

  Conventions of the embedding.
  - A Python [str] is a [string]; a character is a code point below 256,
    on which [str.isspace] and [str.lower] are written out in full.
  - The platform is POSIX: [os.sep] is "/" and [os.linesep] is "\n".
  - The filesystem is the tree under [root_directory]; a file holds text.
    Reading a file opened in text mode applies Python's universal newlines.
  - A [dict] is an association list in insertion order, a [set] a list
    without duplicates; exceptions are values of [exn]. *)

From Stdlib Require Import List String Ascii Bool Arith NArith Lia.
From Stdlib Require Import Sorting.Sorted Sorting.Permutation.
Import ListNotations.

Set Warnings "-register-all".

Local Open Scope string_scope.
Local Open Scope list_scope.

(** ** Python strings *)

Module Py.

Definition comma : ascii := ","%char.
Definition space : ascii := " "%char.
Definition LF : ascii := "010"%char.
Definition CR : ascii := "013"%char.

(** [str.isspace] on one character: the code points below 256 that
    Python counts as whitespace are 9..13, 28..32, 133 and 160. *)
Definition isspace (c : ascii) : bool :=
  let n := N_of_ascii c in
  ((9 <=? n) && (n <=? 13) || (28 <=? n) && (n <=? 32)
   || (n =? 133) || (n =? 160))%N.

(** [s.lstrip()], [s.rstrip()] and [s.strip()]. *)
Fixpoint lstrip (s : string) : string :=
  match s with
  | EmptyString => EmptyString
  | String c s' => if isspace c then lstrip s' else s
  end.

Fixpoint rstrip (s : string) : string :=
  match s with
  | EmptyString => EmptyString
  | String c s' =>
      match rstrip s' with
      | EmptyString => if isspace c then EmptyString else String c EmptyString
      | r => String c r
      end
  end.

Definition strip (s : string) : string := rstrip (lstrip s).

(** [str.lower] on one character: below 256 the cased letters are
    A..Z and the Latin-1 capitals 192..222 without the sign 215. *)
Definition lower_char (c : ascii) : ascii :=
  let n := N_of_ascii c in
  if ((65 <=? n) && (n <=? 90)
      || (192 <=? n) && (n <=? 222) && negb (n =? 215))%N
  then ascii_of_N (n + 32) else c.

Fixpoint lower (s : string) : string :=
  match s with
  | EmptyString => EmptyString
  | String c s' => String (lower_char c) (lower s')
  end.

(** Truth value of a string: [if s] holds for a non-empty [s]. *)
Definition truthy (s : string) : bool :=
  match s with EmptyString => false | String _ _ => true end.

(** [s.split(sep)] for a separator of one character; never empty. *)
Fixpoint split (sep : ascii) (s : string) : list string :=
  match s with
  | EmptyString => [EmptyString]
  | String c s' =>
      if Ascii.eqb c sep then EmptyString :: split sep s'
      else match split sep s' with
           | [] => [String c EmptyString]
           | w :: ws => String c w :: ws
           end
  end.

(** [sep.join(l)] is [String.concat sep l]. *)
Definition join (sep : string) (l : list string) : string :=
  String.concat sep l.

(** [q in s]: [q] occurs in [s] as a contiguous substring. *)
Fixpoint contains (q s : string) : bool :=
  String.prefix q s
  || match s with
     | EmptyString => false
     | String _ s' => contains q s'
     end.

(** [name.startswith(prefixes)] for a tuple of prefixes. *)
Definition startswith (prefixes : list string) (name : string) : bool :=
  existsb (fun p => String.prefix p name) prefixes.

(** [c in s] for one character. *)
Fixpoint has_char (c : ascii) (s : string) : bool :=
  match s with
  | EmptyString => false
  | String d s' => Ascii.eqb d c || has_char c s'
  end.

(** What [f.read()] returns for a file opened with [open(p, 'r')]:
    with the default [newline=None] every "\r\n" and every remaining
    "\r" of the stored text comes back as "\n". *)
Fixpoint universal_newlines (s : string) : string :=
  match s with
  | EmptyString => EmptyString
  | String c s' =>
      if Ascii.eqb c CR then
        match s' with
        | String d s'' =>
            if Ascii.eqb d LF then String LF (universal_newlines s'')
            else String LF (universal_newlines s')
        | EmptyString => String LF EmptyString
        end
      else String c (universal_newlines s')
  end.

(** ** Python containers *)

(** [set(l)] and [list(set(l))]: the distinct elements of [l].  Python
    leaves the iteration order of a set open (for strings it changes
    with the hash seed of the process); the order chosen here is the one
    of [nodup].  The code sorts a set before it writes or shows it, and
    the properties below speak of the elements or of the sorted list
    only, never of this order. *)
Definition set (l : list string) : list string := nodup string_dec l.

(** [sorted(l)] on strings: ascending by code points, stable. *)
Fixpoint insert (x : string) (l : list string) : list string :=
  match l with
  | [] => [x]
  | y :: l' => if String.leb x y then x :: l else y :: insert x l'
  end.

Fixpoint sorted (l : list string) : list string :=
  match l with
  | [] => []
  | x :: l' => insert x (sorted l')
  end.

(** A [dict] with string keys, in insertion order. [d[k] = v] keeps the
    place of a key that is present and appends a new one. *)
Definition dict (V : Type) : Type := list (string * V).

Fixpoint dict_set {V : Type} (k : string) (v : V) (d : dict V) : dict V :=
  match d with
  | [] => [(k, v)]
  | (k', v') :: d' =>
      if String.eqb k' k then (k', v) :: d' else (k', v') :: dict_set k v d'
  end.

Fixpoint dict_get {V : Type} (k : string) (d : dict V) : option V :=
  match d with
  | [] => None
  | (k', v) :: d' => if String.eqb k' k then Some v else dict_get k d'
  end.

Definition keys {V : Type} (d : dict V) : list string := map fst d.
Definition values {V : Type} (d : dict V) : list V := map snd d.

(** [l[-1]] with the value used for an empty list. *)
Definition last_item (l : list string) : string := last l EmptyString.

(** [l[i]] where the index is known to be in range. *)
Definition item (i : nat) (l : list string) : string := nth i l EmptyString.

(** Exceptions the modelled code can raise.  [NotModelled] is no Python
    exception: it ends a run at a step that reaches for a place the tree
    of the model does not hold, where what the program does depends on
    the files outside the root directory. *)
Inductive exn : Type :=
| OSError          (* FileNotFoundError, NotADirectoryError, IsADirectoryError *)
| KeyError
| AttributeError
| TypeError
| NotModelled.

Inductive result (A : Type) : Type :=
| Ok (a : A)
| Raise (e : exn).
Arguments Ok {A} a.
Arguments Raise {A} e.

Definition bind {A B : Type} (r : result A) (k : A -> result B) : result B :=
  match r with
  | Ok a => k a
  | Raise e => Raise e
  end.

End Py.

Notation "x <- r ;; k" := (Py.bind r (fun x => k))
(at level 61, r at next level, right associativity).

(** ** The filesystem under [root_directory] *)

Module Fs.
Import Py.

(** A regular file with its text, or a directory with its entries in the
    order [os.listdir] reports them. *)
Inductive node : Type :=
| File (text : string)
| Dir (entries : list (string * node)).

(** Induction on a node with the hypothesis for every entry of a
    directory. *)
Fixpoint node_ind' (P : node -> Prop)
    (HF : forall text, P (File text))
    (HD : forall es, Forall (fun e => P (snd e)) es -> P (Dir es))
    (n : node) {struct n} : P n :=
  match n with
  | File text => HF text
  | Dir es =>
      HD es
        ((fix go (l : list (string * node)) : Forall (fun e => P (snd e)) l :=
            match l with
            | [] => Forall_nil _
            | (name, c) :: l' =>
                Forall_cons (name, c) (node_ind' P HF HD c) (go l')
            end) es)
  end.

(** The entries of the root directory. *)
Definition tree : Type := list (string * node).

(** A location under the root, one component per folder level. *)
Definition path : Type := list string.

Fixpoint lookup (name : string) (es : tree) : option node :=
  match es with
  | [] => None
  | (n, x) :: es' => if String.eqb n name then Some x else lookup name es'
  end.

Fixpoint resolve (t : tree) (p : path) : option node :=
  match p with
  | [] => Some (Dir t)
  | name :: rest =>
      match lookup name t with
      | Some (Dir es) => resolve es rest
      | Some (File text) =>
          match rest with [] => Some (File text) | _ :: _ => None end
      | None => None
      end
  end.

(** [os.path.isdir], [os.path.isfile], [os.listdir]. *)
Definition isdir (t : tree) (p : path) : bool :=
  match resolve t p with Some (Dir _) => true | _ => false end.

Definition isfile (t : tree) (p : path) : bool :=
  match resolve t p with Some (File _) => true | _ => false end.

Definition listdir (t : tree) (p : path) : result (list string) :=
  match resolve t p with
  | Some (Dir es) => Ok (map fst es)
  | _ => Raise OSError
  end.

(** Replace the first entry called [name]. *)
Fixpoint set_entry (name : string) (x : node) (es : tree) : tree :=
  match es with
  | [] => []
  | (n, y) :: es' =>
      if String.eqb n name then (n, x) :: es' else (n, y) :: set_entry name x es'
  end.

(** [open(p, 'w').write(text)]: creates or truncates the file; fails when
    [p] is a directory or its parent is not an existing directory.  On
    POSIX the text is stored as written. *)
Fixpoint write_text (t : tree) (p : path) (text : string) : result tree :=
  match p with
  | [] => Raise OSError
  | name :: rest =>
      match rest with
      | [] =>
          match lookup name t with
          | Some (Dir _) => Raise OSError
          | Some (File _) => Ok (set_entry name (File text) t)
          | None => Ok (t ++ [(name, File text)])
          end
      | _ :: _ =>
          match lookup name t with
          | Some (Dir es) =>
              es' <- write_text es rest text ;;
              Ok (set_entry name (Dir es') t)
          | _ => Raise OSError
          end
      end
  end.

(** [os.walk(root)], top-down: the directory itself, then the walk of
    each of its sub-directories in listing order.  Only [dirpath] is
    kept, as a location under the root. *)
Fixpoint walk_node (dirpath : path) (n : node) {struct n} : list path :=
  match n with
  | File _ => []
  | Dir es =>
      dirpath ::
      (fix sub (l : list (string * node)) : list path :=
         match l with
         | [] => []
         | (name, c) :: l' => walk_node (dirpath ++ [name]) c ++ sub l'
         end) es
  end.

Definition walk (t : tree) : list path := walk_node [] (Dir t).

Definition sep : ascii := "/"%char.

(** [os.path.relpath(dirpath, root)] for a location under the root. *)
Definition relpath (p : path) : string :=
  match p with
  | [] => "."
  | _ :: _ => join "/" p
  end.

(** [os.path.join(a, b)] on strings. *)
Fixpoint ends_with_sep (a : string) : bool :=
  match a with
  | EmptyString => false
  | String c EmptyString => Ascii.eqb c sep
  | String _ a' => ends_with_sep a'
  end.

Definition path_join (a b : string) : string :=
  if String.prefix "/" b then b
  else if negb (truthy a) || ends_with_sep a then (a ++ b)%string
  else (a ++ "/" ++ b)%string.

(** [os.path.join(root_directory, relative)] as a location under the
    root: empty and "." components do not move.  An absolute path and a
    path with a ".." component can name a place outside the tree; the
    model resolves neither. *)
Definition under_root (relative : string) : option path :=
  if String.prefix "/" relative then None
  else
    let parts :=
      filter (fun c => negb (String.eqb c "") && negb (String.eqb c "."))
             (split sep relative) in
    if existsb (String.eqb "..") parts then None else Some parts.

(** Names a POSIX directory entry can have, as far as the scanner
    depends on them: not empty, no "/", and neither "." nor "..". *)
Definition wf_name (name : string) : bool :=
  truthy name && negb (has_char sep name)
  && negb (String.eqb name ".") && negb (String.eqb name "..").

Fixpoint wf_node (n : node) : bool :=
  match n with
  | File _ => true
  | Dir es =>
      (fix all (l : list (string * node)) : bool :=
         match l with
         | [] => true
         | (name, c) :: l' =>
             wf_name name && negb (existsb (String.eqb name) (map fst l'))
             && wf_node c && all l'
         end) es
  end.

Definition wf_tree (t : tree) : bool := wf_node (Dir t).

End Fs.

(** ** Modules/utils.py *)

Module Utils.
Import Py Fs.

(** The comprehension [[t.strip() for t in text.split(',') if t.strip()]]
    of [load_tags], [import_tags] and the tag editor. *)
Definition strip_pieces (text : string) : list string :=
  map strip (filter (fun t => truthy (strip t)) (split comma text)).

(** [load_tags(tag_file)] *)
Definition load_tags (t : tree) (tag_file : path) : list string :=
  match resolve t tag_file with
  | Some (File text) => strip_pieces (universal_newlines text)
  | _ => []
  end.

(** [save_tags(tag_file, tags)] *)
Definition save_tags (t : tree) (tag_file : path) (tags : list string)
  : result tree :=
  write_text t tag_file (join ", " (sorted (set tags))).

End Utils.

(** ** Modules/tag_editor.py: class TagEditor *)

Module TagEditor.
Import Py Fs Utils.

(** [__init__]: the text the line edit is created with. *)
Definition initial_text (t : tree) (tag_file : path) : string :=
  join ", " (load_tags t tag_file).

(** [accept], given the text of the line edit. *)
Definition accept (t : tree) (tag_file : path) (text : string) : result tree :=
  save_tags t tag_file (strip_pieces text).

End TagEditor.

(** ** Modules/tag_browser.py: class TagBrowser *)

Module TagBrowser.
Import Py Fs Utils.

(** The attributes of a [TagBrowser] the logic reads and writes.  A list
    widget is the list of its items: their text, and for topics and
    chapters the relative path kept under [Qt.UserRole]. *)
Record browser : Type := mkBrowser {
  tag_cache : dict (list string);
  all_publishers : list string;
  all_topics : list (string * string);
  all_chapters : list (string * string);
  all_tags : list string;
  publisher_list : list string;
  topic_list : list (string * string);
  chapter_list : list (string * string);
  tag_list : list string
}.

(** The attributes before [__init__] loads any data. *)
Definition empty_browser : browser :=
  mkBrowser [] [] [] [] [] [] [] [] [].

Definition prefixes : list string := ["$_"; "$__"; "#_"; "#__"; "__"].

(** [load_publishers] *)
Definition load_publishers (t : tree) (b : browser) : browser :=
  let names :=
    sorted (filter (fun name => isdir t [name] && startswith prefixes name)
                   (map fst t)) in
  mkBrowser (tag_cache b) names (all_topics b) (all_chapters b) (all_tags b)
            names (topic_list b) (chapter_list b) (tag_list b).

(** One turn of the loop of [load_all_tags] over [os.walk]. *)
Definition scan_step (t : tree) (cache : dict (list string)) (dirpath : path)
  : dict (list string) :=
  let relative := relpath dirpath in
  let tags := load_tags t (dirpath ++ ["tag.txt"]) in
  match tags with
  | [] => cache
  | _ :: _ => dict_set relative tags cache
  end.

(** [load_all_tags]: the cache is cleared, then filled by the walk. *)
Definition load_all_tags (t : tree) (b : browser) : browser :=
  let cache := fold_left (scan_step t) (walk t) [] in
  let tags := sorted (set (List.concat (values cache))) in
  mkBrowser cache (all_publishers b) (all_topics b) (all_chapters b) tags
            (publisher_list b) (topic_list b) (chapter_list b) tags.

(** [__init__], as far as the data goes. *)
Definition init (t : tree) : browser :=
  load_all_tags t (load_publishers t empty_browser).

(** [os.listdir(os.path.join(root_directory, relative))]; a place outside
    the tree counts as missing. *)
Definition listdir_under (t : tree) (relative : string)
  : result (path * list string) :=
  match under_root relative with
  | Some p => names <- listdir t p ;; Ok (p, names)
  | None => Raise OSError
  end.

(** [load_topics], given the text of the clicked publisher item. *)
Definition load_topics (t : tree) (b : browser) (publisher : string)
  : result browser :=
  listing <- listdir_under t publisher ;;
  let '(publisher_path, names) := listing in
  let topics :=
    sorted (filter (fun topic => isdir t (publisher_path ++ [topic])) names) in
  let items := map (fun topic => (topic, path_join publisher topic)) topics in
  Ok (mkBrowser (tag_cache b) (all_publishers b) items (all_chapters b)
                (all_tags b) (publisher_list b) items [] (tag_list b)).

(** [load_chapters], given the relative path of the clicked topic item. *)
Definition load_chapters (t : tree) (b : browser) (topic_relative : string)
  : result browser :=
  listing <- listdir_under t topic_relative ;;
  let '(topic_path, names) := listing in
  let topic_name := last_item (split sep topic_relative) in
  let chapters :=
    sorted (filter (fun chapter => isdir t (topic_path ++ [chapter])) names) in
  let items :=
    map (fun chapter => ((chapter ++ " (" ++ topic_name ++ ")")%string,
                         path_join topic_relative chapter)) chapters in
  Ok (mkBrowser (tag_cache b) (all_publishers b) (all_topics b) items
                (all_tags b) (publisher_list b) (topic_list b) items
                (tag_list b)).

(** [reset_all_lists] *)
Definition reset_all_lists (t : tree) (b : browser) : browser :=
  let b1 := load_publishers t b in
  let b2 := load_all_tags t b1 in
  mkBrowser (tag_cache b2) (all_publishers b2) (all_topics b2)
            (all_chapters b2) (all_tags b2) (publisher_list b2) [] []
            (tag_list b2).

(** The test of [global_search] on one cache entry. *)
Definition entry_matches (query : string) (parts tags : list string) : bool :=
  let last_folder := lower (last_item parts) in
  contains query last_folder
  || existsb (fun tag => contains query (lower tag)) tags.

(** One turn of the loop of [global_search] over [tag_cache.items()]. *)
Definition search_step (query : string)
    (acc : list (string * string) * list (string * string))
    (entry : string * list string)
  : list (string * string) * list (string * string) :=
  let '(matched_topics, matched_chapters) := acc in
  let '(relative_path, tags) := entry in
  let parts := split sep relative_path in
  if entry_matches query parts tags then
    if Nat.eqb (List.length parts) 2 then
      (matched_topics ++ [(item 1 parts, relative_path)], matched_chapters)
    else if Nat.eqb (List.length parts) 3 then
      (matched_topics,
       matched_chapters
       ++ [((item 2 parts ++ " (" ++ item 1 parts ++ ")")%string, relative_path)])
    else acc
  else acc.

(** [global_search] *)
Definition global_search (t : tree) (b : browser) (text : string) : browser :=
  let query := lower (strip text) in
  if negb (truthy query) then reset_all_lists t b
  else
    let matched_publishers :=
      filter (fun p => contains query (lower p)) (all_publishers b) in
    let matched_tags :=
      filter (fun tag => contains query (lower tag)) (all_tags b) in
    let '(matched_topics, matched_chapters) :=
      fold_left (search_step query) (tag_cache b) ([], []) in
    mkBrowser (tag_cache b) (all_publishers b) (all_topics b)
              (all_chapters b) (all_tags b) matched_publishers
              matched_topics matched_chapters matched_tags.

(** *** CSV import *)

(** The dictionary [csv.DictReader] makes of one row: the fields under
    the field names, and [None] under the names a short row leaves out.
    (Surplus fields go under the key [None], which no lookup by name
    reaches; they are left out.) *)
Definition row_dict (fieldnames row : list string) : dict (option string) :=
  let zipped :=
    fold_left (fun d kv => dict_set (fst kv) (Some (snd kv)) d)
              (combine fieldnames row) [] in
  fold_left (fun d key => dict_set key None d)
            (skipn (List.length row) fieldnames) zipped.

Definition is_blank (row : list string) : bool :=
  match row with [] => true | _ :: _ => false end.

(** [csv.DictReader(f)] over the rows [csv.reader] yields: the first row
    gives the field names, blank rows are passed over. *)
Definition dict_reader (rows : list (list string))
  : list (dict (option string)) :=
  match rows with
  | [] => []
  | fieldnames :: data =>
      map (row_dict fieldnames) (filter (fun r => negb (is_blank r)) data)
  end.

(** [row[key]] *)
Definition subscript {V : Type} (row : dict V) (key : string) : result V :=
  match dict_get key row with
  | Some v => Ok v
  | None => Raise KeyError
  end.

Definition set_tag_cache (relative : string) (tags : list string)
    (b : browser) : browser :=
  mkBrowser (dict_set relative tags (tag_cache b)) (all_publishers b)
            (all_topics b) (all_chapters b) (all_tags b) (publisher_list b)
            (topic_list b) (chapter_list b) (tag_list b).

(** The body of the loop of [import_tags] for one row.  A path that is
    absolute or has a ".." component can lead out of the root directory;
    such a row is not modelled. *)
Definition import_row (overwrite : bool) (t : tree) (b : browser)
    (row : dict (option string)) : result (tree * browser) :=
  relative <- subscript row "Path" ;;
  tags_field <- subscript row "Tags" ;;
  match tags_field with
  | None => Raise AttributeError
  | Some tags_text =>
      let new_tags := strip_pieces tags_text in
      match relative with
      | None => Raise TypeError
      | Some relative =>
          match under_root relative with
          | None => Raise NotModelled
          | Some full_path =>
              if isdir t full_path then
                let tag_file := full_path ++ ["tag.txt"] in
                if overwrite then
                  t' <- save_tags t tag_file new_tags ;;
                  Ok (t', set_tag_cache relative new_tags b)
                else
                  let existing := load_tags t tag_file in
                  let combined := set (existing ++ new_tags) in
                  t' <- save_tags t tag_file combined ;;
                  Ok (t', set_tag_cache relative combined b)
              else Ok (t, b)
          end
      end
  end.

(** How a handler ends: normally, or by an exception that leaves the
    filesystem and the attributes as they were when it was raised. *)
Inductive outcome : Type :=
| Done (t : tree) (b : browser)
| Raised (e : exn) (t : tree) (b : browser).

Fixpoint import_rows (overwrite : bool) (rows : list (dict (option string)))
    (t : tree) (b : browser) : outcome :=
  match rows with
  | [] => Done t b
  | row :: rest =>
      match import_row overwrite t b row with
      | Ok (t', b') => import_rows overwrite rest t' b'
      | Raise e => Raised e t b
      end
  end.

(** [import_tags(overwrite)]; [fname] is [None] when the dialog was
    cancelled, else the rows of the chosen CSV file. *)
Definition import_tags (overwrite : bool) (fname : option (list (list string)))
    (t : tree) (b : browser) : outcome :=
  match fname with
  | None => Done t b
  | Some rows =>
      match import_rows overwrite (dict_reader rows) t b with
      | Done t' b' => Done t' (load_all_tags t' b')
      | Raised e t' b' => Raised e t' b'
      end
  end.

(** *** Statistics *)

(** The dictionary [compute_statistics] returns, one field per key. *)
Record statistics : Type := mkStatistics {
  total_publishers : nat;
  total_topics : nat;
  total_chapters : nat;
  total_unique_tags : nat;
  topics_per_publisher : dict nat;
  chapters_per_topic : dict nat;
  tag_usage_count : dict nat
}.

(** First loop: topics per publisher. *)
Fixpoint count_topics (t : tree) (pubs : list string)
    (publisher_topic_count : dict nat) : result (dict nat) :=
  match pubs with
  | [] => Ok publisher_topic_count
  | pub :: rest =>
      listing <- listdir_under t pub ;;
      let '(pub_path, names) := listing in
      let topics := filter (fun x => isdir t (pub_path ++ [x])) names in
      count_topics t rest (dict_set pub (List.length topics) publisher_topic_count)
  end.

(** Second loop, inner part: the topics of one publisher. *)
Fixpoint count_chapters_of (t : tree) (pub : string) (pub_path : path)
    (names : list string) (acc : dict nat * nat) : result (dict nat * nat) :=
  match names with
  | [] => Ok acc
  | topic :: rest =>
      let topic_path := pub_path ++ [topic] in
      if isdir t topic_path then
        inner <- listdir t topic_path ;;
        let chapters := filter (fun c => isdir t (topic_path ++ [c])) inner in
        count_chapters_of t pub pub_path rest
          (dict_set (pub ++ "/" ++ topic)%string (List.length chapters) (fst acc),
           snd acc + List.length chapters)
      else count_chapters_of t pub pub_path rest acc
  end.

(** Second loop, outer part: over [publisher_topic_count.items()]. *)
Fixpoint count_chapters (t : tree) (items : dict nat) (acc : dict nat * nat)
  : result (dict nat * nat) :=
  match items with
  | [] => Ok acc
  | (pub, _) :: rest =>
      listing <- listdir_under t pub ;;
      let '(pub_path, names) := listing in
      acc' <- count_chapters_of t pub pub_path names acc ;;
      count_chapters t rest acc'
  end.

(** [tag in tags] *)
Definition mem (tag : string) (tags : list string) : bool :=
  existsb (String.eqb tag) tags.

(** The comprehension that builds [tag_usage_count]. *)
Definition usage_counts (cache : dict (list string)) (tags : list string)
  : dict nat :=
  fold_left
    (fun d tag => dict_set tag (List.length (filter (mem tag) (values cache))) d)
    tags [].

(** [compute_statistics] *)
Definition compute_statistics (t : tree) (b : browser) : result statistics :=
  publisher_topic_count <- count_topics t (all_publishers b) [] ;;
  chapters <- count_chapters t publisher_topic_count ([], 0) ;;
  let '(topic_chapter_count, total) := chapters in
  Ok (mkStatistics (List.length (all_publishers b))
                   (list_sum (values publisher_topic_count))
                   total
                   (List.length (all_tags b))
                   publisher_topic_count
                   topic_chapter_count
                   (usage_counts (tag_cache b) (all_tags b))).

(** *** Per-column filters *)

(** [filter_publishers] *)
Definition filter_publishers (b : browser) (text : string) : browser :=
  let filtered :=
    filter (fun p => contains (strip (lower text)) (lower p))
           (all_publishers b) in
  mkBrowser (tag_cache b) (all_publishers b) (all_topics b) (all_chapters b)
            (all_tags b) filtered (topic_list b) (chapter_list b) (tag_list b).

(** [filter_topics]; an unset [all_topics] reads as the empty list. *)
Definition filter_topics (b : browser) (text : string) : browser :=
  let filtered :=
    filter (fun item => contains (strip (lower text)) (lower (fst item)))
           (all_topics b) in
  mkBrowser (tag_cache b) (all_publishers b) (all_topics b) (all_chapters b)
            (all_tags b) (publisher_list b) filtered (chapter_list b)
            (tag_list b).

(** [filter_chapters] *)
Definition filter_chapters (b : browser) (text : string) : browser :=
  let filtered :=
    filter (fun item => contains (strip (lower text)) (lower (fst item)))
           (all_chapters b) in
  mkBrowser (tag_cache b) (all_publishers b) (all_topics b) (all_chapters b)
            (all_tags b) (publisher_list b) (topic_list b) filtered
            (tag_list b).

(** [filter_tags] *)
Definition filter_tags (b : browser) (text : string) : browser :=
  let filtered :=
    filter (fun tag => contains (strip (lower text)) (lower tag))
           (all_tags b) in
  mkBrowser (tag_cache b) (all_publishers b) (all_topics b) (all_chapters b)
            (all_tags b) (publisher_list b) (topic_list b) (chapter_list b)
            filtered.

(** One turn of the loop of [filter_by_tag] over [os.walk]. *)
Definition tag_step (t : tree) (clicked_tag : string)
    (acc : list (string * string) * list (string * string))
    (dirpath : path)
  : list (string * string) * list (string * string) :=
  let '(matched_topics, matched_chapters) := acc in
  let tag_file := dirpath ++ ["tag.txt"] in
  if isfile t tag_file then
    let tags := map lower (load_tags t tag_file) in
    if mem clicked_tag tags then
      let relative := relpath dirpath in
      let parts := split sep relative in
      if Nat.eqb (List.length parts) 2 then
        (matched_topics
         ++ [((item 1 parts ++ " (" ++ item 0 parts ++ ")")%string, relative)],
         matched_chapters)
      else if Nat.eqb (List.length parts) 3 then
        (matched_topics,
         matched_chapters
         ++ [(("(" ++ item 0 parts ++ ") (" ++ item 1 parts ++ ") "
               ++ item 2 parts)%string, relative)])
      else acc
    else acc
  else acc.

(** [filter_by_tag], given the text of the clicked tag item. *)
Definition filter_by_tag (t : tree) (b : browser) (tag_text : string)
  : browser :=
  let clicked_tag := lower (strip tag_text) in
  let '(matched_topics, matched_chapters) :=
    fold_left (tag_step t clicked_tag) (walk t) ([], []) in
  mkBrowser (tag_cache b) (all_publishers b) (all_topics b) (all_chapters b)
            (all_tags b) (publisher_list b) matched_topics matched_chapters
            (tag_list b).

(** *** Export and clearing *)

(** The rows [export_tags] hands to [csv.writer]. *)
Definition export_rows (b : browser) : list (list string) :=
  ["Path"; "Tags"]
  :: map (fun entry => [fst entry; join ", " (snd entry)]) (tag_cache b).



(** [os.path.join(root_directory, relative, 'tag.txt')]; a place outside
    the tree counts as missing, as for [listdir_under]. *)
Definition tag_file_under (relative : string) : option path :=
  match under_root relative with
  | Some p => Some (p ++ ["tag.txt"])
  | None => None
  end.

(** The loop of [clear_all_tags] over the keys the cache had. *)
Fixpoint clear_rows (relatives : list string) (t : tree) (b : browser)
  : outcome :=
  match relatives with
  | [] => Done t b
  | relative :: rest =>
      match tag_file_under relative with
      | None => Raised OSError t b
      | Some tag_file =>
          match save_tags t tag_file [] with
          | Ok t' => clear_rows rest t' (set_tag_cache relative [] b)
          | Raise e => Raised e t b
          end
      end
  end.

(** [clear_all_tags]; [yes] is the answer to the confirmation. *)
Definition clear_all_tags (yes : bool) (t : tree) (b : browser) : outcome :=
  if yes then
    match clear_rows (keys (tag_cache b)) t b with
    | Done t' b' => Done t' (load_all_tags t' b')
    | Raised e t' b' => Raised e t' b'
    end
  else Done t b.

(** [show_edit_tags_menu], connected to the topic and the chapter list,
    whose items all keep a relative path.  [item] is the path kept by the
    item under the pointer, if there is one; [edited] is the text of the
    line edit when the editor is closed with OK, and [None] when it is
    cancelled: nothing is written then, wherever the path leads.  When
    the save fails nothing has been written and the cache is not
    reloaded. *)
Definition show_edit_tags_menu (t : tree) (b : browser)
    (item : option string) (edited : option string) : outcome :=
  match item with
  | None => Done t b
  | Some relative =>
      match edited with
      | None => Done t b
      | Some text =>
          match tag_file_under relative with
          | None => Raised OSError t b
          | Some tag_file =>
              match TagEditor.accept t tag_file text with
              | Ok t' => Done t' (load_all_tags t' b)
              | Raise e => Raised e t b
              end
          end
      end
  end.

End TagBrowser.

(** ** main.py *)

Module Main.
Import Py.

(** How [main] ends before the event loop. *)
Inductive startup : Type :=
| FileNotFound                 (* "address.csv file not found." *)
| NoValidPath                  (* "Valid folder path not found in address.csv." *)
| Launch (root_dir : string).  (* TagBrowser(root_dir) *)

Section Root.

(** [os.path.isdir] on the paths the pointer file names. *)
Variable isdir : string -> bool.

(** The loop over the rows of the pointer file. *)
Fixpoint first_root (rows : list (list string)) : option string :=
  match rows with
  | [] => None
  | row :: rest =>
      match row with
      | first :: _ => if isdir first then Some first else first_root rest
      | [] => first_root rest
      end
  end.

(** [main]; [address_csv] is [None] when the pointer file is missing, else
    its rows. *)
Definition main (address_csv : option (list (list string))) : startup :=
  match address_csv with
  | None => FileNotFound
  | Some rows =>
      match first_root rows with
      | Some root_dir => if truthy root_dir then Launch root_dir else NoValidPath
      | None => NoValidPath
      end
  end.

End Root.

End Main.

(** ** Vocabulary of the statements *)

Module Spec.
Import Py Fs Utils TagBrowser.

(** The first character of a string, if any, is not whitespace. *)
Definition starts_clean (s : string) : bool :=
  match s with
  | EmptyString => true
  | String c _ => negb (isspace c)
  end.

(** A tag as the tag store keeps it: not empty, no comma, and no
    whitespace at either end. *)
Definition clean_tag (t : string) : bool :=
  truthy t && negb (has_char comma t) && String.eqb (strip t) t.

(** [result] is the sorted, deduplicated form of [tags]: strictly
    ascending, with exactly the elements of [tags]. *)
Definition sorted_dedup_of (tags result : list string) : Prop :=
  StronglySorted (fun a b => String.ltb a b = true) result
  /\ forall x, In x result <-> In x tags.

(** [q] occurs in [s]: some text, then [q], then some text. *)
Definition occurs_in (q s : string) : Prop :=
  exists pre post : string, s = (pre ++ q ++ post)%string.

(** An empty or whitespace-only text. *)
Fixpoint whitespace_only (s : string) : bool :=
  match s with
  | EmptyString => true
  | String c s' => isspace c && whitespace_only s'
  end.

(** The reader gives no text for column [key] of the row: the column is
    not among the field names, or the row is too short to reach it. *)
Definition missing_field (key : string) (fieldnames row : list string) : bool :=
  match dict_get key (row_dict fieldnames row) with
  | Some (Some _) => false
  | _ => true
  end.

(** A row the reader yields that misses the Path or the Tags column. *)
Definition malformed_row (fieldnames row : list string) : bool :=
  negb (is_blank row)
  && (missing_field "Path" fieldnames row
      || missing_field "Tags" fieldnames row).

(** The publisher folders of the tree: the directories at the top level
    whose name starts with one of the recognised prefixes. *)
Definition recognized_publishers (t : tree) : list (string * node) :=
  filter (fun entry =>
            match snd entry with
            | Dir _ => startswith prefixes (fst entry)
            | File _ => false
            end) t.

(** The number of cached folders whose tag list contains [tag]. *)
Definition usage_of (cache : dict (list string)) (tag : string) : nat :=
  List.length
    (filter (fun entry =>
               if in_dec string_dec tag (snd entry) then true else false)
            cache).

(** A root with 2 publishers, each with 3 topics of 2 chapters. *)
Definition two_chapters : node := Dir [("ch1", Dir []); ("ch2", Dir [])].

Definition three_topics : node :=
  Dir [("algebra", two_chapters); ("logic", two_chapters);
       ("optics", two_chapters)].

Definition example_root : tree :=
  [("__north", three_topics); ("#_south", three_topics)].

(** The text of the regular file at [p], if there is one. *)
Definition file_at (t : tree) (p : path) : option string :=
  match resolve t p with
  | Some (File text) => Some text
  | _ => None
  end.

(** [q] is [p] or an ancestor of [p]. *)
Definition is_prefix (q p : path) : Prop := exists r : path, p = q ++ r.

(** The filesystem and the attributes a handler leaves behind. *)
Definition outcome_tree (o : outcome) : tree :=
  match o with Done t _ => t | Raised _ t _ => t end.

Definition outcome_browser (o : outcome) : browser :=
  match o with Done _ b => b | Raised _ _ b => b end.

(** The last component of a location is the tag marker. *)
Definition is_tag_file (q : path) : bool :=
  String.eqb (last q EmptyString) "tag.txt".

(** The tag file of the directory [p] holds a tag whose lower-cased form
    is [clicked]. *)
Definition tag_hit (t : tree) (clicked : string) (p : path) : bool :=
  mem clicked (map lower (load_tags t (p ++ ["tag.txt"]))).

(** The names of the sub-directories of the directory at [p], in listing
    order. *)
Definition subdirs (t : tree) (p : path) : list string :=
  match resolve t p with
  | Some (Dir es) => filter (fun x => isdir t (p ++ [x])) (map fst es)
  | _ => []
  end.

(** The rows of the per-topic table for one publisher: one per topic
    folder, with the number of its chapter folders. *)
Definition topic_rows (t : tree) (pub : string) : dict nat :=
  map (fun topic =>
         ((pub ++ "/" ++ topic)%string,
          List.length (subdirs t [pub; topic])))
      (subdirs t [pub]).

(** A row of the pointer file that [main] passes over. *)
Definition not_a_root (is_directory : string -> bool) (row : list string)
  : Prop :=
  match row with
  | [] => True
  | first :: _ => is_directory first = false
  end.

(** No tag field of the row holds a carriage return. *)
Definition tags_without_CR (row : dict (option string)) : Prop :=
  forall tags_text,
    dict_get "Tags" row = Some (Some tags_text) ->
    has_char CR tags_text = false.

(** A merge import of [row] finds nothing to add in [t]: the row is
    complete, its path stays in the tree, and the folder it names is
    missing, or the tag file of the
    folder holds its tags in the form [save_tags] writes and the tags of
    the row are among them. *)
Definition settled (t : tree) (row : dict (option string)) : Prop :=
  exists relative tags_text,
    dict_get "Path" row = Some (Some relative)
    /\ dict_get "Tags" row = Some (Some tags_text)
    /\ match under_root relative with
       | None => False
       | Some full_path =>
           isdir t full_path = false
           \/ exists l,
                file_at t (full_path ++ ["tag.txt"])
                = Some (join ", " (sorted (set l)))
                /\ load_tags t (full_path ++ ["tag.txt"]) = sorted (set l)
                /\ incl (strip_pieces tags_text) l
       end.

(** The path of the row, if it has one, is relative and has no ".."
    component: it stays in the tree. *)
Definition path_in_tree (row : dict (option string)) : bool :=
  match dict_get "Path" row with
  | Some (Some relative) =>
      match under_root relative with Some _ => true | None => false end
  | _ => true
  end.

Definition paths_in_tree (rows : list (dict (option string))) : Prop :=
  forallb path_in_tree rows = true.

(** The exception a row that misses the Path or the Tags column runs
    into: [row['Path']] and [row['Tags']] raise [KeyError] when the header
    lacks the column; [None.split] raises [AttributeError] and
    [os.path.join(root, None)] raises [TypeError] when the row is too
    short to reach it. *)
Definition malformed_exn (fieldnames row : list string) : exn :=
  match dict_get "Path" (row_dict fieldnames row) with
  | None => KeyError
  | Some relative =>
      match dict_get "Tags" (row_dict fieldnames row) with
      | None => KeyError
      | Some None => AttributeError
      | Some (Some _) =>
          match relative with None => TypeError | Some _ => KeyError end
      end
  end.

(** The folder a row names, as a location in the tree, and the tags it
    brings. *)
Definition row_folder (row : dict (option string)) : option path :=
  match dict_get "Path" row with
  | Some (Some relative) => under_root relative
  | _ => None
  end.

Definition row_tags (row : dict (option string)) : list string :=
  match dict_get "Tags" row with
  | Some (Some tags_text) => strip_pieces tags_text
  | _ => []
  end.

Definition names_folder (folder : path) (row : dict (option string)) : bool :=
  match row_folder row with
  | Some p => if list_eq_dec string_dec p folder then true else false
  | None => false
  end.

(** Some row names [folder]; the tags the rows bring to [folder], in the
    order of the rows. *)
Definition named_by (folder : path) (rows : list (dict (option string)))
  : bool :=
  existsb (names_folder folder) rows.

Definition imported_for (folder : path) (rows : list (dict (option string)))
  : list string :=
  flat_map row_tags (filter (names_folder folder) rows).

(** A row a merge import can process: it is complete, its path stays in
    the tree, and the tag file of the folder it names is no directory. *)
Definition mergeable (t : tree) (row : dict (option string)) : bool :=
  match dict_get "Tags" row, row_folder row with
  | Some (Some _), Some folder => negb (isdir t (folder ++ ["tag.txt"]))
  | _, _ => false
  end.

End Spec.

(** * Properties *)

Import Py Fs Utils TagBrowser Spec.

(** ** Characters and strings *)

Lemma truthy_true_iff (s : string) : truthy s = true <-> s <> EmptyString.
Proof. destruct s; simpl; split; congruence. Qed.

Lemma has_char_app (c : ascii) (a b : string) :
  has_char c (a ++ b)%string = has_char c a || has_char c b.
Proof.
  induction a as [|d a IH]; simpl; [reflexivity|].
  rewrite IH. apply orb_assoc.
Qed.

(** *** [split] *)

Lemma split_no_sep (c : ascii) (s : string) :
  has_char c s = false -> split c s = [s].
Proof.
  induction s as [|d s IH]; simpl; intros H; [reflexivity|].
  apply orb_false_iff in H. destruct H as [Hd Hs].
  rewrite Hd, (IH Hs). reflexivity.
Qed.

Lemma split_app_sep (c : ascii) (a b : string) :
  has_char c a = false ->
  split c (a ++ String c b)%string = a :: split c b.
Proof.
  induction a as [|d a IH]; simpl; intros H.
  - rewrite Ascii.eqb_refl. reflexivity.
  - apply orb_false_iff in H. destruct H as [Hd Ha].
    rewrite Hd, (IH Ha). reflexivity.
Qed.

(** The pieces of a split never hold the separator. *)
Lemma split_pieces_no_sep (c : ascii) (s : string) :
  Forall (fun w => has_char c w = false) (split c s).
Proof.
  induction s as [|d s IH]; simpl.
  - constructor; [reflexivity|constructor].
  - destruct (Ascii.eqb d c) eqn:E.
    + constructor; [reflexivity|exact IH].
    + destruct (split c s) as [|w ws].
      * constructor; [|constructor]. simpl. rewrite E. reflexivity.
      * inversion IH; subst.
        constructor; [|assumption]. simpl. rewrite E. assumption.
Qed.

(** Splitting a join at a one-character separator gives the parts back. *)
Lemma split_join_sep (c : ascii) (ps : list string) :
  ps <> [] ->
  Forall (fun w => has_char c w = false) ps ->
  split c (join (String c EmptyString) ps) = ps.
Proof.
  induction ps as [|p ps IH]; intros Hne Hall; [contradiction|].
  inversion Hall as [|? ? Hp Hps]; subst.
  destruct ps as [|q ps].
  - simpl. apply split_no_sep; assumption.
  - change (join (String c EmptyString) (p :: q :: ps))
      with (p ++ String c (join (String c EmptyString) (q :: ps)))%string.
    rewrite split_app_sep by assumption.
    rewrite IH; [reflexivity|discriminate|assumption].
Qed.

(** *** [strip] *)

Lemma lstrip_no_char (c : ascii) (s : string) :
  has_char c s = false -> has_char c (lstrip s) = false.
Proof.
  induction s as [|d s IH]; simpl; intros H; [reflexivity|].
  apply orb_false_iff in H. destruct H as [Hd Hs].
  destruct (isspace d); [auto|]. simpl. rewrite Hd, Hs. reflexivity.
Qed.

Lemma rstrip_no_char (c : ascii) (s : string) :
  has_char c s = false -> has_char c (rstrip s) = false.
Proof.
  induction s as [|d s IH]; simpl; intros H; [reflexivity|].
  apply orb_false_iff in H. destruct H as [Hd Hs].
  specialize (IH Hs).
  destruct (rstrip s) eqn:E.
  - destruct (isspace d); simpl; [reflexivity|]. rewrite Hd. reflexivity.
  - simpl in *. rewrite Hd. exact IH.
Qed.

Lemma strip_no_char (c : ascii) (s : string) :
  has_char c s = false -> has_char c (strip s) = false.
Proof. intros H. apply rstrip_no_char, lstrip_no_char, H. Qed.

Lemma lstrip_starts_clean (s : string) : starts_clean (lstrip s) = true.
Proof.
  induction s as [|c s IH]; simpl; [reflexivity|].
  destruct (isspace c) eqn:E; [exact IH|]. simpl. rewrite E. reflexivity.
Qed.

Lemma lstrip_id (s : string) : starts_clean s = true -> lstrip s = s.
Proof.
  destruct s as [|c s]; simpl; [reflexivity|].
  intros H. apply negb_true_iff in H. rewrite H. reflexivity.
Qed.

Lemma rstrip_starts_clean (s : string) :
  starts_clean s = true -> starts_clean (rstrip s) = true.
Proof.
  destruct s as [|c s]; simpl; [reflexivity|].
  intros H. destruct (rstrip s).
  - apply negb_true_iff in H. rewrite H. simpl. rewrite H. reflexivity.
  - simpl. exact H.
Qed.

Lemma rstrip_idem (s : string) : rstrip (rstrip s) = rstrip s.
Proof.
  induction s as [|c s IH]; simpl; [reflexivity|].
  destruct (rstrip s) as [|d r] eqn:E.
  - destruct (isspace c) eqn:Ec; simpl; [reflexivity|]. rewrite Ec. reflexivity.
  - simpl in *. rewrite IH. reflexivity.
Qed.

Lemma strip_idem (s : string) : strip (strip s) = strip s.
Proof.
  unfold strip.
  rewrite (lstrip_id (rstrip (lstrip s))).
  - apply rstrip_idem.
  - apply rstrip_starts_clean, lstrip_starts_clean.
Qed.

Lemma strip_space_cons (s : string) : strip (String space s) = strip s.
Proof. reflexivity. Qed.

(** *** [universal_newlines] *)

Lemma universal_newlines_id (s : string) :
  has_char CR s = false -> universal_newlines s = s.
Proof.
  induction s as [|c s IH]; simpl; intros H; [reflexivity|].
  apply orb_false_iff in H. destruct H as [Hc Hs].
  rewrite Hc, (IH Hs). reflexivity.
Qed.

Lemma has_char_join (c : ascii) (sp : string) (l : list string) :
  has_char c sp = false ->
  Forall (fun w => has_char c w = false) l ->
  has_char c (join sp l) = false.
Proof.
  intros Hsp. induction l as [|x l IH]; intros H; [reflexivity|].
  inversion H as [|? ? Hx Hl]; subst.
  destruct l as [|y l]; [exact Hx|].
  change (join sp (x :: y :: l)) with (x ++ sp ++ join sp (y :: l))%string.
  rewrite !has_char_app, Hx, Hsp, (IH Hl). reflexivity.
Qed.

(** *** The tag line: [', '.join] then the comprehension of [load_tags] *)

Lemma clean_tag_iff (t : string) :
  clean_tag t = true <->
  t <> EmptyString /\ has_char comma t = false /\ strip t = t.
Proof.
  unfold clean_tag. rewrite !andb_true_iff, negb_true_iff.
  rewrite truthy_true_iff, String.eqb_eq. tauto.
Qed.

Lemma strip_pieces_cons_keep (x : string) (l : list string) :
  truthy (strip x) = true ->
  map strip (filter (fun t => truthy (strip t)) (x :: l))
  = strip x :: map strip (filter (fun t => truthy (strip t)) l).
Proof. intros H. simpl. rewrite H. reflexivity. Qed.

Lemma strip_pieces_join_pre (ts : list string) :
  ts <> [] ->
  Forall (fun t => clean_tag t = true) ts ->
  forall pre : string,
    pre = EmptyString \/ pre = String space EmptyString ->
    strip_pieces (pre ++ join ", " ts)%string = ts.
Proof.
  induction ts as [|t ts IH]; intros Hne Hall pre Hpre; [contradiction|].
  inversion Hall as [|? ? Ht Hts]; subst.
  apply clean_tag_iff in Ht. destruct Ht as (Hnz & Hcomma & Hstrip).
  assert (Hpc : has_char comma (pre ++ t)%string = false).
  { rewrite has_char_app, Hcomma. destruct Hpre; subst; reflexivity. }
  assert (Hps : strip (pre ++ t)%string = t).
  { destruct Hpre; subst; simpl; [exact Hstrip|].
    rewrite strip_space_cons. exact Hstrip. }
  assert (Htr : truthy (strip (pre ++ t)%string) = true).
  { rewrite Hps. apply truthy_true_iff. exact Hnz. }
  destruct ts as [|t' ts].
  - unfold strip_pieces. simpl join.
    rewrite split_no_sep by exact Hpc.
    rewrite strip_pieces_cons_keep by exact Htr.
    simpl. rewrite Hps. reflexivity.
  - change (join ", " (t :: t' :: ts))
      with (t ++ String comma (String space EmptyString ++ join ", " (t' :: ts)))%string.
    unfold strip_pieces.
    replace (pre ++ t ++ String comma (String space EmptyString ++ join ", " (t' :: ts)))%string
      with ((pre ++ t) ++ String comma (String space EmptyString ++ join ", " (t' :: ts)))%string.
    2:{ destruct Hpre; subst; reflexivity. }
    rewrite split_app_sep by exact Hpc.
    rewrite strip_pieces_cons_keep by exact Htr.
    rewrite Hps. f_equal.
    apply (IH ltac:(discriminate) Hts (String space EmptyString)).
    right; reflexivity.
Qed.

(** Reading back a line written from clean tags gives the tags. *)
Lemma strip_pieces_join (ts : list string) :
  Forall (fun t => clean_tag t = true) ts ->
  strip_pieces (join ", " ts) = ts.
Proof.
  intros H. destruct ts as [|t ts]; [reflexivity|].
  assert (Hne : t :: ts <> []) by discriminate.
  apply (@strip_pieces_join_pre (t :: ts) Hne H EmptyString).
  left; reflexivity.
Qed.

(** Whatever the line, the comprehension yields clean tags only. *)
Lemma strip_pieces_clean (text : string) :
  Forall (fun t => clean_tag t = true) (strip_pieces text).
Proof.
  unfold strip_pieces. apply Forall_forall. intros t Ht.
  apply in_map_iff in Ht. destruct Ht as (w & <- & Hw).
  apply filter_In in Hw. destruct Hw as [Hin Htr].
  apply clean_tag_iff. split; [|split].
  - apply truthy_true_iff. exact Htr.
  - apply strip_no_char.
    pose proof (split_pieces_no_sep comma text) as Hall.
    rewrite Forall_forall in Hall. apply Hall. exact Hin.
  - apply strip_idem.
Qed.

(** ** Ordering and sorting *)

Lemma ascii_compare_refl (a : ascii) : Ascii.compare a a = Eq.
Proof. unfold Ascii.compare. apply N.compare_refl. Qed.

Lemma ascii_compare_lt_trans (a b c : ascii) :
  Ascii.compare a b = Lt -> Ascii.compare b c = Lt -> Ascii.compare a c = Lt.
Proof.
  unfold Ascii.compare. rewrite !N.compare_lt_iff. apply N.lt_trans.
Qed.

Lemma string_compare_trans (a b c : string) :
  String.compare a b <> Gt -> String.compare b c <> Gt ->
  String.compare a c <> Gt.
Proof.
  revert b c. induction a as [|x a IH]; intros [|y b] [|z c]; simpl;
    try congruence.
  destruct (Ascii.compare x y) eqn:E1; try congruence;
    destruct (Ascii.compare y z) eqn:E2; try congruence.
  - apply Ascii.compare_eq_iff in E1, E2. subst.
    rewrite ascii_compare_refl. apply IH.
  - apply Ascii.compare_eq_iff in E1. subst. rewrite E2. congruence.
  - apply Ascii.compare_eq_iff in E2. subst. rewrite E1. congruence.
  - rewrite (ascii_compare_lt_trans _ _ _ E1 E2). congruence.
Qed.

Lemma leb_iff (a b : string) : String.leb a b = true <-> String.compare a b <> Gt.
Proof. unfold String.leb. destruct (String.compare a b); split; congruence. Qed.

Lemma leb_trans (a b c : string) :
  String.leb a b = true -> String.leb b c = true -> String.leb a c = true.
Proof. rewrite !leb_iff. apply string_compare_trans. Qed.

Lemma leb_false_flip (a b : string) :
  String.leb a b = false -> String.leb b a = true.
Proof.
  intros H. destruct (String.leb_total a b) as [H'|H']; [congruence|exact H'].
Qed.

Lemma leb_neq_ltb (a b : string) :
  String.leb a b = true -> a <> b -> String.ltb a b = true.
Proof.
  unfold String.leb, String.ltb.
  destruct (String.compare a b) eqn:E; try congruence.
  apply String.compare_eq_iff in E. congruence.
Qed.

Lemma insert_perm (x : string) (l : list string) :
  Permutation (x :: l) (insert x l).
Proof.
  induction l as [|y l IH]; simpl; [apply Permutation_refl|].
  destruct (String.leb x y); [apply Permutation_refl|].
  eapply Permutation_trans; [apply perm_swap|]. apply perm_skip, IH.
Qed.

Lemma sorted_perm (l : list string) : Permutation l (sorted l).
Proof.
  induction l as [|x l IH]; simpl; [constructor|].
  eapply Permutation_trans; [apply perm_skip, IH|apply insert_perm].
Qed.

Lemma sorted_In (l : list string) (x : string) : In x (sorted l) <-> In x l.
Proof.
  split; apply Permutation_in;
    [apply Permutation_sym|]; apply sorted_perm.
Qed.

Lemma insert_sorted (x : string) (l : list string) :
  StronglySorted (fun a b => String.leb a b = true) l ->
  StronglySorted (fun a b => String.leb a b = true) (insert x l).
Proof.
  induction 1 as [|y l Hs IH Hall]; simpl.
  - constructor; constructor.
  - destruct (String.leb x y) eqn:E.
    + constructor; [constructor; assumption|].
      constructor; [exact E|].
      eapply Forall_impl; [|exact Hall].
      intros z Hz. eapply leb_trans; eassumption.
    + constructor; [exact IH|].
      apply Forall_forall. intros z Hz.
      apply (Permutation_in _ (Permutation_sym (insert_perm x l))) in Hz.
      destruct Hz as [<-|Hz]; [apply leb_false_flip, E|].
      rewrite Forall_forall in Hall. apply Hall, Hz.
Qed.

Lemma sorted_sorted (l : list string) :
  StronglySorted (fun a b => String.leb a b = true) (sorted l).
Proof.
  induction l as [|x l IH]; simpl; [constructor|apply insert_sorted, IH].
Qed.

(** A sorted list without duplicates is fixed by its elements. *)
Lemma sorted_nodup_unique (l1 l2 : list string) :
  StronglySorted (fun a b => String.leb a b = true) l1 ->
  StronglySorted (fun a b => String.leb a b = true) l2 ->
  NoDup l1 -> NoDup l2 ->
  (forall x, In x l1 <-> In x l2) ->
  l1 = l2.
Proof.
  intros S1. revert l2.
  induction S1 as [|a l1 S1 IH A1]; intros l2 S2 N1 N2 Hin.
  - destruct l2 as [|b l2]; [reflexivity|].
    exfalso. apply (Hin b). left; reflexivity.
  - destruct S2 as [|b l2 S2 A2].
    + exfalso. apply (Hin a). left; reflexivity.
    + rewrite Forall_forall in A1, A2.
      assert (Hab : a = b).
      { assert (H1 : String.leb b a = true).
        { destruct (proj1 (Hin a) (or_introl eq_refl)) as [->|H];
            [destruct (String.leb_total a a); assumption|apply A2, H]. }
        assert (H2 : String.leb a b = true).
        { destruct (proj2 (Hin b) (or_introl eq_refl)) as [->|H];
            [destruct (String.leb_total b b); assumption|apply A1, H]. }
        apply String.leb_antisym; assumption. }
      subst b. f_equal.
      inversion N1; inversion N2; subst.
      apply IH; try assumption.
      intros x. split; intros Hx.
      * destruct (proj1 (Hin x) (or_intror Hx)) as [->|H]; [contradiction|exact H].
      * destruct (proj2 (Hin x) (or_intror Hx)) as [->|H]; [contradiction|exact H].
Qed.

Lemma sorted_set_nodup (l : list string) : NoDup (sorted (set l)).
Proof.
  apply (Permutation_NoDup (sorted_perm (set l))). apply NoDup_nodup.
Qed.

Lemma sorted_set_In (l : list string) (x : string) :
  In x (sorted (set l)) <-> In x l.
Proof. rewrite sorted_In. apply nodup_In. Qed.

(** [sorted(set(l))] depends on the elements of [l] only. *)
Lemma sorted_set_ext (l1 l2 : list string) :
  (forall x, In x l1 <-> In x l2) -> sorted (set l1) = sorted (set l2).
Proof.
  intros H. apply sorted_nodup_unique;
    try apply sorted_sorted; try apply sorted_set_nodup.
  intros x. rewrite !sorted_set_In. apply H.
Qed.

(** The iteration order Python picks for the set does not matter. *)
Lemma sorted_any_order (l s : list string) :
  Permutation s (set l) -> sorted s = sorted (set l).
Proof.
  intros P. apply sorted_nodup_unique; try apply sorted_sorted.
  - apply (Permutation_NoDup (sorted_perm s)).
    apply (Permutation_NoDup (Permutation_sym P)). apply NoDup_nodup.
  - apply sorted_set_nodup.
  - intros x. rewrite !sorted_In. split; apply Permutation_in;
      [exact P|apply Permutation_sym, P].
Qed.

Lemma strongly_sorted_strict (l : list string) :
  StronglySorted (fun a b => String.leb a b = true) l -> NoDup l ->
  StronglySorted (fun a b => String.ltb a b = true) l.
Proof.
  induction 1 as [|a l S IH A]; intros N; [constructor|].
  inversion N as [|? ? Hni Nl]; subst.
  constructor; [apply IH, Nl|].
  rewrite Forall_forall in *. intros x Hx.
  apply leb_neq_ltb; [apply A, Hx|]. intros ->. contradiction.
Qed.

Lemma sorted_set_spec (tags : list string) :
  sorted_dedup_of tags (sorted (set tags)).
Proof.
  split.
  - apply strongly_sorted_strict; [apply sorted_sorted|apply sorted_set_nodup].
  - intros x. apply sorted_set_In.
Qed.

(** ** The filesystem *)

Lemma lookup_set_entry (name : string) (x y : node) (es : tree) :
  lookup name es = Some y -> lookup name (set_entry name x es) = Some x.
Proof.
  induction es as [|[n z] es IH]; simpl; [discriminate|].
  destruct (String.eqb n name) eqn:E; simpl; rewrite E; auto.
Qed.

Lemma lookup_app_new (name : string) (x : node) (es : tree) :
  lookup name es = None -> lookup name (es ++ [(name, x)]) = Some x.
Proof.
  induction es as [|[n z] es IH]; simpl.
  - rewrite String.eqb_refl. reflexivity.
  - destruct (String.eqb n name); [discriminate|exact IH].
Qed.

(** What was written is what the path holds afterwards. *)
Lemma resolve_write_text (p : path) (text : string) :
  forall t t' : tree,
    write_text t p text = Ok t' -> resolve t' p = Some (File text).
Proof.
  induction p as [|name rest IH]; intros t t' H; [discriminate|].
  simpl in H. destruct rest as [|r rs].
  - destruct (lookup name t) as [[old|es]|] eqn:L; try discriminate;
      injection H as <-; simpl.
    + rewrite (lookup_set_entry _ _ _ _ L). reflexivity.
    + rewrite (lookup_app_new _ _ _ L). reflexivity.
  - destruct (lookup name t) as [[old|es]|] eqn:L; try discriminate.
    destruct (write_text es (r :: rs) text) as [es'|e] eqn:W;
      simpl in H; [|discriminate].
    injection H as <-.
    change (resolve (set_entry name (Dir es') t) (name :: r :: rs))
      with (match lookup name (set_entry name (Dir es') t) with
            | Some (Dir es0) => resolve es0 (r :: rs)
            | Some (File _) => None
            | None => None
            end).
    rewrite (lookup_set_entry _ _ _ _ L). apply (IH _ _ W).
Qed.

(** Writing succeeds as soon as the parent is a directory and the path
    itself is not one. *)
Lemma write_text_succeeds (parent : path) (name text : string) :
  forall t : tree,
    isdir t parent = true ->
    isdir t (parent ++ [name]) = false ->
    exists t', write_text t (parent ++ [name]) text = Ok t'.
Proof.
  induction parent as [|d parent IH]; intros t Hp Hn.
  - simpl. unfold isdir in Hn. simpl in Hn.
    destruct (lookup name t) as [[old|es]|]; eauto.
    destruct es; discriminate.
  - unfold isdir in Hp, Hn. simpl in Hp, Hn.
    change (write_text t ((d :: parent) ++ [name]) text)
      with (write_text t (d :: (parent ++ [name])) text).
    simpl. destruct (parent ++ [name]) as [|r rs] eqn:E.
    { destruct parent; discriminate. }
    destruct (lookup d t) as [[old|es]|]; try discriminate.
    + destruct parent; discriminate.
    + destruct (IH es Hp Hn) as [es' W]. rewrite W. simpl. eauto.
Qed.

(** ** The tag store *)

Lemma load_after_save (t t' : tree) (p : path) (tags : list string) :
  save_tags t p tags = Ok t' ->
  load_tags t' p
  = strip_pieces (universal_newlines (join ", " (sorted (set tags)))).
Proof.
  unfold save_tags, load_tags. intros H.
  rewrite (resolve_write_text _ _ _ _ H). reflexivity.
Qed.

Lemma load_tags_clean (t : tree) (p : path) :
  Forall (fun tag => clean_tag tag = true) (load_tags t p).
Proof.
  unfold load_tags.
  destruct (resolve t p) as [[text|es]|]; try constructor.
  apply strip_pieces_clean.
Qed.

(** ** Dictionaries *)

Lemma dict_set_In {V : Type} (k k' : string) (v v' : V) (d : dict V) :
  In (k', v') (dict_set k v d) -> (k' = k /\ v' = v) \/ In (k', v') d.
Proof.
  induction d as [|[k0 v0] d IH]; simpl.
  - intros [H|[]]. injection H as <- <-. auto.
  - destruct (String.eqb k0 k) eqn:E; simpl.
    + apply String.eqb_eq in E. subst.
      intros [H|H]; [injection H as <- <-|]; auto.
    + intros [H|H]; [auto|]. destruct (IH H); auto.
Qed.

Lemma dict_set_keys {V : Type} (k k' : string) (v : V) (d : dict V) :
  In k' (keys (dict_set k v d)) <-> k' = k \/ In k' (keys d).
Proof.
  unfold keys. induction d as [|[k0 v0] d IH]; simpl.
  - intuition congruence.
  - destruct (String.eqb k0 k) eqn:E; simpl.
    + apply String.eqb_eq in E. subst. intuition congruence.
    + rewrite IH. intuition congruence.
Qed.

Lemma dict_get_set_same {V : Type} (k : string) (v : V) (d : dict V) :
  dict_get k (dict_set k v d) = Some v.
Proof.
  induction d as [|[k0 v0] d IH]; simpl.
  - rewrite String.eqb_refl. reflexivity.
  - destruct (String.eqb k0 k) eqn:E; simpl; rewrite E; auto.
Qed.

Lemma dict_get_set_other {V : Type} (k k' : string) (v : V) (d : dict V) :
  k' <> k -> dict_get k' (dict_set k v d) = dict_get k' d.
Proof.
  intros Hne. induction d as [|[k0 v0] d IH]; simpl.
  - destruct (String.eqb k k') eqn:E; [|reflexivity].
    apply String.eqb_eq in E. congruence.
  - destruct (String.eqb k0 k) eqn:E; simpl.
    + apply String.eqb_eq in E. subst.
      destruct (String.eqb k k') eqn:E'; [|reflexivity].
      apply String.eqb_eq in E'. congruence.
    + rewrite IH. reflexivity.
Qed.

(** Clean tags without carriage returns are read back as saved. *)
Lemma load_after_save_clean (t t' : tree) (p : path) (tags : list string) :
  Forall (fun tag => clean_tag tag = true /\ has_char CR tag = false) tags ->
  save_tags t p tags = Ok t' ->
  load_tags t' p = sorted (set tags).
Proof.
  intros Hall Hsave.
  rewrite (load_after_save _ _ _ _ Hsave).
  rewrite Forall_forall in Hall.
  rewrite universal_newlines_id.
  - apply strip_pieces_join. apply Forall_forall. intros x Hx.
    apply Hall. apply sorted_set_In. exact Hx.
  - apply has_char_join; [reflexivity|].
    apply Forall_forall. intros x Hx.
    apply Hall. apply sorted_set_In. exact Hx.
Qed.

(** ** Claims on the tag store *)

(** C1 (amended).  For every list of tags whose elements are non-empty,
    contain no comma and no carriage return, and have no leading or
    trailing whitespace: [save_tags(path, tags)] followed by
    [load_tags(path)] returns exactly [sorted(set(tags))], the sorted,
    deduplicated form of [tags].  [save_tags] does return when the folder
    of [path] exists and [path] is not itself a directory. *)
Theorem save_then_load_roundtrip
    (t : tree) (p : path) (tags : list string) :
  Forall (fun tag => clean_tag tag = true /\ has_char CR tag = false) tags ->
  (forall t' : tree,
      save_tags t p tags = Ok t' ->
      load_tags t' p = sorted (set tags)
      /\ sorted_dedup_of tags (load_tags t' p))
  /\ (forall (folder : path) (name : string),
         p = folder ++ [name] ->
         isdir t folder = true -> isdir t p = false ->
         exists t', save_tags t p tags = Ok t').
Proof.
  intros Hall. split.
  - intros t' Hsave.
    assert (Heq := load_after_save_clean _ _ _ _ Hall Hsave).
    split; [exact Heq|]. rewrite Heq. apply sorted_set_spec.
  - intros folder name -> Hd Hf. apply write_text_succeeds; assumption.
Qed.

Lemma save_then_load_roundtrip_witness :
  exists t',
    save_tags [("book", Dir [])] ["book"; "tag.txt"] ["sea"; "air"; "sea"]
    = Ok t'
    /\ load_tags t' ["book"; "tag.txt"] = ["air"; "sea"].
Proof.
  assert (Hall : Forall (fun tag => clean_tag tag = true
                                    /\ has_char CR tag = false)
                        ["sea"; "air"; "sea"]) by (repeat constructor).
  destruct (save_then_load_roundtrip
              [("book", Dir [])] ["book"; "tag.txt"] ["sea"; "air"; "sea"] Hall)
    as [Hload Hsave].
  destruct (Hsave ["book"] "tag.txt" eq_refl eq_refl eq_refl) as [t' Ht'].
  exists t'. split; [exact Ht'|].
  apply (proj1 (Hload t' Ht')).
Defined.

(** C1 as stated fails: a tag with a carriage return inside is non-empty,
    has no comma and no whitespace at its ends, yet it is read back with a
    line feed in its place. *)
Lemma roundtrip_fails_on_carriage_return :
  let tag := String "a" (String CR (String "b" EmptyString)) in
  clean_tag tag = true
  /\ exists t',
       save_tags [] ["tag.txt"] [tag] = Ok t'
       /\ load_tags t' ["tag.txt"]
          = [String "a" (String LF (String "b" EmptyString))]
       /\ load_tags t' ["tag.txt"] <> sorted (set [tag]).
Proof.
  split; [reflexivity|].
  eexists. split; [reflexivity|]. split; [reflexivity|].
  intros H. discriminate H.
Qed.

(** C5.  For every path whose tag file does not exist, [load_tags]
    returns the empty list; the function has no failing case for it. *)
Theorem load_tags_missing_file (t : tree) (p : path) :
  isfile t p = false -> load_tags t p = [].
Proof.
  unfold isfile, load_tags.
  destruct (resolve t p) as [[text|es]|]; intros H;
    [discriminate|reflexivity|reflexivity].
Qed.

Lemma load_tags_missing_file_witness :
  load_tags [("book", Dir [])] ["book"; "tag.txt"] = [].
Proof.
  apply (load_tags_missing_file [("book", Dir [])] ["book"; "tag.txt"]).
  reflexivity.
Defined.

(** C6.  Deduplication is case-sensitive and does not normalise: saving
    "fiction", "Fiction", "drama" and loading them again gives three
    distinct entries. *)
Theorem case_variants_stay_distinct (t : tree) (folder : path) :
  isdir t folder = true ->
  isdir t (folder ++ ["tag.txt"]) = false ->
  exists t',
    save_tags t (folder ++ ["tag.txt"]) ["fiction"; "Fiction"; "drama"] = Ok t'
    /\ load_tags t' (folder ++ ["tag.txt"]) = ["Fiction"; "drama"; "fiction"]
    /\ List.length (load_tags t' (folder ++ ["tag.txt"])) = 3
    /\ NoDup (load_tags t' (folder ++ ["tag.txt"])).
Proof.
  intros Hd Hf.
  destruct (write_text_succeeds folder "tag.txt"
              (join ", " (sorted (set ["fiction"; "Fiction"; "drama"])))
              t Hd Hf) as [t' H].
  exists t'. split; [exact H|].
  rewrite (load_after_save _ _ _ _ H).
  split; [reflexivity|]. split; [reflexivity|].
  change (NoDup ["Fiction"; "drama"; "fiction"]).
  repeat constructor; simpl; intuition discriminate.
Qed.

Lemma case_variants_stay_distinct_witness :
  exists t',
    save_tags [("book", Dir [])] ["book"; "tag.txt"]
              ["fiction"; "Fiction"; "drama"] = Ok t'
    /\ load_tags t' ["book"; "tag.txt"] = ["Fiction"; "drama"; "fiction"].
Proof.
  destruct (case_variants_stay_distinct [("book", Dir [])] ["book"]
              eq_refl eq_refl) as (t' & H1 & H2 & _).
  exists t'. split; [exact H1|exact H2].
Defined.

(** ** The walk of the tree *)

Lemma walk_node_cons (pre : path) (name : string) (c : node) (l : tree) :
  walk_node pre (Dir ((name, c) :: l))
  = pre :: walk_node (pre ++ [name]) c ++ tl (walk_node pre (Dir l)).
Proof. reflexivity. Qed.

Lemma walk_node_prefix (n : node) :
  forall pre : path, walk_node pre n = map (app pre) (walk_node [] n).
Proof.
  induction n as [text|es IH] using node_ind'; intros pre; [reflexivity|].
  induction es as [|[name c] es IHes].
  - simpl. rewrite app_nil_r. reflexivity.
  - inversion IH as [|? ? Hc Hes]; subst. simpl in Hc.
    specialize (IHes Hes).
    rewrite !walk_node_cons. simpl map. rewrite app_nil_r. f_equal.
    rewrite map_app. f_equal.
    + rewrite (Hc (pre ++ [name])), (Hc [name]), map_map.
      apply map_ext. intros q. rewrite <- app_assoc. reflexivity.
    + rewrite IHes. simpl. reflexivity.
Qed.

Lemma walk_In_nil (t : tree) : In [] (walk t).
Proof. destruct t as [|[name c] t]; left; reflexivity. Qed.

(** A non-empty location is walked when its first component is an entry
    whose own walk reaches the rest. *)
Lemma walk_In_cons (name : string) (rest : path) (t : tree) :
  In (name :: rest) (walk t) <->
  exists c, In (name, c) t /\ In rest (walk_node [] c).
Proof.
  unfold walk. induction t as [|[n c] t IH].
  - simpl. split; [intros [H|[]]; discriminate|intros (c & [] & _)].
  - rewrite walk_node_cons. simpl app.
    split.
    + intros [H|H]; [discriminate|].
      apply in_app_or in H. destruct H as [H|H].
      * rewrite walk_node_prefix in H. apply in_map_iff in H.
        destruct H as (q & Hq & Hin). simpl in Hq.
        injection Hq as <- <-. exists c. split; [left; reflexivity|exact Hin].
      * assert (H' : In (name :: rest) (walk_node [] (Dir t))).
        { destruct t as [|[n' c'] t]; [destruct H|]. right. exact H. }
        apply IH in H'. destruct H' as (c' & Hc' & Hr).
        exists c'. split; [right; exact Hc'|exact Hr].
    + intros (c' & [Hc'|Hc'] & Hr); right; apply in_or_app.
      * injection Hc' as -> ->. left.
        rewrite walk_node_prefix. apply in_map_iff.
        exists rest. split; [reflexivity|exact Hr].
      * right.
        assert (H' : In (name :: rest) (walk_node [] (Dir t))).
        { apply IH. exists c'. split; assumption. }
        destruct t as [|[n' c''] t]; [destruct Hc'|].
        destruct H' as [H'|H']; [discriminate|exact H'].
Qed.

(** *** Well-formed trees *)

Lemma wf_tree_cons (name : string) (c : node) (l : tree) :
  wf_tree ((name, c) :: l)
  = wf_name name && negb (existsb (String.eqb name) (map fst l))
    && wf_node c && wf_tree l.
Proof. reflexivity. Qed.

Lemma wf_tree_entry (t : tree) (name : string) (c : node) :
  wf_tree t = true -> In (name, c) t ->
  wf_name name = true /\ wf_node c = true.
Proof.
  induction t as [|[n x] t IH]; intros W H; [destruct H|].
  rewrite wf_tree_cons in W. rewrite !andb_true_iff in W.
  destruct W as (((Wn & _) & Wx) & Wt).
  destruct H as [H|H]; [injection H as <- <-; auto|auto].
Qed.

Lemma wf_tree_nodup (t : tree) : wf_tree t = true -> NoDup (map fst t).
Proof.
  induction t as [|[n x] t IH]; intros W; [constructor|].
  rewrite wf_tree_cons in W. rewrite !andb_true_iff in W.
  destruct W as (((_ & Wd) & _) & Wt).
  simpl. constructor; [|auto].
  intros Hin. apply negb_true_iff in Wd.
  assert (E : existsb (String.eqb n) (map fst t) = true).
  { apply existsb_exists. exists n. split; [exact Hin|apply String.eqb_refl]. }
  congruence.
Qed.

Lemma lookup_In (t : tree) (name : string) (c : node) :
  lookup name t = Some c -> In (name, c) t.
Proof.
  induction t as [|[n x] t IH]; simpl; [discriminate|].
  destruct (String.eqb n name) eqn:E.
  - apply String.eqb_eq in E. intros H. injection H as <-. subst. auto.
  - auto.
Qed.

Lemma In_lookup (t : tree) (name : string) (c : node) :
  NoDup (map fst t) -> In (name, c) t -> lookup name t = Some c.
Proof.
  induction t as [|[n x] t IH]; simpl; intros N H; [destruct H|].
  inversion N as [|? ? Hni Nt]; subst.
  destruct H as [H|H].
  - injection H as -> ->. rewrite String.eqb_refl. reflexivity.
  - destruct (String.eqb n name) eqn:E; [|auto].
    apply String.eqb_eq in E. subst. exfalso. apply Hni.
    apply in_map_iff. exists (name, c). auto.
Qed.

(** Every component of a walked location is a well-formed name. *)
Lemma walk_names (p : path) :
  forall t : tree,
    wf_tree t = true -> In p (walk t) ->
    Forall (fun n => wf_name n = true) p.
Proof.
  induction p as [|name rest IH]; intros t W H; [constructor|].
  apply walk_In_cons in H. destruct H as (c & Hc & Hr).
  destruct (wf_tree_entry _ _ _ W Hc) as [Wn Wc].
  constructor; [exact Wn|].
  destruct c as [text|es]; [destruct Hr|].
  apply (IH es Wc Hr).
Qed.

(** The walk visits exactly the directories. *)
Lemma walk_isdir (p : path) :
  forall t : tree,
    wf_tree t = true -> (In p (walk t) <-> isdir t p = true).
Proof.
  induction p as [|name rest IH]; intros t W.
  - split; [reflexivity|intros _; apply walk_In_nil].
  - rewrite walk_In_cons. unfold isdir. simpl. split.
    + intros (c & Hc & Hr).
      rewrite (In_lookup _ _ _ (wf_tree_nodup _ W) Hc).
      destruct c as [text|es]; [destruct Hr|].
      destruct (wf_tree_entry _ _ _ W Hc) as [_ Wc].
      apply (IH es Wc). exact Hr.
    + destruct (lookup name t) as [[text|es]|] eqn:L.
      * destruct rest; discriminate.
      * intros H. exists (Dir es). split; [apply lookup_In, L|].
        destruct (wf_tree_entry _ _ _ W (lookup_In _ _ _ L)) as [_ Wc].
        apply (IH es Wc). exact H.
      * discriminate.
Qed.

(** *** Relative paths *)

Lemma wf_name_iff (name : string) :
  wf_name name = true <->
  name <> EmptyString /\ has_char sep name = false
  /\ name <> "." /\ name <> "..".
Proof.
  unfold wf_name. rewrite !andb_true_iff, !negb_true_iff.
  rewrite truthy_true_iff, !String.eqb_neq. tauto.
Qed.

Lemma split_relpath (p : path) :
  p <> [] -> Forall (fun n => wf_name n = true) p ->
  split sep (relpath p) = p.
Proof.
  intros Hne Hall. destruct p as [|a p]; [contradiction|].
  unfold relpath. apply (split_join_sep sep); [discriminate|].
  eapply Forall_impl; [|exact Hall].
  intros n Hn. apply wf_name_iff in Hn. tauto.
Qed.

Lemma relpath_inj (p q : path) :
  Forall (fun n => wf_name n = true) p ->
  Forall (fun n => wf_name n = true) q ->
  relpath p = relpath q -> p = q.
Proof.
  intros Hp Hq E.
  destruct p as [|a p], q as [|b q]; [reflexivity| | |].
  - exfalso. assert (Hs := split_relpath (b :: q) ltac:(discriminate) Hq).
    rewrite <- E in Hs. simpl in Hs. injection Hs as <- <-.
    inversion Hq as [|? ? Hb _]; subst.
    apply wf_name_iff in Hb. tauto.
  - exfalso. assert (Hs := split_relpath (a :: p) ltac:(discriminate) Hp).
    rewrite E in Hs. simpl in Hs. injection Hs as <- <-.
    inversion Hp as [|? ? Ha _]; subst.
    apply wf_name_iff in Ha. tauto.
  - rewrite <- (split_relpath (a :: p) ltac:(discriminate) Hp).
    rewrite <- (split_relpath (b :: q) ltac:(discriminate) Hq).
    rewrite E. reflexivity.
Qed.

(** ** The scan of [load_all_tags] *)

Lemma scan_step_In (t : tree) (cache : dict (list string)) (p : path)
    (r : string) (tags : list string) :
  In (r, tags) (scan_step t cache p) ->
  In (r, tags) cache
  \/ (r = relpath p /\ tags = load_tags t (p ++ ["tag.txt"]) /\ tags <> []).
Proof.
  unfold scan_step.
  destruct (load_tags t (p ++ ["tag.txt"])) as [|x l] eqn:E; [auto|].
  intros H. apply dict_set_In in H. destruct H as [[-> ->]|H]; [|auto].
  right. repeat split. discriminate.
Qed.

Lemma scan_fold_In (t : tree) (l : list path) :
  forall (cache : dict (list string)) (r : string) (tags : list string),
    In (r, tags) (fold_left (scan_step t) l cache) ->
    In (r, tags) cache
    \/ exists p, In p l /\ r = relpath p
                 /\ tags = load_tags t (p ++ ["tag.txt"]) /\ tags <> [].
Proof.
  induction l as [|p l IH]; intros cache r tags H; [auto|].
  simpl in H. apply IH in H. destruct H as [H|(q & Hq & H)].
  - apply scan_step_In in H. destruct H as [H|H]; [auto|].
    right. exists p. split; [left; reflexivity|exact H].
  - right. exists q. split; [right; exact Hq|exact H].
Qed.

Lemma scan_step_keys (t : tree) (cache : dict (list string)) (p : path)
    (k : string) :
  In k (keys (scan_step t cache p)) <->
  In k (keys cache)
  \/ (k = relpath p /\ load_tags t (p ++ ["tag.txt"]) <> []).
Proof.
  unfold scan_step.
  destruct (load_tags t (p ++ ["tag.txt"])) as [|x l] eqn:E.
  - split; [auto|]. intros [H|[_ H]]; [exact H|contradiction].
  - rewrite dict_set_keys. split.
    + intros [H|H]; [right; split; [exact H|discriminate]|auto].
    + intros [H|[H _]]; auto.
Qed.

Lemma scan_fold_keys (t : tree) (l : list path) :
  forall (cache : dict (list string)) (k : string),
    In k (keys (fold_left (scan_step t) l cache)) <->
    In k (keys cache)
    \/ exists p, In p l /\ k = relpath p
                 /\ load_tags t (p ++ ["tag.txt"]) <> [].
Proof.
  induction l as [|p l IH]; intros cache k; simpl.
  - split; [auto|]. intros [H|(p & [] & _)]. exact H.
  - rewrite IH, scan_step_keys. split.
    + intros [[H|H]|(q & Hq & H)]; [auto| |].
      * right. exists p. auto.
      * right. exists q. auto.
    + intros [H|(q & [<-|Hq] & H)]; [auto|auto|].
      right. exists q. auto.
Qed.

(** The value kept under a key is the one of the last directory of the
    walk that has this key and a non-empty tag list. *)
Lemma scan_fold_get (t : tree) (l : list path) :
  forall (cache : dict (list string)) (p : path),
    (forall q, In q l -> relpath q = relpath p -> q = p) ->
    In p l ->
    load_tags t (p ++ ["tag.txt"]) <> [] ->
    dict_get (relpath p) (fold_left (scan_step t) l cache)
    = Some (load_tags t (p ++ ["tag.txt"])).
Proof.
  induction l as [|q l IH]; intros cache p Hinj Hin Hne; [destruct Hin|].
  simpl.
  destruct (in_dec (list_eq_dec string_dec) p l) as [Hl|Hl].
  - apply IH; [|exact Hl|exact Hne]. intros q' Hq'. apply Hinj. right; exact Hq'.
  - destruct Hin as [->|Hin]; [|contradiction].
    assert (Hstep : dict_get (relpath p) (scan_step t cache p)
                    = Some (load_tags t (p ++ ["tag.txt"]))).
    { unfold scan_step.
      destruct (load_tags t (p ++ ["tag.txt"])) as [|x xs] eqn:E;
        [contradiction|]. apply dict_get_set_same. }
    revert Hstep. generalize (scan_step t cache p) as c.
    assert (Hfree : forall q', In q' l -> relpath q' <> relpath p).
    { intros q' Hq' E. apply Hl. rewrite <- (Hinj q' (or_intror Hq') E).
      exact Hq'. }
    clear IH Hinj Hl. induction l as [|q' l IHl]; intros c Hc; [exact Hc|].
    simpl. apply IHl.
    + intros q'' Hq''. apply Hfree. right; exact Hq''.
    + unfold scan_step.
      destruct (load_tags t (q' ++ ["tag.txt"])) as [|x xs]; [exact Hc|].
      rewrite dict_get_set_other; [exact Hc|].
      intros E. apply (Hfree q' (or_introl eq_refl)). symmetry. exact E.
Qed.

(** ** Claims on the tag cache *)

(** C8.  After [load_all_tags] the cache has an entry for a directory
    exactly when the tag file of that directory loads to a non-empty
    list, and then the entry is that list; every entry belongs to a
    directory of the tree, and nothing of the previous cache is left: the
    result is the same from any previous state. *)
Theorem load_all_tags_records_nonempty (t : tree) (b : browser) :
  wf_tree t = true ->
  let cache := tag_cache (load_all_tags t b) in
  (forall dirpath : path,
      isdir t dirpath = true ->
      (In (relpath dirpath) (keys cache)
       <-> load_tags t (dirpath ++ ["tag.txt"]) <> [])
      /\ (load_tags t (dirpath ++ ["tag.txt"]) <> [] ->
          dict_get (relpath dirpath) cache
          = Some (load_tags t (dirpath ++ ["tag.txt"]))))
  /\ (forall k : string,
         In k (keys cache) ->
         exists dirpath, isdir t dirpath = true /\ k = relpath dirpath)
  /\ cache = tag_cache (load_all_tags t empty_browser).
Proof.
  intros W cache. subst cache. unfold load_all_tags. cbn [tag_cache].
  assert (Hinj : forall p q, In p (walk t) -> In q (walk t) ->
                             relpath q = relpath p -> q = p).
  { intros p q Hp Hq E. apply relpath_inj; [| |exact E];
      eapply walk_names; eassumption. }
  split; [|split; [|reflexivity]].
  - intros dirpath Hd. apply (walk_isdir dirpath t W) in Hd. split.
    + rewrite scan_fold_keys. split.
      * intros [H|(q & Hq & E & Hne)]; [simpl in H; contradiction|].
        rewrite <- (Hinj dirpath q Hd Hq (eq_sym E)). exact Hne.
      * intros Hne. right. exists dirpath. auto.
    + intros Hne. apply scan_fold_get; [|exact Hd|exact Hne].
      intros q Hq E. apply (Hinj dirpath q Hd Hq E).
  - intros k Hk. apply scan_fold_keys in Hk.
    destruct Hk as [H|(q & Hq & E & _)]; [simpl in H; contradiction|].
    exists q. split; [apply (walk_isdir q t W), Hq|exact E].
Qed.

Lemma load_all_tags_records_nonempty_witness :
  let t := [("__p", Dir [("tagged", Dir [("tag.txt", File "sea, air")]);
                         ("blank", Dir [("tag.txt", File " , ")]);
                         ("bare", Dir [])])] in
  let stale := set_tag_cache "gone" ["old"] empty_browser in
  (In "__p/tagged" (keys (tag_cache (load_all_tags t stale)))
   <-> load_tags t ["__p"; "tagged"; "tag.txt"] <> [])
  /\ (In "__p/blank" (keys (tag_cache (load_all_tags t stale)))
      <-> load_tags t ["__p"; "blank"; "tag.txt"] <> [])
  /\ tag_cache (load_all_tags t stale) = [("__p/tagged", ["sea"; "air"])].
Proof.
  intros t stale.
  assert (W : wf_tree t = true) by reflexivity.
  pose proof (load_all_tags_records_nonempty t stale W) as H.
  cbv zeta in H. destruct H as (Hdir & _ & _).
  split; [|split].
  - apply (proj1 (Hdir ["__p"; "tagged"] eq_refl)).
  - apply (proj1 (Hdir ["__p"; "blank"] eq_refl)).
  - reflexivity.
Defined.

(** C10.  Every tag [load_tags] returns is non-empty, has no whitespace
    at either end and no comma; so after [load_all_tags] the cached lists
    and [all_tags] hold only such strings; and a tag with a comma is never
    read back after it was saved: it comes back split at the comma. *)
Theorem loaded_tags_are_clean :
  (forall (t : tree) (p : path) (tag : string),
      In tag (load_tags t p) -> clean_tag tag = true)
  /\ (forall (t : tree) (b : browser) (r : string) (tags : list string)
             (tag : string),
         In (r, tags) (tag_cache (load_all_tags t b)) ->
         In tag tags -> clean_tag tag = true)
  /\ (forall (t : tree) (b : browser) (tag : string),
         In tag (all_tags (load_all_tags t b)) -> clean_tag tag = true)
  /\ (forall (t t' : tree) (p : path) (tags : list string) (tag : string),
         has_char comma tag = true ->
         save_tags t p tags = Ok t' ->
         ~ In tag (load_tags t' p))
  /\ (forall (t t' : tree) (p : path),
         save_tags t p ["a,b"] = Ok t' -> load_tags t' p = ["a"; "b"]).
Proof.
  assert (H1 : forall t p tag, In tag (load_tags t p) -> clean_tag tag = true).
  { intros t p tag H. pose proof (load_tags_clean t p) as Hall.
    rewrite Forall_forall in Hall. apply Hall, H. }
  assert (H2 : forall t b r tags tag,
             In (r, tags) (tag_cache (load_all_tags t b)) ->
             In tag tags -> clean_tag tag = true).
  { intros t b r tags tag H Hin.
    unfold load_all_tags in H. cbn [tag_cache] in H.
    apply scan_fold_In in H. destruct H as [H|(q & _ & _ & -> & _)];
      [simpl in H; contradiction|].
    apply (H1 _ _ _ Hin). }
  split; [exact H1|]. split; [exact H2|]. split; [|split].
  - intros t b tag H.
    unfold load_all_tags in H. cbn [all_tags] in H.
    apply (proj1 (sorted_set_In _ _)) in H. apply in_concat in H.
    destruct H as (tags & Htags & Hin).
    apply in_map_iff in Htags. destruct Htags as ([r tags'] & E & Hc).
    simpl in E. subst tags'.
    apply (H2 t b r tags tag); [exact Hc|exact Hin].
  - intros t t' p tags tag Hc _ Hin.
    apply H1 in Hin. apply clean_tag_iff in Hin.
    destruct Hin as (_ & Hno & _). congruence.
  - intros t t' p H. rewrite (load_after_save _ _ _ _ H). reflexivity.
Qed.

Lemma loaded_tags_are_clean_witness :
  clean_tag "sea" = true
  /\ (exists t', save_tags [] ["tag.txt"] ["a,b"; "c"] = Ok t'
                 /\ ~ In "a,b" (load_tags t' ["tag.txt"])
                 /\ load_tags t' ["tag.txt"] = ["a"; "b"; "c"]).
Proof.
  destruct loaded_tags_are_clean as (H1 & _ & _ & H4 & _).
  split.
  - apply (H1 [("tag.txt", File "air , sea")] ["tag.txt"] "sea").
    right; left; reflexivity.
  - eexists. split; [reflexivity|]. split; [|reflexivity].
    apply (H4 [] _ ["tag.txt"] ["a,b"; "c"] "a,b"); reflexivity.
Defined.

(** ** Substring search *)

Lemma prefix_iff (q s : string) :
  String.prefix q s = true <-> exists post, s = (q ++ post)%string.
Proof.
  revert s. induction q as [|a q IH]; intros s.
  - destruct s; simpl; split; eauto.
  - destruct s as [|c s]; simpl.
    + split; [discriminate|intros (post & H); discriminate].
    + destruct (ascii_dec a c) as [->|Hne].
      * rewrite IH. split; intros (post & H); exists post.
        -- rewrite H. reflexivity.
        -- injection H as H. exact H.
      * split; [discriminate|]. intros (post & H). injection H as H _.
        congruence.
Qed.

Lemma contains_iff (q s : string) : contains q s = true <-> occurs_in q s.
Proof.
  unfold occurs_in. induction s as [|c s IH].
  - cbn [contains]. rewrite orb_false_r, prefix_iff. split.
    + intros (post & H). exists EmptyString, post. exact H.
    + intros (pre & post & H). exists post.
      destruct pre; [exact H|discriminate].
  - cbn [contains]. rewrite orb_true_iff, prefix_iff, IH. split.
    + intros [(post & H)|(pre & post & H)].
      * exists EmptyString, post. exact H.
      * exists (String c pre), post. simpl. rewrite H. reflexivity.
    + intros (pre & post & H). destruct pre as [|d pre].
      * left. exists post. exact H.
      * right. simpl in H. injection H as _ H. exists pre, post. exact H.
Qed.

Lemma entry_matches_iff (query : string) (parts tags : list string) :
  entry_matches query parts tags = true <->
  occurs_in query (lower (last_item parts))
  \/ exists tag, In tag tags /\ occurs_in query (lower tag).
Proof.
  unfold entry_matches. rewrite orb_true_iff, contains_iff, existsb_exists.
  split; intros [H|(tag & Hin & H)]; auto; right; exists tag;
    (split; [exact Hin|]); apply contains_iff; exact H.
Qed.

(** ** The loop of [global_search] *)

Lemma search_fold_topics (query : string) (cache : dict (list string)) :
  forall acc name rel,
    In (name, rel) (fst (fold_left (search_step query) cache acc)) <->
    In (name, rel) (fst acc)
    \/ exists tags,
         In (rel, tags) cache
         /\ entry_matches query (split sep rel) tags = true
         /\ List.length (split sep rel) = 2
         /\ name = item 1 (split sep rel).
Proof.
  induction cache as [|[r tags] cache IH]; intros [tops chaps] name rel.
  - simpl. split; [auto|]. intros [H|(tags & [] & _)]. exact H.
  - simpl fold_left. rewrite IH. clear IH.
    unfold search_step.
    destruct (entry_matches query (split sep r) tags) eqn:M.
    + destruct (Nat.eqb (List.length (split sep r)) 2) eqn:L2.
      * apply Nat.eqb_eq in L2. simpl fst. rewrite in_app_iff. simpl In.
        split.
        -- intros [[H|[H|[]]]|(tg & Hin & H)]; [auto| |].
           ++ injection H as <- <-. right. exists tags. auto.
           ++ right. exists tg. auto.
        -- intros [H|(tg & [Hin|Hin] & Hm & Hl & Hn)]; [auto| |].
           ++ injection Hin as <- <-. subst name. auto.
           ++ right. exists tg. auto.
      * apply Nat.eqb_neq in L2.
        destruct (Nat.eqb (List.length (split sep r)) 3); simpl fst; split.
        -- intros [H|(tg & Hin & H)]; [auto|]. right. exists tg. simpl. auto.
        -- intros [H|(tg & [Hin|Hin] & Hm & Hl & Hn)]; [auto| |].
           ++ injection Hin as <- <-. contradiction.
           ++ right. exists tg. auto.
        -- intros [H|(tg & Hin & H)]; [auto|]. right. exists tg. simpl. auto.
        -- intros [H|(tg & [Hin|Hin] & Hm & Hl & Hn)]; [auto| |].
           ++ injection Hin as <- <-. contradiction.
           ++ right. exists tg. auto.
    + simpl fst. split.
      * intros [H|(tg & Hin & H)]; [auto|]. right. exists tg. simpl. auto.
      * intros [H|(tg & [Hin|Hin] & Hm & Hl & Hn)]; [auto| |].
        -- injection Hin as <- <-. congruence.
        -- right. exists tg. auto.
Qed.

Lemma search_fold_chapters (query : string) (cache : dict (list string)) :
  forall acc name rel,
    In (name, rel) (snd (fold_left (search_step query) cache acc)) <->
    In (name, rel) (snd acc)
    \/ exists tags,
         In (rel, tags) cache
         /\ entry_matches query (split sep rel) tags = true
         /\ List.length (split sep rel) = 3
         /\ name = (item 2 (split sep rel) ++ " ("
                    ++ item 1 (split sep rel) ++ ")")%string.
Proof.
  induction cache as [|[r tags] cache IH]; intros [tops chaps] name rel.
  - simpl. split; [auto|]. intros [H|(tags & [] & _)]. exact H.
  - simpl fold_left. rewrite IH. clear IH.
    unfold search_step.
    destruct (entry_matches query (split sep r) tags) eqn:M.
    + destruct (Nat.eqb (List.length (split sep r)) 2) eqn:L2.
      * apply Nat.eqb_eq in L2. simpl snd. split.
        -- intros [H|(tg & Hin & H)]; [auto|]. right. exists tg. simpl. auto.
        -- intros [H|(tg & [Hin|Hin] & Hm & Hl & Hn)]; [auto| |].
           ++ injection Hin as <- <-. congruence.
           ++ right. exists tg. auto.
      * destruct (Nat.eqb (List.length (split sep r)) 3) eqn:L3.
        -- apply Nat.eqb_eq in L3. simpl snd. rewrite in_app_iff. simpl In.
           split.
           ++ intros [[H|[H|[]]]|(tg & Hin & H)]; [auto| |].
              ** injection H as <- <-. right. exists tags. auto.
              ** right. exists tg. auto.
           ++ intros [H|(tg & [Hin|Hin] & Hm & Hl & Hn)]; [auto| |].
              ** injection Hin as <- <-. subst name. auto.
              ** right. exists tg. auto.
        -- apply Nat.eqb_neq in L3. simpl snd. split.
           ++ intros [H|(tg & Hin & H)]; [auto|]. right. exists tg. simpl. auto.
           ++ intros [H|(tg & [Hin|Hin] & Hm & Hl & Hn)]; [auto| |].
              ** injection Hin as <- <-. contradiction.
              ** right. exists tg. auto.
    + simpl snd. split.
      * intros [H|(tg & Hin & H)]; [auto|]. right. exists tg. simpl. auto.
      * intros [H|(tg & [Hin|Hin] & Hm & Hl & Hn)]; [auto| |].
        -- injection Hin as <- <-. congruence.
        -- right. exists tg. auto.
Qed.

(** ** Claims on global search *)

(** C2 (amended).  For every text whose stripped, lower-cased form
    [query] is not empty, global search shows a publisher exactly when its
    lower-cased name contains [query]; it shows an entry of the tag cache
    whose relative path has depth 2 or 3 exactly when its lower-cased
    folder name or one of its lower-cased tags contains [query]; and each
    such match is placed among the topics at depth 2 and among the
    chapters at depth 3.  When the cache is as [load_all_tags] leaves it
    on a tree with POSIX entry names, every folder shown is a directory
    of the tree whose tag file holds a tag, so that a topic or a chapter
    without tags is never shown, whatever the query. *)
Theorem global_search_matches (t : tree) (b : browser) (text : string) :
  let query := lower (strip text) in
  query <> EmptyString ->
  let b' := global_search t b text in
  (forall p : string,
      In p (publisher_list b') <->
      In p (all_publishers b) /\ occurs_in query (lower p))
  /\ (forall name rel : string,
         In (name, rel) (topic_list b') <->
         exists tags,
           In (rel, tags) (tag_cache b)
           /\ (occurs_in query (lower (last_item (split sep rel)))
               \/ exists tag, In tag tags /\ occurs_in query (lower tag))
           /\ List.length (split sep rel) = 2
           /\ name = item 1 (split sep rel))
  /\ (forall name rel : string,
         In (name, rel) (chapter_list b') <->
         exists tags,
           In (rel, tags) (tag_cache b)
           /\ (occurs_in query (lower (last_item (split sep rel)))
               \/ exists tag, In tag tags /\ occurs_in query (lower tag))
           /\ List.length (split sep rel) = 3
           /\ name = (item 2 (split sep rel) ++ " ("
                      ++ item 1 (split sep rel) ++ ")")%string)
  /\ (wf_tree t = true ->
      tag_cache b = tag_cache (load_all_tags t b) ->
      (forall name rel : string,
          In (name, rel) (topic_list b') \/ In (name, rel) (chapter_list b') ->
          exists p, isdir t p = true
                    /\ rel = relpath p
                    /\ load_tags t (p ++ ["tag.txt"]) <> [])
      /\ (forall (p : path) (name : string),
             isdir t p = true ->
             load_tags t (p ++ ["tag.txt"]) = [] ->
             ~ In (name, relpath p) (topic_list b')
             /\ ~ In (name, relpath p) (chapter_list b'))).
Proof.
  intros query Hq b'. subst b'. unfold global_search. fold query.
  apply truthy_true_iff in Hq. rewrite Hq. cbn [negb].
  destruct (fold_left (search_step query) (tag_cache b) ([], []))
    as [tops chaps] eqn:F.
  cbn [publisher_list topic_list chapter_list].
  assert (Hshown : forall name rel,
             In (name, rel) tops \/ In (name, rel) chaps ->
             exists tags, In (rel, tags) (tag_cache b)).
  { intros name rel [H|H].
    - pose proof (search_fold_topics query (tag_cache b) ([], []) name rel)
        as E.
      rewrite F in E. cbn [fst] in E. apply E in H.
      destruct H as [[]|(tags & Hin & _)]. exists tags. exact Hin.
    - pose proof (search_fold_chapters query (tag_cache b) ([], []) name rel)
        as E.
      rewrite F in E. cbn [snd] in E. apply E in H.
      destruct H as [[]|(tags & Hin & _)]. exists tags. exact Hin. }
  assert (Hscan : wf_tree t = true ->
                  tag_cache b = tag_cache (load_all_tags t b) ->
                  forall name rel,
                    In (name, rel) tops \/ In (name, rel) chaps ->
                    exists p, In p (walk t)
                              /\ rel = relpath p
                              /\ load_tags t (p ++ ["tag.txt"]) <> []).
  { intros W Hc name rel H. destruct (Hshown name rel H) as [tags Hin].
    rewrite Hc in Hin. unfold load_all_tags in Hin. cbn [tag_cache] in Hin.
    apply scan_fold_In in Hin. destruct Hin as [[]|(p & Hp & E & -> & Hne)].
    exists p. split; [exact Hp|]. split; [exact E|exact Hne]. }
  split; [|split; [|split]].
  - intros p. rewrite filter_In, contains_iff. tauto.
  - intros name rel.
    pose proof (search_fold_topics query (tag_cache b) ([], []) name rel) as H.
    rewrite F in H. cbn [fst] in H. rewrite H. split.
    + intros [[]|(tags & Hin & Hm & Hl & Hn)].
      exists tags. rewrite <- entry_matches_iff. auto.
    + intros (tags & Hin & Hm & Hl & Hn). right.
      exists tags. rewrite entry_matches_iff. auto.
  - intros name rel.
    pose proof (search_fold_chapters query (tag_cache b) ([], []) name rel) as H.
    rewrite F in H. cbn [snd] in H. rewrite H. split.
    + intros [[]|(tags & Hin & Hm & Hl & Hn)].
      exists tags. rewrite <- entry_matches_iff. auto.
    + intros (tags & Hin & Hm & Hl & Hn). right.
      exists tags. rewrite entry_matches_iff. auto.
  - intros W Hc. split.
    + intros name rel H.
      destruct (Hscan W Hc name rel H) as (p & Hp & E & Hne).
      exists p. split; [apply (walk_isdir p t W), Hp|]. split; assumption.
    + intros p name D L.
      assert (Hno : ~ (In (name, relpath p) tops
                       \/ In (name, relpath p) chaps)).
      { intros H. destruct (Hscan W Hc name _ H) as (q & Hin & E & Hne).
        assert (Hp : In p (walk t)) by (apply (walk_isdir p t W), D).
        apply Hne.
        rewrite (relpath_inj q p (walk_names q t W Hin) (walk_names p t W Hp)
                   (eq_sym E)).
        exact L. }
      split; intros H; apply Hno; auto.
Qed.

Lemma global_search_matches_witness :
  let t := [("__p", Dir [("Maps", Dir [("tag.txt", File "sea")]);
                         ("art", Dir [("old", Dir [("tag.txt", File "Map")])])])] in
  In ("Maps", "__p/Maps") (topic_list (global_search t (init t) " MAP "))
  /\ In ("old (art)", "__p/art/old")
        (chapter_list (global_search t (init t) " MAP "))
  /\ ~ In ("art", "__p/art") (topic_list (global_search t (init t) " MAP ")).
Proof.
  intros t.
  assert (Hq : lower (strip " MAP ") <> EmptyString) by discriminate.
  destruct (global_search_matches t (init t) " MAP " Hq) as (_ & Ht & Hc & Hs).
  split; [|split];
    [| |apply (proj2 (Hs eq_refl eq_refl) ["__p"; "art"] "art" eq_refl eq_refl)].
  - apply (proj2 (Ht "Maps" "__p/Maps")).
    exists ["sea"]. split; [left; reflexivity|].
    split; [|split; reflexivity].
    left. exists EmptyString, "s". reflexivity.
  - apply (proj2 (Hc "old (art)" "__p/art/old")).
    exists ["Map"]. split; [right; left; reflexivity|].
    split; [|split; reflexivity].
    right. exists "Map". split; [left; reflexivity|].
    exists EmptyString, EmptyString. reflexivity.
Defined.

(** C2 as stated fails: a topic folder without tags is not in the tag
    cache, so global search does not find it by its folder name. *)
Lemma untagged_topic_is_not_found :
  let t := [("__p", Dir [("maps", Dir [])])] in
  isdir t ["__p"; "maps"] = true
  /\ split sep (relpath ["__p"; "maps"]) = ["__p"; "maps"]
  /\ contains (lower (strip "maps")) (lower "maps") = true
  /\ topic_list (global_search t (init t) "maps") = []
  /\ chapter_list (global_search t (init t) "maps") = [].
Proof. repeat split. Qed.

Lemma strip_whitespace_only (s : string) :
  whitespace_only s = true -> strip s = EmptyString.
Proof.
  unfold strip. induction s as [|c s IH]; simpl; [reflexivity|].
  intros H. apply andb_true_iff in H. destruct H as [Hc Hs].
  rewrite Hc. apply IH, Hs.
Qed.

(** C3 (amended).  Global search with an empty or whitespace-only text
    reloads the publishers and the tags from the filesystem and shows them
    in full, as a freshly started browser does, and it clears the topic
    and the chapter lists. *)
Theorem empty_search_resets (t : tree) (b : browser) (text : string) :
  whitespace_only text = true ->
  let b' := global_search t b text in
  publisher_list b' = publisher_list (init t)
  /\ tag_list b' = tag_list (init t)
  /\ tag_cache b' = tag_cache (init t)
  /\ topic_list b' = []
  /\ chapter_list b' = [].
Proof.
  intros H b'. subst b'. unfold global_search.
  rewrite (strip_whitespace_only _ H). cbn [lower truthy negb].
  repeat split.
Qed.

Lemma empty_search_resets_witness :
  let t := [("__p", Dir [("maps", Dir [("tag.txt", File "sea")])])] in
  publisher_list (global_search t (global_search t (init t) "zzz") "  ")
  = ["__p"]
  /\ tag_list (global_search t (global_search t (init t) "zzz") "  ")
     = ["sea"].
Proof.
  intros t.
  destruct (empty_search_resets t (global_search t (init t) "zzz") "  " eq_refl)
    as (Hp & Ht & _).
  split; [rewrite Hp|rewrite Ht]; reflexivity.
Defined.

(** C3 as stated fails: the topic list shown before the filter is not
    restored by the empty query, it is cleared. *)
Lemma empty_search_clears_topics :
  let t := [("__p", Dir [("maps", Dir [("tag.txt", File "sea")])])] in
  exists b1,
    load_topics t (init t) "__p" = Ok b1
    /\ topic_list b1 = [("maps", "__p/maps")]
    /\ topic_list (global_search t (global_search t b1 "sea") "") = []
    /\ topic_list (global_search t (global_search t b1 "sea") "")
       <> topic_list b1.
Proof.
  eexists. split; [reflexivity|]. split; [reflexivity|].
  split; [reflexivity|]. discriminate.
Qed.

(** ** CSV import *)

Lemma universal_newlines_no_CR_aux (s : string) :
  has_char CR (universal_newlines s) = false
  /\ forall c, has_char CR (universal_newlines (String c s)) = false.
Proof.
  induction s as [|d s [IH1 IH2]].
  - split; [reflexivity|]. intros c. simpl.
    destruct (Ascii.eqb c CR) eqn:E; simpl; [reflexivity|].
    rewrite E. reflexivity.
  - split; [apply IH2|]. intros c.
    change (universal_newlines (String c (String d s)))
      with (if Ascii.eqb c CR
            then if Ascii.eqb d LF then String LF (universal_newlines s)
                 else String LF (universal_newlines (String d s))
            else String c (universal_newlines (String d s))).
    destruct (Ascii.eqb c CR) eqn:E.
    + destruct (Ascii.eqb d LF);
        cbn [has_char]; [rewrite IH1|rewrite IH2]; reflexivity.
    + cbn [has_char]. rewrite E, IH2. reflexivity.
Qed.

Lemma universal_newlines_no_CR (s : string) :
  has_char CR (universal_newlines s) = false.
Proof. apply universal_newlines_no_CR_aux. Qed.

Lemma split_pieces_no_char (c d : ascii) (s : string) :
  has_char d s = false ->
  Forall (fun w => has_char d w = false) (split c s).
Proof.
  induction s as [|x s IH]; simpl; intros H.
  - constructor; [reflexivity|constructor].
  - apply orb_false_iff in H. destruct H as [Hx Hs]. specialize (IH Hs).
    destruct (Ascii.eqb x c).
    + constructor; [reflexivity|exact IH].
    + destruct (split c s) as [|w ws].
      * constructor; [|constructor]. simpl. rewrite Hx. reflexivity.
      * inversion IH; subst. constructor; [|assumption].
        simpl. rewrite Hx. assumption.
Qed.

Lemma strip_pieces_no_char (d : ascii) (text : string) :
  has_char d text = false ->
  Forall (fun w => has_char d w = false) (strip_pieces text).
Proof.
  intros H. unfold strip_pieces. apply Forall_forall. intros w Hw.
  apply in_map_iff in Hw. destruct Hw as (x & <- & Hx).
  apply filter_In in Hx. destruct Hx as [Hx _].
  apply strip_no_char.
  pose proof (split_pieces_no_char comma d text H) as Hall.
  rewrite Forall_forall in Hall. apply Hall, Hx.
Qed.

Lemma load_tags_no_CR (t : tree) (p : path) :
  Forall (fun w => has_char CR w = false) (load_tags t p).
Proof.
  unfold load_tags. destruct (resolve t p) as [[text|es]|]; try constructor.
  apply strip_pieces_no_char, universal_newlines_no_CR.
Qed.

Lemma sorted_set_set (l : list string) : sorted (set (set l)) = sorted (set l).
Proof. apply sorted_set_ext. intros x. apply nodup_In. Qed.

Lemma import_rows_app (overwrite : bool) (r1 r2 : list (dict (option string))) :
  forall (t : tree) (b : browser),
    import_rows overwrite (r1 ++ r2) t b
    = match import_rows overwrite r1 t b with
      | Done t1 b1 => import_rows overwrite r2 t1 b1
      | Raised e t1 b1 => Raised e t1 b1
      end.
Proof.
  induction r1 as [|row r1 IH]; intros t b; [reflexivity|].
  simpl. destruct (import_row overwrite t b row) as [[t1 b1]|e];
    [apply IH|reflexivity].
Qed.

Lemma dict_reader_app (fieldnames bad : list string)
    (before after : list (list string)) :
  is_blank bad = false ->
  dict_reader (fieldnames :: before ++ bad :: after)
  = dict_reader (fieldnames :: before)
    ++ row_dict fieldnames bad :: dict_reader (fieldnames :: after).
Proof.
  intros H. unfold dict_reader. rewrite filter_app, map_app.
  simpl. rewrite H. reflexivity.
Qed.

(** ** Statistics *)

Lemma dict_set_fresh {V : Type} (k : string) (v : V) (d : dict V) :
  ~ In k (keys d) -> dict_set k v d = d ++ [(k, v)].
Proof.
  unfold keys. induction d as [|[k0 v0] d IH]; simpl; intros H; [reflexivity|].
  destruct (String.eqb k0 k) eqn:E.
  - apply String.eqb_eq in E. exfalso. apply H. left. exact E.
  - rewrite IH; [reflexivity|]. intros Hin. apply H. right. exact Hin.
Qed.

Lemma keys_app {V : Type} (d1 d2 : dict V) : keys (d1 ++ d2) = keys d1 ++ keys d2.
Proof. apply map_app. Qed.

Lemma sum_values_set_fresh (k : string) (v : nat) (d : dict nat) :
  ~ In k (keys d) ->
  list_sum (values (dict_set k v d)) = list_sum (values d) + v.
Proof.
  intros H. rewrite (dict_set_fresh _ _ _ H). unfold values.
  rewrite map_app, list_sum_app. simpl. lia.
Qed.

Lemma isdir_name (t : tree) (n : string) :
  isdir t [n] = true -> exists es, lookup n t = Some (Dir es).
Proof.
  unfold isdir. simpl.
  destruct (lookup n t) as [[text|es]|]; try discriminate. eauto.
Qed.

Lemma isdir_listdir (t : tree) (p : path) :
  isdir t p = true -> exists names, listdir t p = Ok names.
Proof.
  unfold isdir, listdir.
  destruct (resolve t p) as [[text|es]|]; try discriminate. eauto.
Qed.

Lemma under_root_name (n : string) : wf_name n = true -> under_root n = Some [n].
Proof.
  intros W. apply wf_name_iff in W. destruct W as (Hne & Hsep & Hdot & Hdd).
  unfold under_root.
  assert (Hp : String.prefix "/" n = false).
  { destruct (String.prefix "/" n) eqn:P; [|reflexivity].
    apply prefix_iff in P. destruct P as [post ->]. discriminate Hsep. }
  rewrite Hp, (split_no_sep sep n Hsep). cbn [filter].
  apply String.eqb_neq in Hne, Hdot. rewrite Hne, Hdot.
  cbn [negb andb existsb].
  assert (E : String.eqb ".." n = false).
  { apply String.eqb_neq. congruence. }
  rewrite E. reflexivity.
Qed.

Lemma listdir_under_name (t : tree) (n : string) :
  wf_name n = true -> isdir t [n] = true ->
  exists es, lookup n t = Some (Dir es)
             /\ listdir_under t n = Ok ([n], map fst es).
Proof.
  intros W D. destruct (isdir_name t n D) as [es L].
  exists es. split; [exact L|].
  unfold listdir_under, listdir. rewrite (under_root_name n W).
  simpl. rewrite L. reflexivity.
Qed.

Lemma count_topics_ok (t : tree) (pubs : list string) :
  forall acc : dict nat,
    (forall pub, In pub pubs -> wf_name pub = true /\ isdir t [pub] = true) ->
    NoDup pubs ->
    (forall pub, In pub pubs -> ~ In pub (keys acc)) ->
    exists d, count_topics t pubs acc = Ok d /\ keys d = keys acc ++ pubs.
Proof.
  induction pubs as [|pub pubs IH]; intros acc Hw Hn Hf.
  - exists acc. split; [reflexivity|]. rewrite app_nil_r. reflexivity.
  - destruct (Hw pub (or_introl eq_refl)) as [W D].
    destruct (listdir_under_name t pub W D) as (es & _ & L).
    simpl. rewrite L. cbn [bind].
    inversion Hn as [|? ? Hni Hn']; subst.
    rewrite (dict_set_fresh pub _ acc (Hf pub (or_introl eq_refl))).
    destruct (IH (acc ++ [(pub, List.length
                     (filter (fun x => isdir t ([pub] ++ [x])) (map fst es)))]))
      as (d & Hd & Hk).
    + intros p Hp. apply Hw. right. exact Hp.
    + exact Hn'.
    + intros p Hp Hin. rewrite keys_app in Hin. apply in_app_or in Hin.
      destruct Hin as [Hin|[<-|[]]]; [|contradiction].
      apply (Hf p (or_intror Hp)). exact Hin.
    + exists d. split; [exact Hd|].
      rewrite Hk, keys_app, <- app_assoc. reflexivity.
Qed.

Lemma append_cancel_l (a x y : string) :
  (a ++ x)%string = (a ++ y)%string -> x = y.
Proof.
  induction a as [|c a IH]; simpl; intros E; [exact E|].
  injection E as E. apply IH, E.
Qed.

Lemma topic_key_inj (a a' x y : string) :
  has_char sep a = false -> has_char sep a' = false ->
  (a ++ "/" ++ x)%string = (a' ++ "/" ++ y)%string -> a = a' /\ x = y.
Proof.
  revert a'. induction a as [|c a IH]; intros [|c' a'] Ha Ha' E; simpl in *.
  - injection E as E. auto.
  - injection E as E _. subst c'.
    apply orb_false_iff in Ha'. destruct Ha' as [Hc _]. discriminate.
  - injection E as E _. subst c.
    apply orb_false_iff in Ha. destruct Ha as [Hc _]. discriminate.
  - injection E as -> E.
    apply orb_false_iff in Ha, Ha'. destruct Ha as [_ Ha], Ha' as [_ Ha'].
    destruct (IH a' Ha Ha' E) as [-> ->]. auto.
Qed.

Lemma count_chapters_of_ok (t : tree) (pub : string) (names : list string) :
  forall acc : dict nat * nat,
    NoDup names ->
    (forall n, In n names -> ~ In (pub ++ "/" ++ n)%string (keys (fst acc))) ->
    list_sum (values (fst acc)) = snd acc ->
    exists acc',
      count_chapters_of t pub [pub] names acc = Ok acc'
      /\ list_sum (values (fst acc')) = snd acc'
      /\ forall k, In k (keys (fst acc')) ->
                   In k (keys (fst acc))
                   \/ exists n, In n names /\ k = (pub ++ "/" ++ n)%string.
Proof.
  induction names as [|topic names IH]; intros acc Hn Hf Hs.
  - exists acc. split; [reflexivity|]. split; [exact Hs|auto].
  - inversion Hn as [|? ? Hni Hn']; subst.
    cbn [count_chapters_of].
    destruct (isdir t ([pub] ++ [topic])) eqn:D.
    + destruct (isdir_listdir _ _ D) as [inner L]. rewrite L. cbn [bind].
      set (n := List.length
                  (filter (fun c => isdir t (([pub] ++ [topic]) ++ [c])) inner)).
      assert (Hfresh := Hf topic (or_introl eq_refl)).
      destruct (IH (dict_set (pub ++ "/" ++ topic)%string n (fst acc),
                    snd acc + n)) as (acc' & Hc & Hs' & Hk).
      * exact Hn'.
      * intros m Hm Hin. cbn [fst] in Hin.
        apply dict_set_keys in Hin. destruct Hin as [E|Hin].
        -- apply append_cancel_l in E. injection E as E.
           subst m. contradiction.
        -- apply (Hf m (or_intror Hm)). exact Hin.
      * cbn [fst snd]. rewrite (sum_values_set_fresh _ _ _ Hfresh). lia.
      * exists acc'. split; [exact Hc|]. split; [exact Hs'|].
        intros k Hin. destruct (Hk k Hin) as [H|(m & Hm & E)].
        -- cbn [fst] in H. apply dict_set_keys in H.
           destruct H as [->|H]; [|auto].
           right. exists topic. split; [left; reflexivity|reflexivity].
        -- right. exists m. split; [right; exact Hm|exact E].
    + destruct (IH acc) as (acc' & Hc & Hs' & Hk).
      * exact Hn'.
      * intros m Hm. apply Hf. right. exact Hm.
      * exact Hs.
      * exists acc'. split; [exact Hc|]. split; [exact Hs'|].
        intros k Hin. destruct (Hk k Hin) as [H|(m & Hm & E)]; [auto|].
        right. exists m. split; [right; exact Hm|exact E].
Qed.

Lemma count_chapters_ok (t : tree) (items : dict nat) :
  wf_tree t = true ->
  forall acc : dict nat * nat,
    NoDup (keys items) ->
    (forall pub, In pub (keys items) ->
                 wf_name pub = true /\ isdir t [pub] = true) ->
    (forall k, In k (keys (fst acc)) ->
               exists pub' n, ~ In pub' (keys items)
                              /\ has_char sep pub' = false
                              /\ k = (pub' ++ "/" ++ n)%string) ->
    list_sum (values (fst acc)) = snd acc ->
    exists acc',
      count_chapters t items acc = Ok acc'
      /\ list_sum (values (fst acc')) = snd acc'.
Proof.
  intros W. induction items as [|[pub cnt] items IH]; intros acc Hn Hw Hk Hs.
  - exists acc. split; [reflexivity|exact Hs].
  - destruct (Hw pub (or_introl eq_refl)) as [Wp D].
    destruct (listdir_under_name t pub Wp D) as (es & L & LU).
    assert (Hsep : has_char sep pub = false).
    { apply wf_name_iff in Wp. tauto. }
    assert (Wes : wf_tree es = true).
    { apply (wf_tree_entry t pub (Dir es) W (lookup_In _ _ _ L)). }
    cbn [count_chapters]. rewrite LU. cbn [bind].
    inversion Hn as [|? ? Hni Hn']; subst.
    destruct (count_chapters_of_ok t pub (map fst es) acc)
      as (acc1 & Hc & Hs1 & Hk1).
    + apply wf_tree_nodup, Wes.
    + intros n _ Hin. destruct (Hk _ Hin) as (pub' & n' & Hni' & Hsep' & E).
      destruct (topic_key_inj _ _ _ _ Hsep Hsep' E) as [<- _].
      apply Hni'. left. reflexivity.
    + exact Hs.
    + rewrite Hc. cbn [bind]. apply IH.
      * exact Hn'.
      * intros p Hp. apply Hw. right. exact Hp.
      * intros k Hin. destruct (Hk1 k Hin) as [Hold|(n & _ & E)].
        -- destruct (Hk _ Hold) as (pub' & n' & Hni' & Hsep' & E).
           exists pub', n'. split; [|split; assumption].
           intros Hin'. apply Hni'. right. exact Hin'.
        -- exists pub, n. split; [exact Hni|split; assumption].
      * exact Hs1.
Qed.

Lemma usage_counts_get (cache : dict (list string)) (tag : string)
    (tags : list string) :
  forall d : dict nat,
    In tag tags
    \/ dict_get tag d
       = Some (List.length (filter (mem tag) (values cache))) ->
    dict_get tag
      (fold_left
         (fun d tag =>
            dict_set tag (List.length (filter (mem tag) (values cache))) d)
         tags d)
    = Some (List.length (filter (mem tag) (values cache))).
Proof.
  induction tags as [|x tags IH]; intros d H; simpl.
  - destruct H as [[]|H]. exact H.
  - apply IH. destruct (string_dec x tag) as [->|Hne].
    + right. apply dict_get_set_same.
    + destruct H as [[H|H]|H]; [contradiction|auto|].
      right. rewrite dict_get_set_other; [exact H|congruence].
Qed.

Lemma mem_iff (tag : string) (tags : list string) :
  mem tag tags = true <-> In tag tags.
Proof.
  unfold mem. rewrite existsb_exists. split.
  - intros (x & Hx & E). apply String.eqb_eq in E. subst. exact Hx.
  - intros H. exists tag. split; [exact H|apply String.eqb_refl].
Qed.

Lemma usage_of_values (cache : dict (list string)) (tag : string) :
  List.length (filter (mem tag) (values cache)) = usage_of cache tag.
Proof.
  unfold usage_of, values.
  induction cache as [|[r tags] cache IH]; [reflexivity|].
  simpl. destruct (in_dec string_dec tag tags) as [Hin|Hni].
  - rewrite (proj2 (mem_iff tag tags) Hin). simpl. rewrite IH. reflexivity.
  - destruct (mem tag tags) eqn:M; [|exact IH].
    apply mem_iff in M. contradiction.
Qed.

Lemma filter_map_fst {V : Type} (f : string -> bool) (g : string * V -> bool)
    (l : list (string * V)) :
  (forall e, In e l -> f (fst e) = g e) ->
  filter f (map fst l) = map fst (filter g l).
Proof.
  induction l as [|e l IH]; intros H; [reflexivity|].
  simpl. rewrite (H e (or_introl eq_refl)).
  rewrite IH by (intros e' He'; apply H; right; exact He').
  destruct (g e); reflexivity.
Qed.

Lemma publishers_recognized (t : tree) :
  wf_tree t = true ->
  filter (fun name => isdir t [name] && startswith prefixes name) (map fst t)
  = map fst (recognized_publishers t).
Proof.
  intros W. unfold recognized_publishers. apply filter_map_fst.
  intros [name c] Hin. cbn [fst snd]. unfold isdir. simpl resolve.
  rewrite (In_lookup _ _ _ (wf_tree_nodup _ W) Hin).
  destruct c; reflexivity.
Qed.

(** C7.  On a tree with POSIX entry names and with the publishers loaded
    from it, [compute_statistics] returns: as total publishers the number
    of recognised publisher folders, as total topics the sum of the
    per-publisher topic counts, as total chapters the sum of the per-topic
    chapter counts, and for every tag the number of cached folders whose
    tag list contains it.  A root with 2 publishers, each with 3 topics of
    2 chapters, gives 2, 6 and 12. *)
Theorem compute_statistics_totals (t : tree) (b : browser) :
  wf_tree t = true ->
  all_publishers b = all_publishers (init t) ->
  (exists stats,
      compute_statistics t b = Ok stats
      /\ total_publishers stats = List.length (recognized_publishers t)
      /\ keys (topics_per_publisher stats) = all_publishers b
      /\ total_topics stats = list_sum (values (topics_per_publisher stats))
      /\ total_chapters stats = list_sum (values (chapters_per_topic stats))
      /\ forall tag, In tag (all_tags b) ->
                     dict_get tag (tag_usage_count stats)
                     = Some (usage_of (tag_cache b) tag))
  /\ (exists stats,
         compute_statistics example_root (init example_root) = Ok stats
         /\ total_publishers stats = 2
         /\ total_topics stats = 6
         /\ total_chapters stats = 12).
Proof.
  intros W Hp. split.
  2:{ eexists. split; [reflexivity|]. repeat split. }
  assert (Hpubs : all_publishers b
                  = sorted (map fst (recognized_publishers t))).
  { rewrite Hp. unfold init, load_all_tags, load_publishers.
    cbn [all_publishers]. rewrite (publishers_recognized t W). reflexivity. }
  assert (Hin : forall pub, In pub (all_publishers b) ->
                            wf_name pub = true /\ isdir t [pub] = true).
  { intros pub H. rewrite Hpubs in H.
    apply (proj1 (sorted_In _ _)) in H. apply in_map_iff in H.
    destruct H as ([name c] & <- & He). cbn [fst].
    unfold recognized_publishers in He. apply filter_In in He.
    destruct He as [He Hc]. cbn [fst snd] in Hc.
    split; [apply (wf_tree_entry t name c W He)|].
    unfold isdir. simpl resolve.
    rewrite (In_lookup _ _ _ (wf_tree_nodup _ W) He).
    destruct c; [discriminate|reflexivity]. }
  assert (Hnd : NoDup (all_publishers b)).
  { rewrite Hp. unfold init, load_all_tags, load_publishers.
    cbn [all_publishers].
    eapply Permutation_NoDup; [apply sorted_perm|].
    apply NoDup_filter, wf_tree_nodup, W. }
  destruct (count_topics_ok t (all_publishers b) [] Hin Hnd)
    as (d & Hd & Hkd); [intros pub _ []|].
  simpl in Hkd.
  destruct (count_chapters_ok t d W ([], 0)) as (acc & Hacc & Hsum).
  - rewrite Hkd. exact Hnd.
  - rewrite Hkd. exact Hin.
  - intros k [].
  - reflexivity.
  - destruct acc as [topic_chapter_count total].
    unfold compute_statistics. rewrite Hd. cbn [bind]. rewrite Hacc. cbn [bind].
    eexists. split; [reflexivity|].
    cbn [total_publishers topics_per_publisher total_topics total_chapters
         chapters_per_topic tag_usage_count].
    split; [|split; [exact Hkd|split; [reflexivity|split]]].
    + rewrite Hpubs. rewrite <- (Permutation_length (sorted_perm _)).
      apply length_map.
    + simpl in Hsum. symmetry. exact Hsum.
    + intros tag Htag. unfold usage_counts.
      rewrite usage_counts_get by (left; exact Htag).
      rewrite usage_of_values. reflexivity.
Qed.

Lemma compute_statistics_totals_witness :
  exists stats,
    compute_statistics example_root (init example_root) = Ok stats
    /\ total_publishers stats = List.length (recognized_publishers example_root)
    /\ total_chapters stats = list_sum (values (chapters_per_topic stats)).
Proof.
  destruct (compute_statistics_totals example_root (init example_root)
              eq_refl eq_refl) as [(stats & H1 & H2 & _ & _ & H5 & _) _].
  exists stats. split; [exact H1|]. split; [exact H2|exact H5].
Defined.

(** * Further properties of the modules *)

Import TagEditor Main.

(** ** What a write changes *)

Lemma lookup_set_entry_other (name n : string) (x : node) (es : tree) :
  n <> name -> lookup n (set_entry name x es) = lookup n es.
Proof.
  intros Hne. induction es as [|[m y] es IH]; simpl; [reflexivity|].
  destruct (String.eqb m name) eqn:E; simpl.
  - apply String.eqb_eq in E. subst m.
    destruct (String.eqb name n) eqn:E'; [|reflexivity].
    apply String.eqb_eq in E'. congruence.
  - destruct (String.eqb m n); [reflexivity|exact IH].
Qed.

Lemma lookup_app_other (name n : string) (x : node) (es : tree) :
  n <> name -> lookup n (es ++ [(name, x)]) = lookup n es.
Proof.
  intros Hne. induction es as [|[m y] es IH]; simpl.
  - destruct (String.eqb name n) eqn:E; [|reflexivity].
    apply String.eqb_eq in E. congruence.
  - destruct (String.eqb m n); [reflexivity|exact IH].
Qed.

Lemma resolve_cons (t : tree) (name : string) (rest : path) :
  resolve t (name :: rest)
  = match lookup name t with
    | Some (Dir es) => resolve es rest
    | Some (File text) =>
        match rest with [] => Some (File text) | _ :: _ => None end
    | None => None
    end.
Proof. reflexivity. Qed.

Lemma write_text_cons (t : tree) (name : string) (rest : path)
    (text : string) :
  write_text t (name :: rest) text
  = match rest with
    | [] =>
        match lookup name t with
        | Some (Dir _) => Raise OSError
        | Some (File _) => Ok (set_entry name (File text) t)
        | None => Ok (t ++ [(name, File text)])
        end
    | _ :: _ =>
        match lookup name t with
        | Some (Dir es) =>
            es' <- write_text es rest text ;;
            Ok (set_entry name (Dir es') t)
        | _ => Raise OSError
        end
    end.
Proof. reflexivity. Qed.

(** A location that is neither the written path nor one of its ancestors
    resolves as before. *)
Lemma resolve_write_other (p : path) (text : string) :
  forall (t t' : tree) (q : path),
    write_text t p text = Ok t' ->
    ~ is_prefix q p ->
    resolve t' q = resolve t q.
Proof.
  induction p as [|name rest IH]; intros t t' q W Hq; [discriminate|].
  destruct q as [|n q'].
  { exfalso. apply Hq. exists (name :: rest). reflexivity. }
  rewrite write_text_cons in W. rewrite !resolve_cons.
  destruct (string_dec n name) as [->|Hne].
  - destruct rest as [|r rs].
    + assert (Hq' : q' <> []).
      { intros ->. apply Hq. exists []. reflexivity. }
      destruct (lookup name t) as [[old|es]|] eqn:L; try discriminate;
        injection W as <-.
      * rewrite (lookup_set_entry _ _ _ _ L).
        destruct q'; [contradiction|reflexivity].
      * rewrite (lookup_app_new _ _ _ L).
        destruct q'; [contradiction|reflexivity].
    + destruct (lookup name t) as [[old|es]|] eqn:L; try discriminate.
      destruct (write_text es (r :: rs) text) as [es'|e] eqn:W';
        cbn [bind] in W; [|discriminate].
      injection W as <-. rewrite (lookup_set_entry _ _ _ _ L).
      apply (IH es es' q' W').
      intros [x Hx]. apply Hq. exists x. simpl. rewrite Hx. reflexivity.
  - assert (Hl : lookup n t' = lookup n t).
    { destruct rest as [|r rs].
      - destruct (lookup name t) as [[old|es]|]; try discriminate;
          injection W as <-;
          [apply lookup_set_entry_other|apply lookup_app_other]; exact Hne.
      - destruct (lookup name t) as [[old|es]|]; try discriminate.
        destruct (write_text es (r :: rs) text) as [es'|e];
          cbn [bind] in W; [|discriminate].
        injection W as <-. apply lookup_set_entry_other. exact Hne. }
    rewrite Hl. reflexivity.
Qed.

(** The ancestors of the written path are directories before and after. *)
Lemma resolve_write_ancestor (q : path) :
  forall (t t' : tree) (r : path) (text : string),
    r <> [] ->
    write_text t (q ++ r) text = Ok t' ->
    exists es es', resolve t q = Some (Dir es) /\ resolve t' q = Some (Dir es').
Proof.
  induction q as [|n q IH]; intros t t' r text Hr W.
  - exists t, t'. split; reflexivity.
  - change ((n :: q) ++ r) with (n :: (q ++ r)) in W.
    rewrite write_text_cons in W.
    destruct (q ++ r) as [|x xs] eqn:E.
    { destruct q; [simpl in E; contradiction|discriminate]. }
    destruct (lookup n t) as [[old|es]|] eqn:L; try discriminate.
    destruct (write_text es (x :: xs) text) as [es'|e] eqn:W';
      cbn [bind] in W; [|discriminate].
    injection W as <-. rewrite !resolve_cons, L.
    rewrite (lookup_set_entry _ _ _ _ L).
    rewrite <- E in W'. apply (IH es es' r text Hr W').
Qed.

(** The written path was not a directory. *)
Lemma write_text_not_dir (p : path) (text : string) :
  forall t t' : tree, write_text t p text = Ok t' -> isdir t p = false.
Proof.
  induction p as [|name rest IH]; intros t t' W; [discriminate|].
  rewrite write_text_cons in W. unfold isdir. rewrite resolve_cons.
  destruct rest as [|r rs].
  - destruct (lookup name t) as [[old|es]|]; try discriminate; reflexivity.
  - destruct (lookup name t) as [[old|es]|]; try discriminate.
    destruct (write_text es (r :: rs) text) as [es'|e] eqn:W';
      cbn [bind] in W; [|discriminate].
    apply (IH es es' W').
Qed.

Lemma is_prefix_dec (q p : path) : {is_prefix q p} + {~ is_prefix q p}.
Proof.
  revert p. induction q as [|n q IH]; intros p.
  - left. exists p. reflexivity.
  - destruct p as [|m p].
    + right. intros [r H]. discriminate.
    + destruct (string_dec n m) as [->|Hne].
      * destruct (IH p) as [H|H].
        -- left. destruct H as [r ->]. exists r. reflexivity.
        -- right. intros [r Hr]. apply H. exists r.
           injection Hr as Hr. exact Hr.
      * right. intros [r Hr]. injection Hr as Hr _. congruence.
Qed.

(** A write creates and removes no directory. *)
Lemma isdir_write (p : path) (text : string) (t t' : tree) :
  write_text t p text = Ok t' ->
  forall q, isdir t' q = isdir t q.
Proof.
  intros W q. destruct (is_prefix_dec q p) as [[r Hr]|Hn].
  - destruct r as [|x r].
    + rewrite app_nil_r in Hr. subst q.
      rewrite (write_text_not_dir _ _ _ _ W).
      unfold isdir. rewrite (resolve_write_text _ _ _ _ W). reflexivity.
    + subst p.
      destruct (resolve_write_ancestor q t t' (x :: r) text) as (es & es' & H1 & H2);
        [discriminate|exact W|].
      unfold isdir. rewrite H1, H2. reflexivity.
  - unfold isdir. rewrite (resolve_write_other _ _ _ _ _ W Hn). reflexivity.
Qed.

(** A write changes the text of no other file. *)
Lemma file_at_write (p : path) (text : string) (t t' : tree) :
  write_text t p text = Ok t' ->
  forall q, file_at t' q = if list_eq_dec string_dec q p then Some text
                           else file_at t q.
Proof.
  intros W q. destruct (list_eq_dec string_dec q p) as [->|Hne].
  - unfold file_at. rewrite (resolve_write_text _ _ _ _ W). reflexivity.
  - destruct (is_prefix_dec q p) as [[r Hr]|Hn].
    + destruct r as [|x r].
      * rewrite app_nil_r in Hr. congruence.
      * subst p.
        destruct (resolve_write_ancestor q t t' (x :: r) text)
          as (es & es' & H1 & H2); [discriminate|exact W|].
        unfold file_at. rewrite H1, H2. reflexivity.
    + unfold file_at. rewrite (resolve_write_other _ _ _ _ _ W Hn).
      reflexivity.
Qed.

Lemma load_tags_file_at (t : tree) (p : path) :
  load_tags t p
  = match file_at t p with
    | Some text => strip_pieces (universal_newlines text)
    | None => []
    end.
Proof.
  unfold load_tags, file_at.
  destruct (resolve t p) as [[text|es]|]; reflexivity.
Qed.

(** *** The walk after a write *)

Lemma walk_node_tl_prefix (pre : path) (es es' : tree) :
  walk_node [] (Dir es') = walk_node [] (Dir es) ->
  walk_node pre (Dir es') = walk_node pre (Dir es).
Proof.
  intros H. rewrite (walk_node_prefix (Dir es') pre),
              (walk_node_prefix (Dir es) pre), H.
  reflexivity.
Qed.

Lemma walk_set_entry (name : string) (c c' : node) :
  (forall pre, walk_node pre c' = walk_node pre c) ->
  forall (es : tree) (pre : path),
    lookup name es = Some c ->
    walk_node pre (Dir (set_entry name c' es)) = walk_node pre (Dir es).
Proof.
  intros Hc. induction es as [|[n x] es IH]; intros pre L; [discriminate|].
  simpl in L. simpl set_entry.
  destruct (String.eqb n name) eqn:E.
  - injection L as ->. rewrite !walk_node_cons, Hc. reflexivity.
  - rewrite !walk_node_cons, (IH pre L). reflexivity.
Qed.

Lemma walk_app_file (name text : string) (es : tree) (pre : path) :
  walk_node pre (Dir (es ++ [(name, File text)])) = walk_node pre (Dir es).
Proof.
  induction es as [|[n x] es IH]; [reflexivity|].
  change (((n, x) :: es) ++ [(name, File text)])
    with ((n, x) :: (es ++ [(name, File text)])).
  rewrite !walk_node_cons, IH. reflexivity.
Qed.

(** A write leaves the walk as it was. *)
Lemma walk_write (p : path) (text : string) :
  forall t t' : tree, write_text t p text = Ok t' -> walk t' = walk t.
Proof.
  unfold walk. induction p as [|name rest IH]; intros t t' W; [discriminate|].
  rewrite write_text_cons in W. destruct rest as [|r rs].
  - destruct (lookup name t) as [[old|es]|] eqn:L; try discriminate;
      injection W as <-.
    + apply (walk_set_entry name (File old) (File text)); [reflexivity|exact L].
    + apply walk_app_file.
  - destruct (lookup name t) as [[old|es]|] eqn:L; try discriminate.
    destruct (write_text es (r :: rs) text) as [es'|e] eqn:W';
      cbn [bind] in W; [|discriminate].
    injection W as <-.
    apply (walk_set_entry name (Dir es) (Dir es')); [|exact L].
    intros pre. apply walk_node_tl_prefix. apply (IH es es' W').
Qed.

(** ** What an import changes *)

Lemma is_tag_file_app (p : path) : is_tag_file (p ++ ["tag.txt"]) = true.
Proof. unfold is_tag_file. rewrite last_last. reflexivity. Qed.

Lemma save_tags_frame (t t' : tree) (p : path) (tags : list string) :
  save_tags t (p ++ ["tag.txt"]) tags = Ok t' ->
  walk t' = walk t
  /\ (forall q, isdir t' q = isdir t q)
  /\ (forall q, is_tag_file q = false -> file_at t' q = file_at t q).
Proof.
  unfold save_tags. intros W. split; [|split].
  - apply (walk_write _ _ _ _ W).
  - apply (isdir_write _ _ _ _ W).
  - intros q Hq. rewrite (file_at_write _ _ _ _ W q).
    destruct (list_eq_dec string_dec q (p ++ ["tag.txt"])) as [->|_];
      [|reflexivity].
    rewrite is_tag_file_app in Hq. discriminate.
Qed.

Lemma import_row_frame (overwrite : bool) (t t' : tree) (b b' : browser)
    (row : dict (option string)) :
  import_row overwrite t b row = Ok (t', b') ->
  walk t' = walk t
  /\ (forall q, isdir t' q = isdir t q)
  /\ (forall q, is_tag_file q = false -> file_at t' q = file_at t q)
  /\ publisher_list b' = publisher_list b
  /\ topic_list b' = topic_list b
  /\ chapter_list b' = chapter_list b.
Proof.
  unfold import_row, subscript. intros H.
  destruct (dict_get "Path" row) as [[relative|]|];
    destruct (dict_get "Tags" row) as [[tags_text|]|];
    cbn [bind] in H; try discriminate.
  destruct (under_root relative) as [full_path|]; [|discriminate].
  destruct (isdir t full_path); [|injection H as <- <-; repeat split].
  destruct overwrite.
  - destruct (save_tags t (full_path ++ ["tag.txt"]) (strip_pieces tags_text))
      as [t1|e] eqn:S; cbn [bind] in H; [|discriminate].
    injection H as <- <-.
    destruct (save_tags_frame _ _ _ _ S) as (H1 & H2 & H3).
    repeat split; assumption.
  - destruct (save_tags t (full_path ++ ["tag.txt"])
                (set (load_tags t (full_path ++ ["tag.txt"])
                      ++ strip_pieces tags_text)))
      as [t1|e] eqn:S; cbn [bind] in H; [|discriminate].
    injection H as <- <-.
    destruct (save_tags_frame _ _ _ _ S) as (H1 & H2 & H3).
    repeat split; assumption.
Qed.

Lemma import_rows_frame (overwrite : bool) (rows : list (dict (option string))) :
  forall (t : tree) (b : browser),
    let o := import_rows overwrite rows t b in
    walk (outcome_tree o) = walk t
    /\ (forall q, isdir (outcome_tree o) q = isdir t q)
    /\ (forall q, is_tag_file q = false ->
                  file_at (outcome_tree o) q = file_at t q)
    /\ publisher_list (outcome_browser o) = publisher_list b
    /\ topic_list (outcome_browser o) = topic_list b
    /\ chapter_list (outcome_browser o) = chapter_list b.
Proof.
  induction rows as [|row rows IH]; intros t b; [repeat split|].
  cbn [import_rows].
  destruct (import_row overwrite t b row) as [[t1 b1]|e] eqn:R;
    [|repeat split].
  destruct (import_row_frame _ _ _ _ _ _ R) as (H1 & H2 & H3 & H4 & H5 & H6).
  specialize (IH t1 b1). cbv zeta in IH.
  destruct IH as (I1 & I2 & I3 & I4 & I5 & I6).
  cbv zeta. split; [congruence|]. split; [intros q; rewrite I2; apply H2|].
  split; [intros q Hq; rewrite (I3 q Hq); apply (H3 q Hq)|].
  split; [congruence|]. split; congruence.
Qed.

Lemma write_text_raises (p : path) (text : string) :
  forall (t : tree) (e : exn), write_text t p text = Raise e -> e = OSError.
Proof.
  induction p as [|name rest IH]; intros t e H.
  - injection H as <-. reflexivity.
  - rewrite write_text_cons in H. destruct rest as [|r rs].
    + destruct (lookup name t) as [[old|es]|]; try discriminate.
      injection H as <-. reflexivity.
    + destruct (lookup name t) as [[old|es]|];
        try (injection H as <-; reflexivity).
      destruct (write_text es (r :: rs) text) as [es'|e'] eqn:W;
        cbn [bind] in H; [discriminate|].
      injection H as <-. apply (IH es e' W).
Qed.

(** A row whose path stays in the tree is covered by the model. *)
Lemma import_row_modelled (overwrite : bool) (t : tree) (b : browser)
    (row : dict (option string)) :
  path_in_tree row = true ->
  import_row overwrite t b row <> Raise NotModelled.
Proof.
  unfold path_in_tree, import_row, subscript. intros H.
  destruct (dict_get "Path" row) as [[relative|]|];
    destruct (dict_get "Tags" row) as [[tags_text|]|];
    cbn [bind]; try discriminate.
  destruct (under_root relative) as [full_path|]; [|discriminate H].
  destruct (isdir t full_path); [|discriminate].
  destruct overwrite.
  - destruct (save_tags t (full_path ++ ["tag.txt"]) (strip_pieces tags_text))
      as [t1|e] eqn:S; cbn [bind]; [discriminate|].
    unfold save_tags in S. rewrite (write_text_raises _ _ _ _ S). discriminate.
  - destruct (save_tags t (full_path ++ ["tag.txt"])
                (set (load_tags t (full_path ++ ["tag.txt"])
                      ++ strip_pieces tags_text)))
      as [t1|e] eqn:S; cbn [bind]; [discriminate|].
    unfold save_tags in S. rewrite (write_text_raises _ _ _ _ S). discriminate.
Qed.

Lemma import_rows_modelled (overwrite : bool)
    (rows : list (dict (option string))) :
  paths_in_tree rows ->
  forall (t t' : tree) (b b' : browser),
    import_rows overwrite rows t b <> Raised NotModelled t' b'.
Proof.
  unfold paths_in_tree.
  induction rows as [|row rows IH]; intros H t t' b b'; [discriminate|].
  cbn [forallb] in H. apply andb_true_iff in H. destruct H as [Hrow Hrest].
  cbn [import_rows].
  pose proof (import_row_modelled overwrite t b row Hrow) as M.
  destruct (import_row overwrite t b row) as [[t1 b1]|e]; [apply IH, Hrest|].
  intros E. injection E as -> _ _. apply M. reflexivity.
Qed.

(** C9 (amended).  A malformed row (one that misses the Path or the Tags
    column) is not skipped.  When the rows before it are imported without
    an exception, [import_tags] raises at that row, [KeyError] when the
    header lacks the column, [AttributeError] or [TypeError] when the row
    is too short to reach it: the import stops there, with the
    filesystem and the cache as the rows before it left them; the rows
    after it are not processed and the closing reload of the cache is not
    run.  When a row before it raises, the import has stopped at that
    earlier row with the exception of that row (shown for rows whose
    paths stay in the tree: they are relative and have no ".."
    component).  In no case does the import end normally. *)
Theorem malformed_row_aborts_import
    (overwrite : bool) (fieldnames bad : list string)
    (before after : list (list string)) (t : tree) (b : browser) :
  malformed_row fieldnames bad = true ->
  let whole := Some (fieldnames :: before ++ bad :: after) in
  let e := malformed_exn fieldnames bad in
  (e = KeyError \/ e = AttributeError \/ e = TypeError)
  /\ (forall t1 b1,
         import_rows overwrite (dict_reader (fieldnames :: before)) t b
         = Done t1 b1 ->
         import_tags overwrite whole t b = Raised e t1 b1)
  /\ (paths_in_tree (dict_reader (fieldnames :: before)) ->
      forall e0 t0 b0,
        import_rows overwrite (dict_reader (fieldnames :: before)) t b
        = Raised e0 t0 b0 ->
        e0 <> NotModelled
        /\ import_tags overwrite whole t b = Raised e0 t0 b0)
  /\ (paths_in_tree (dict_reader (fieldnames :: before)) ->
      forall t' b', import_tags overwrite whole t b <> Done t' b')
  /\ (dict_get "Path" (row_dict fieldnames bad) = None
      \/ dict_get "Tags" (row_dict fieldnames bad) = None <-> e = KeyError).
Proof.
  intros H whole e.
  assert (Hb : is_blank bad = false).
  { unfold malformed_row in H. apply andb_true_iff in H.
    destruct H as [H _]. apply negb_true_iff in H. exact H. }
  assert (He : forall t1 b1,
             import_row overwrite t1 b1 (row_dict fieldnames bad) = Raise e).
  { intros t1 b1. subst e.
    unfold malformed_row, missing_field in H.
    unfold malformed_exn, import_row, subscript.
    rewrite Hb in H. cbn [negb andb] in H.
    destruct (dict_get "Path" (row_dict fieldnames bad)) as [[rel|]|];
      destruct (dict_get "Tags" (row_dict fieldnames bad)) as [[txt|]|];
      cbn [bind orb] in *; try reflexivity; discriminate. }
  assert (Hwhole : import_tags overwrite whole t b
                   = match import_rows overwrite
                             (dict_reader (fieldnames :: before)) t b with
                     | Done t1 b1 => Raised e t1 b1
                     | Raised e0 t0 b0 => Raised e0 t0 b0
                     end).
  { unfold whole, import_tags.
    rewrite (dict_reader_app _ _ _ _ Hb), import_rows_app.
    destruct (import_rows overwrite (dict_reader (fieldnames :: before)) t b)
      as [t1 b1|e0 t0 b0]; [|reflexivity].
    cbn [import_rows]. rewrite He. reflexivity. }
  split; [|split; [|split; [|split]]].
  - subst e. unfold malformed_exn.
    unfold malformed_row, missing_field in H.
    rewrite Hb in H. cbn [negb andb] in H.
    destruct (dict_get "Path" (row_dict fieldnames bad)) as [[rel|]|];
      destruct (dict_get "Tags" (row_dict fieldnames bad)) as [[txt|]|];
      cbn [orb] in H; auto; discriminate.
  - intros t1 b1 R. rewrite Hwhole, R. reflexivity.
  - intros Hin e0 t0 b0 R. split; [|rewrite Hwhole, R; reflexivity].
    intros E. subst e0.
    apply (import_rows_modelled overwrite _ Hin t t0 b b0 R).
  - intros _ t' b'. rewrite Hwhole.
    destruct (import_rows overwrite (dict_reader (fieldnames :: before)) t b);
      discriminate.
  - subst e. unfold malformed_exn.
    unfold malformed_row, missing_field in H.
    rewrite Hb in H. cbn [negb andb] in H.
    destruct (dict_get "Path" (row_dict fieldnames bad)) as [[rel|]|];
      destruct (dict_get "Tags" (row_dict fieldnames bad)) as [[txt|]|];
      cbn [orb] in H; try discriminate;
      (split; [intros [E|E]; (discriminate E || reflexivity)
              |intros E; (discriminate E || auto)]).
Qed.

Lemma malformed_row_aborts_import_witness :
  let t := [("a", Dir []); ("b", Dir []); ("c", Dir [])] in
  exists t1 b1,
    import_tags true (Some [["Path"; "Tags"]; ["a"; "ink"]; ["b"]; ["c"; "sea"]])
                t (init t)
    = Raised AttributeError t1 b1
    /\ load_tags t1 ["a"; "tag.txt"] = ["ink"]
    /\ load_tags t1 ["c"; "tag.txt"] = []
    /\ all_tags b1 = [].
Proof.
  intros t.
  destruct (malformed_row_aborts_import
              true ["Path"; "Tags"] ["b"] [["a"; "ink"]] [["c"; "sea"]]
              t (init t) eq_refl) as (_ & H & _).
  eexists. eexists. split; [apply H; reflexivity|].
  repeat split.
Defined.

(** C9 as stated fails: the short row is not skipped.  The import raises
    at it, and the row after it, which alone would tag folder "b", is not
    processed. *)
Lemma short_row_aborts_import :
  let t := [("a", Dir []); ("b", Dir [])] in
  malformed_row ["Path"; "Tags"] ["a"] = true
  /\ import_tags true (Some [["Path"; "Tags"]; ["a"]; ["b"; "sea"]]) t (init t)
     = Raised AttributeError t (init t)
  /\ load_tags t ["b"; "tag.txt"] = []
  /\ exists t' b',
       import_tags true (Some [["Path"; "Tags"]; ["b"; "sea"]]) t (init t)
       = Done t' b'
       /\ load_tags t' ["b"; "tag.txt"] = ["sea"].
Proof.
  repeat split. eexists. eexists. split; reflexivity.
Qed.

(** X1.  For a CSV whose paths stay in the tree (they are relative and
    have no ".." component), however the import ends, normally or by an
    exception of the code, it creates and removes no folder, it leaves the
    walk of the tree as it was, it changes the text of no file other than
    tag files, and it leaves the publisher, topic and chapter lists
    alone. *)
Theorem import_touches_tag_files_only
    (overwrite : bool) (fname : option (list (list string)))
    (t : tree) (b : browser) :
  (forall rows, fname = Some rows -> paths_in_tree (dict_reader rows)) ->
  let o := import_tags overwrite fname t b in
  (forall t' b', o <> Raised NotModelled t' b')
  /\ walk (outcome_tree o) = walk t
  /\ (forall q, isdir (outcome_tree o) q = isdir t q)
  /\ (forall q, is_tag_file q = false ->
                file_at (outcome_tree o) q = file_at t q)
  /\ publisher_list (outcome_browser o) = publisher_list b
  /\ topic_list (outcome_browser o) = topic_list b
  /\ chapter_list (outcome_browser o) = chapter_list b.
Proof.
  unfold import_tags. intros Hin.
  destruct fname as [rows|]; [|repeat split; discriminate].
  pose proof (import_rows_frame overwrite (dict_reader rows) t b) as H.
  pose proof (fun t' b' =>
                import_rows_modelled overwrite (dict_reader rows)
                  (Hin rows eq_refl) t t' b b') as M.
  cbv zeta in H.
  destruct (import_rows overwrite (dict_reader rows) t b) as [t' b'|e t' b'];
    cbn [outcome_tree outcome_browser] in *.
  - split; [discriminate|exact H].
  - split; [exact M|exact H].
Qed.

Lemma row_dict_two (a c : string) :
  row_dict ["Path"; "Tags"] [a; c] = [("Path", Some a); ("Tags", Some c)].
Proof. reflexivity. Qed.

(** X2.  In overwrite mode the import replaces, for a row whose path is a
    directory, the tags of the folder by the tags of the row: the tag
    file gets them sorted and without duplicates, whatever it held
    before, and the cache gets them as the row lists them. *)
Theorem overwrite_import_replaces_tags
    (t : tree) (b : browser) (row : dict (option string))
    (relative tags_text : string) (full_path : path) :
  dict_get "Path" row = Some (Some relative) ->
  dict_get "Tags" row = Some (Some tags_text) ->
  under_root relative = Some full_path ->
  isdir t full_path = true ->
  isdir t (full_path ++ ["tag.txt"]) = false ->
  let tag_file := full_path ++ ["tag.txt"] in
  let imported := strip_pieces tags_text in
  exists (t' : tree) (b' : browser),
    import_row true t b row = Ok (t', b')
    /\ file_at t' tag_file = Some (join ", " (sorted (set imported)))
    /\ sorted_dedup_of imported (sorted (set imported))
    /\ (has_char CR tags_text = false ->
        load_tags t' tag_file = sorted (set imported))
    /\ dict_get relative (tag_cache b') = Some imported.
Proof.
  intros HP HT Hroot Hdir Hfile tag_file imported.
  destruct (write_text_succeeds full_path "tag.txt"
              (join ", " (sorted (set imported))) t Hdir Hfile) as [t1 S].
  fold tag_file in S.
  change (save_tags t tag_file imported = Ok t1) in S.
  exists t1, (set_tag_cache relative imported b).
  split; [|split; [|split; [|split]]].
  - unfold import_row, subscript. rewrite HP, HT.
    cbn [bind]. rewrite Hroot, Hdir.
    fold tag_file imported. rewrite S. reflexivity.
  - unfold file_at, save_tags in *.
    rewrite (resolve_write_text _ _ _ _ S). reflexivity.
  - apply sorted_set_spec.
  - intros Hcr. apply (load_after_save_clean t t1 tag_file _); [|exact S].
    pose proof (strip_pieces_clean tags_text) as C.
    pose proof (strip_pieces_no_char CR tags_text Hcr) as N.
    rewrite Forall_forall in *. intros x Hx. split; [apply C|apply N]; exact Hx.
  - unfold set_tag_cache. cbn [tag_cache]. apply dict_get_set_same.
Qed.

Lemma overwrite_import_replaces_tags_witness :
  let t := [("__p", Dir [("maps", Dir [("tag.txt", File "sea, air")])])] in
  exists t' b',
    import_row true t (init t)
               (row_dict ["Path"; "Tags"] ["__p/maps"; "ink, Ink, ink"])
    = Ok (t', b')
    /\ file_at t' ["__p"; "maps"; "tag.txt"] = Some "Ink, ink"
    /\ dict_get "__p/maps" (tag_cache b') = Some ["ink"; "Ink"; "ink"].
Proof.
  intros t.
  destruct (overwrite_import_replaces_tags
              t (init t)
              (row_dict ["Path"; "Tags"] ["__p/maps"; "ink, Ink, ink"])
              "__p/maps" "ink, Ink, ink" ["__p"; "maps"]
              eq_refl eq_refl eq_refl eq_refl eq_refl)
    as (t' & b' & H0 & H1 & _ & _ & H4).
  exists t', b'. split; [exact H0|]. split; [exact H1|exact H4].
Defined.

Lemma import_row_skip (overwrite : bool) (t : tree) (b : browser)
    (fieldnames row : list string) :
  malformed_row fieldnames row = false ->
  is_blank row = false ->
  (forall relative,
      dict_get "Path" (row_dict fieldnames row) = Some (Some relative) ->
      exists full_path,
        under_root relative = Some full_path /\ isdir t full_path = false) ->
  import_row overwrite t b (row_dict fieldnames row) = Ok (t, b).
Proof.
  unfold malformed_row, missing_field, import_row, subscript.
  intros M B Hnd. rewrite B in M. cbn [negb andb] in M.
  apply orb_false_iff in M. destruct M as [MP MT].
  destruct (dict_get "Path" (row_dict fieldnames row)) as [[relative|]|];
    try discriminate.
  destruct (dict_get "Tags" (row_dict fieldnames row)) as [[tags_text|]|];
    try discriminate.
  cbn [bind].
  destruct (Hnd relative eq_refl) as (full_path & U & D).
  rewrite U, D. reflexivity.
Qed.

(** X3.  Rows that are complete but whose path names no existing folder
    under the root are passed over: a CSV that holds only such rows ends
    the import normally, with the filesystem untouched and the cache
    reloaded. *)
Theorem import_skips_unknown_folders
    (overwrite : bool) (fieldnames : list string) (data : list (list string))
    (t : tree) (b : browser) :
  (forall row, In row data -> is_blank row = false ->
               malformed_row fieldnames row = false) ->
  (forall row relative,
      In row data ->
      dict_get "Path" (row_dict fieldnames row) = Some (Some relative) ->
      exists full_path,
        under_root relative = Some full_path /\ isdir t full_path = false) ->
  import_tags overwrite (Some (fieldnames :: data)) t b
  = Done t (load_all_tags t b).
Proof.
  intros Hm Hd. unfold import_tags, dict_reader.
  assert (H : import_rows overwrite
                (map (row_dict fieldnames)
                     (filter (fun r => negb (is_blank r)) data)) t b
              = Done t b).
  { induction data as [|row data IH]; [reflexivity|].
    simpl filter. destruct (is_blank row) eqn:B; cbn [negb].
    - apply IH.
      + intros r Hr. apply Hm. right. exact Hr.
      + intros r rel Hr. apply Hd. right. exact Hr.
    - cbn [map import_rows].
      rewrite (import_row_skip overwrite t b fieldnames row).
      + apply IH.
        * intros r Hr. apply Hm. right. exact Hr.
        * intros r rel Hr. apply Hd. right. exact Hr.
      + apply Hm; [left; reflexivity|exact B].
      + exact B.
      + intros rel. apply Hd. left. reflexivity. }
  rewrite H. reflexivity.
Qed.

Lemma import_skips_unknown_folders_witness :
  let t := [("__p", Dir [("maps", Dir [])])] in
  import_tags false
    (Some [["Path"; "Tags"]; ["__p/gone"; "sea"]; []; ["__p/maps/x"; "ink"]])
    t (init t)
  = Done t (load_all_tags t (init t)).
Proof.
  intros t.
  apply (import_skips_unknown_folders
           false ["Path"; "Tags"]
           [["__p/gone"; "sea"]; []; ["__p/maps/x"; "ink"]] t (init t)).
  - intros row [<-|[<-|[<-|[]]]] B; reflexivity.
  - intros row relative [<-|[<-|[<-|[]]]] HP;
      cbn in HP; try discriminate; injection HP as <-;
      eexists; split; reflexivity.
Defined.

(** ** Relative paths back to locations *)

Lemma under_root_relpath (p : path) :
  Forall (fun n => wf_name n = true) p -> under_root (relpath p) = Some p.
Proof.
  intros W. destruct p as [|a p]; [reflexivity|].
  unfold under_root.
  assert (Hp : String.prefix "/" (relpath (a :: p)) = false).
  { destruct (String.prefix "/" (relpath (a :: p))) eqn:P; [|reflexivity].
    apply prefix_iff in P. destruct P as [post P].
    inversion W as [|? ? Wa _]; subst. apply wf_name_iff in Wa.
    destruct Wa as (Hne & Hsep & _).
    destruct a as [|c a]; [contradiction|].
    assert (E : c = "/"%char).
    { destruct p; simpl in P; injection P as E _; exact E. }
    subst c. discriminate Hsep. }
  rewrite Hp, (split_relpath (a :: p) ltac:(discriminate) W).
  assert (Hf : filter (fun c => negb (String.eqb c "") && negb (String.eqb c "."))
                      (a :: p) = a :: p).
  { clear Hp. induction W as [|x l Hx Hl IH]; [reflexivity|].
    apply wf_name_iff in Hx. destruct Hx as (H1 & _ & H3 & _).
    apply String.eqb_neq in H1, H3. simpl. rewrite H1, H3, IH. reflexivity. }
  rewrite Hf.
  assert (He : existsb (String.eqb "..") (a :: p) = false).
  { clear Hp Hf. induction W as [|x l Hx Hl IH]; [reflexivity|].
    apply wf_name_iff in Hx. destruct Hx as (_ & _ & _ & H4).
    cbn [existsb]. rewrite IH, orb_false_r. apply String.eqb_neq. congruence. }
  rewrite He. reflexivity.
Qed.

Lemma load_tags_nonempty_file (t : tree) (q : path) :
  load_tags t q <> [] -> isfile t q = true /\ isdir t q = false.
Proof.
  unfold load_tags, isfile, isdir.
  destruct (resolve t q) as [[text|es]|]; intros H;
    [split; reflexivity|contradiction|contradiction].
Qed.

(** Every key of a freshly scanned cache is the relative path of a
    directory whose tag file holds tags. *)
Lemma fresh_cache_key (t : tree) (k : string) :
  wf_tree t = true ->
  In k (keys (tag_cache (init t))) ->
  exists p, under_root k = Some p
            /\ k = relpath p
            /\ isdir t p = true
            /\ isdir t (p ++ ["tag.txt"]) = false
            /\ load_tags t (p ++ ["tag.txt"]) <> [].
Proof.
  intros W H. unfold init, load_all_tags in H. cbn [tag_cache] in H.
  apply scan_fold_keys in H.
  destruct H as [H|(p & Hp & -> & Hne)]; [simpl in H; contradiction|].
  exists p. split; [apply under_root_relpath, (walk_names p t W Hp)|].
  split; [reflexivity|]. split; [apply (walk_isdir p t W), Hp|].
  split; [apply (load_tags_nonempty_file _ _ Hne)|exact Hne].
Qed.

Lemma scan_fold_all_empty (t : tree) (l : list path) :
  (forall p, In p l -> load_tags t (p ++ ["tag.txt"]) = []) ->
  forall cache, fold_left (scan_step t) l cache = cache.
Proof.
  induction l as [|p l IH]; intros H cache; [reflexivity|].
  simpl. unfold scan_step at 2. rewrite (H p (or_introl eq_refl)).
  apply IH. intros q Hq. apply H. right. exact Hq.
Qed.

(** ** Clearing all tags *)

Lemma clear_rows_ok (relatives : list string) :
  forall (t : tree) (b : browser),
    (forall k, In k relatives ->
               exists p, under_root k = Some p
                         /\ isdir t p = true
                         /\ isdir t (p ++ ["tag.txt"]) = false) ->
    exists t' b',
      clear_rows relatives t b = Done t' b'
      /\ walk t' = walk t
      /\ (forall q, isdir t' q = isdir t q)
      /\ (forall q, file_at t' q = Some EmptyString
                    \/ file_at t' q = file_at t q)
      /\ (forall k p, In k relatives -> under_root k = Some p ->
                      file_at t' (p ++ ["tag.txt"]) = Some EmptyString)
      /\ (forall q, is_tag_file q = false -> file_at t' q = file_at t q)
      /\ (forall q, (forall k p, In k relatives -> under_root k = Some p ->
                                 q <> p ++ ["tag.txt"]) ->
                    file_at t' q = file_at t q).
Proof.
  induction relatives as [|k ks IH]; intros t b H.
  - exists t, b. repeat split; auto. intros k p [].
  - destruct (H k (or_introl eq_refl)) as (p & U & D & F).
    destruct (write_text_succeeds p "tag.txt" EmptyString t D F) as [t1 W].
    assert (S : save_tags t (p ++ ["tag.txt"]) [] = Ok t1) by exact W.
    destruct (IH t1 (set_tag_cache k [] b)) as
        (t' & b' & C & Hw & Hd & Hf & Hk & Ho & Hx).
    { intros k' Hk'. destruct (H k' (or_intror Hk')) as (p' & U' & D' & F').
      exists p'. rewrite !(isdir_write _ _ _ _ W). auto. }
    exists t', b'. cbn [clear_rows]. unfold tag_file_under. rewrite U, S.
    split; [exact C|].
    split; [rewrite Hw; apply (walk_write _ _ _ _ W)|].
    split; [intros q; rewrite Hd; apply (isdir_write _ _ _ _ W)|].
    split; [|split; [|split]].
    + intros q. destruct (Hf q) as [E|E]; [auto|].
      rewrite E, (file_at_write _ _ _ _ W q).
      destruct (list_eq_dec string_dec q (p ++ ["tag.txt"])); auto.
    + intros k' p' [<-|Hk'] U'.
      * rewrite U in U'. injection U' as <-.
        destruct (Hf (p ++ ["tag.txt"])) as [E|E]; [exact E|].
        rewrite E, (file_at_write _ _ _ _ W).
        destruct (list_eq_dec string_dec (p ++ ["tag.txt"]) (p ++ ["tag.txt"]));
          [reflexivity|contradiction].
      * apply (Hk k' p' Hk' U').
    + intros q Hq. rewrite (Ho q Hq).
      destruct (save_tags_frame _ _ _ _ S) as (_ & _ & H3). apply (H3 q Hq).
    + intros q Hq. rewrite (Hx q).
      * rewrite (file_at_write _ _ _ _ W q).
        destruct (list_eq_dec string_dec q (p ++ ["tag.txt"])) as [E|_];
          [|reflexivity].
        exfalso. apply (Hq k p (or_introl eq_refl) U E).
      * intros k' p' Hk'. apply Hq. right. exact Hk'.
Qed.

(** X4.  On a tree with POSIX entry names and a freshly scanned cache, a
    confirmed [clear_all_tags] ends normally and leaves no tag anywhere:
    the tag file of every directory that held tags is truncated to the
    empty text, every tag file loads to the empty list, the cache and the
    tag list are empty.  It removes no folder and no file, and it leaves
    every other file as it was: the files that are no tag files, and also
    the tag files that held no tag (one that holds only commas and blanks
    keeps its text).  When the confirmation is declined nothing
    changes. *)
Theorem clear_all_tags_empties_everything (t : tree) (b : browser) :
  wf_tree t = true ->
  tag_cache b = tag_cache (init t) ->
  (exists t' b',
      clear_all_tags true t b = Done t' b'
      /\ (forall p, load_tags t' (p ++ ["tag.txt"]) = [])
      /\ tag_cache b' = []
      /\ all_tags b' = []
      /\ tag_list b' = []
      /\ (forall q, isdir t' q = isdir t q)
      /\ (forall q, isfile t q = true -> isfile t' q = true)
      /\ (forall q, is_tag_file q = false -> file_at t' q = file_at t q)
      /\ (forall p, isdir t p = true ->
                    load_tags t (p ++ ["tag.txt"]) <> [] ->
                    file_at t' (p ++ ["tag.txt"]) = Some EmptyString)
      /\ (forall q, load_tags t q = [] -> file_at t' q = file_at t q))
  /\ clear_all_tags false t b = Done t b.
Proof.
  intros W Hc. split; [|reflexivity].
  destruct (clear_rows_ok (keys (tag_cache b)) t b)
    as (t' & b' & C & Hw & Hd & Hf & Hk & Ho & Hrest).
  { intros k Hk. rewrite Hc in Hk.
    destruct (fresh_cache_key t k W Hk) as (p & U & _ & D & F & _).
    exists p. auto. }
  assert (Hall : forall p, isdir t p = true ->
                           load_tags t' (p ++ ["tag.txt"]) = []).
  { intros p Hp.
    destruct (Hf (p ++ ["tag.txt"])) as [E|E].
    - rewrite load_tags_file_at, E. reflexivity.
    - destruct (load_tags t (p ++ ["tag.txt"])) as [|x l] eqn:L.
      + rewrite load_tags_file_at, E, <- load_tags_file_at. exact L.
      + assert (Hin : In (relpath p) (keys (tag_cache b))).
        { rewrite Hc. unfold init, load_all_tags. cbn [tag_cache].
          apply scan_fold_keys. right. exists p.
          split; [apply (walk_isdir p t W), Hp|].
          split; [reflexivity|]. rewrite L. discriminate. }
        assert (U : under_root (relpath p) = Some p).
        { apply under_root_relpath, (walk_names p t W).
          apply (walk_isdir p t W), Hp. }
        rewrite load_tags_file_at, (Hk _ _ Hin U). reflexivity. }
  assert (Hall' : forall p, load_tags t' (p ++ ["tag.txt"]) = []).
  { intros p. destruct (isdir t p) eqn:D; [apply Hall, D|].
    destruct (load_tags t' (p ++ ["tag.txt"])) as [|x l] eqn:L; [reflexivity|].
    exfalso.
    assert (Hne : load_tags t' (p ++ ["tag.txt"]) <> []) by (rewrite L; discriminate).
    unfold load_tags in Hne.
    assert (Hd' : isdir t' p = true).
    { unfold isdir. clear L.
      revert Hne. generalize t'. clear. induction p as [|n p IH]; intros t Hne.
      - reflexivity.
      - change ((n :: p) ++ ["tag.txt"]) with (n :: (p ++ ["tag.txt"])) in Hne.
        rewrite resolve_cons in *.
        destruct (lookup n t) as [[text|es]|]; [| |contradiction].
        + destruct (p ++ ["tag.txt"]) eqn:E; [destruct p; discriminate|contradiction].
        + apply IH. exact Hne. }
    rewrite Hd in Hd'. congruence. }
  exists t', (load_all_tags t' b'). unfold clear_all_tags. rewrite C.
  assert (Hcache : tag_cache (load_all_tags t' b') = []).
  { unfold load_all_tags. cbn [tag_cache].
    apply scan_fold_all_empty. intros p _. apply Hall'. }
  split; [reflexivity|]. split; [exact Hall'|]. split; [exact Hcache|].
  assert (Htags : all_tags (load_all_tags t' b') = []).
  { unfold load_all_tags in *. cbn [tag_cache all_tags] in *.
    rewrite Hcache. reflexivity. }
  split; [exact Htags|]. split; [exact Htags|]. split; [exact Hd|].
  split.
  - intros q Hq. unfold isfile in *. 
    assert (Hq' : exists x, file_at t q = Some x).
    { unfold file_at. destruct (resolve t q) as [[x|es]|]; try discriminate. eauto. }
    destruct Hq' as [x Hx].
    assert (E : exists y, file_at t' q = Some y).
    { destruct (Hf q) as [E|E]; [eauto|]. rewrite E, Hx. eauto. }
    destruct E as [y Hy]. unfold file_at in Hy.
    destruct (resolve t' q) as [[z|es]|]; try discriminate. reflexivity.
  - split; [exact Ho|]. split.
    + intros p Hp Hne.
      assert (Hin : In (relpath p) (keys (tag_cache b))).
      { rewrite Hc. unfold init, load_all_tags. cbn [tag_cache].
        apply scan_fold_keys. right. exists p.
        split; [apply (walk_isdir p t W), Hp|].
        split; [reflexivity|exact Hne]. }
      apply (Hk _ _ Hin).
      apply under_root_relpath, (walk_names p t W).
      apply (walk_isdir p t W), Hp.
    + intros q Hq. apply Hrest. intros k p Hin U E.
      rewrite Hc in Hin.
      destruct (fresh_cache_key t k W Hin) as (p0 & U0 & _ & _ & _ & Hne).
      rewrite U in U0. injection U0 as <-.
      apply Hne. rewrite <- E. exact Hq.
Qed.

Lemma clear_all_tags_empties_everything_witness :
  let t := [("__p", Dir [("maps", Dir [("tag.txt", File "sea, air");
                                       ("notes.txt", File "keep")]);
                         ("bare", Dir [("tag.txt", File " , ")])])] in
  exists t' b',
    clear_all_tags true t (init t) = Done t' b'
    /\ load_tags t' ["__p"; "maps"; "tag.txt"] = []
    /\ tag_cache b' = []
    /\ isfile t' ["__p"; "maps"; "tag.txt"] = true
    /\ file_at t' ["__p"; "maps"; "notes.txt"] = Some "keep"
    /\ file_at t' ["__p"; "maps"; "tag.txt"] = Some EmptyString
    /\ file_at t' ["__p"; "bare"; "tag.txt"] = Some " , ".
Proof.
  intros t.
  destruct (clear_all_tags_empties_everything t (init t) eq_refl eq_refl)
    as [(t' & b' & H0 & H1 & H2 & _ & _ & _ & H6 & H7 & H8 & H9) _].
  exists t', b'. split; [exact H0|].
  split; [apply (H1 ["__p"; "maps"])|]. split; [exact H2|].
  split; [apply H6; reflexivity|].
  split; [rewrite (H7 ["__p"; "maps"; "notes.txt"] eq_refl); reflexivity|].
  split; [apply (H8 ["__p"; "maps"] eq_refl); discriminate|].
  rewrite (H9 ["__p"; "bare"; "tag.txt"] eq_refl). reflexivity.
Defined.

(** ** The tag list after a scan *)

Lemma dict_get_In {V : Type} (k : string) (v : V) (d : dict V) :
  dict_get k d = Some v -> In (k, v) d.
Proof.
  induction d as [|[k0 v0] d IH]; simpl; [discriminate|].
  destruct (String.eqb k0 k) eqn:E.
  - apply String.eqb_eq in E. intros H. injection H as <-. subst. auto.
  - auto.
Qed.

Lemma dict_set_keys_nodup {V : Type} (k : string) (v : V) (d : dict V) :
  NoDup (keys d) -> NoDup (keys (dict_set k v d)).
Proof.
  unfold keys. induction d as [|[k0 v0] d IH]; simpl; intros N.
  - constructor; [intros []|constructor].
  - inversion N as [|? ? Hni Nd]; subst.
    destruct (String.eqb k0 k) eqn:E; simpl; [exact N|].
    constructor; [|apply IH, Nd].
    intros Hin. apply (dict_set_keys k k0 v d) in Hin.
    destruct Hin as [->|Hin]; [|contradiction].
    rewrite String.eqb_refl in E. discriminate.
Qed.

Lemma scan_fold_keys_nodup (t : tree) (l : list path) :
  forall cache, NoDup (keys cache) ->
                NoDup (keys (fold_left (scan_step t) l cache)).
Proof.
  induction l as [|p l IH]; intros cache N; [exact N|].
  simpl. apply IH. unfold scan_step.
  destruct (load_tags t (p ++ ["tag.txt"])); [exact N|].
  apply dict_set_keys_nodup, N.
Qed.

(** The tags of the cached lists are the tags of the tag files of the
    walked directories. *)
Lemma scan_values_In (t : tree) (l : list path) (x : string) :
  (forall p q, In p l -> In q l -> relpath q = relpath p -> q = p) ->
  In x (List.concat (values (fold_left (scan_step t) l [])))
  <-> exists p, In p l /\ In x (load_tags t (p ++ ["tag.txt"])).
Proof.
  intros Hinj. rewrite in_concat. split.
  - intros (tags & Hv & Hx). unfold values in Hv.
    apply in_map_iff in Hv. destruct Hv as ([r tags'] & E & Hin).
    simpl in E. subst tags'. apply scan_fold_In in Hin.
    destruct Hin as [[]|(p & Hp & _ & -> & _)]. exists p. auto.
  - intros (p & Hp & Hx).
    exists (load_tags t (p ++ ["tag.txt"])). split; [|exact Hx].
    unfold values. apply in_map_iff.
    exists (relpath p, load_tags t (p ++ ["tag.txt"])). split; [reflexivity|].
    apply dict_get_In. apply scan_fold_get; [|exact Hp|].
    + intros q Hq E. apply (Hinj p q Hp Hq E).
    + intros E. rewrite E in Hx. destruct Hx.
Qed.

Lemma walk_relpath_inj (t : tree) :
  wf_tree t = true ->
  forall p q, In p (walk t) -> In q (walk t) -> relpath q = relpath p -> q = p.
Proof.
  intros W p q Hp Hq E.
  apply relpath_inj; [| |exact E]; eapply walk_names; eassumption.
Qed.

(** X5.  After [load_all_tags] on a tree with POSIX entry names the tag
    list is strictly ascending (sorted, no tag twice) and holds exactly
    the tags found in the tag file of some directory of the tree; the tag
    widget shows this list, and no key occurs twice in the cache. *)
Theorem scanned_tag_list_is_exact (t : tree) (b : browser) :
  wf_tree t = true ->
  let b' := load_all_tags t b in
  StronglySorted (fun x y => String.ltb x y = true) (all_tags b')
  /\ (forall x, In x (all_tags b')
                <-> exists p, isdir t p = true
                              /\ In x (load_tags t (p ++ ["tag.txt"])))
  /\ tag_list b' = all_tags b'
  /\ NoDup (keys (tag_cache b')).
Proof.
  intros W b'. subst b'. unfold load_all_tags.
  cbn [all_tags tag_list tag_cache].
  split; [apply sorted_set_spec|]. split; [|split; [reflexivity|]].
  - intros x. rewrite sorted_set_In.
    rewrite (scan_values_In t (walk t) x (walk_relpath_inj t W)).
    split; intros (p & Hp & Hx); exists p; (split; [|exact Hx]);
      apply (walk_isdir p t W); exact Hp.
  - apply scan_fold_keys_nodup. constructor.
Qed.

Lemma scanned_tag_list_is_exact_witness :
  let t := [("__p", Dir [("maps", Dir [("tag.txt", File "sea, air")]);
                         ("art", Dir [("tag.txt", File "air, Ink")])])] in
  In "Ink" (all_tags (load_all_tags t empty_browser))
  /\ NoDup (keys (tag_cache (load_all_tags t empty_browser))).
Proof.
  intros t.
  destruct (scanned_tag_list_is_exact t empty_browser eq_refl)
    as (_ & H & _ & N).
  split; [|exact N].
  apply (proj2 (H "Ink")). exists ["__p"; "art"].
  split; [reflexivity|]. right; left; reflexivity.
Defined.

(** ** Export, and importing what was exported *)


Lemma load_tags_write_other (t t' : tree) (p q : path) (text : string) :
  write_text t p text = Ok t' -> q <> p -> load_tags t' q = load_tags t q.
Proof.
  intros W Hne. rewrite !load_tags_file_at, (file_at_write _ _ _ _ W q).
  destruct (list_eq_dec string_dec q p); [contradiction|reflexivity].
Qed.

Lemma load_tags_clean_no_CR (t : tree) (p : path) :
  Forall (fun tag => clean_tag tag = true /\ has_char CR tag = false)
         (load_tags t p).
Proof.
  pose proof (load_tags_clean t p) as C.
  pose proof (load_tags_no_CR t p) as N.
  rewrite Forall_forall in *. intros x Hx. split; [apply C|apply N]; exact Hx.
Qed.





(** X7.  Every row [export_tags] writes after a scan is complete (it has
    the Path and the Tags column), and its Tags field parses back, by the
    comprehension of the import, to exactly the cached tag list of the
    folder; there is one row per cached folder after the header. *)
Theorem export_rows_parse_back (t : tree) (b : browser) :
  let b' := load_all_tags t b in
  Forall (fun row => malformed_row ["Path"; "Tags"] row = false)
         (tl (export_rows b'))
  /\ List.length (export_rows b') = S (List.length (tag_cache b'))
  /\ (forall relative tags,
         In (relative, tags) (tag_cache b') ->
         In [relative; join ", " tags] (export_rows b')
         /\ strip_pieces (join ", " tags) = tags)
  /\ (forall row, In row (tl (export_rows b')) ->
                  exists relative tags,
                    In (relative, tags) (tag_cache b')
                    /\ row = [relative; join ", " tags]).
Proof.
  intros b'. unfold export_rows. cbn [tl].
  split; [|split; [|split]].
  - apply Forall_forall. intros row Hin. apply in_map_iff in Hin.
    destruct Hin as (e & <- & _). reflexivity.
  - cbn [List.length]. rewrite length_map. reflexivity.
  - intros relative tags Hin. split.
    + right. apply in_map_iff. exists (relative, tags). auto.
    + apply strip_pieces_join. apply Forall_forall. intros x Hx.
      subst b'. unfold load_all_tags in Hin. cbn [tag_cache] in Hin.
      apply scan_fold_In in Hin.
      destruct Hin as [[]|(p & _ & _ & -> & _)].
      pose proof (load_tags_clean t (p ++ ["tag.txt"])) as C.
      rewrite Forall_forall in C. apply C, Hx.
  - intros row Hin. apply in_map_iff in Hin.
    destruct Hin as ([relative tags] & <- & Hin). exists relative, tags. auto.
Qed.

Lemma import_touches_tag_files_only_witness :
  let t := [("__p", Dir [("maps", Dir [("notes.txt", File "keep")])])] in
  let o := import_tags true
             (Some [["Path"; "Tags"]; ["__p/maps"; "sea"]; ["__p"]])
             t (init t) in
  o = Raised AttributeError (outcome_tree o) (outcome_browser o)
  /\ file_at (outcome_tree o) ["__p"; "maps"; "tag.txt"] = Some "sea"
  /\ file_at (outcome_tree o) ["__p"; "maps"; "notes.txt"] = Some "keep"
  /\ walk (outcome_tree o) = walk t.
Proof.
  intros t o.
  destruct (import_touches_tag_files_only
              true (Some [["Path"; "Tags"]; ["__p/maps"; "sea"]; ["__p"]])
              t (init t)) as (_ & Hw & _ & Hf & _).
  { intros rows E. injection E as <-. reflexivity. }
  fold o in Hw, Hf.
  split; [reflexivity|]. split; [reflexivity|].
  split; [|exact Hw].
  rewrite (Hf ["__p"; "maps"; "notes.txt"] eq_refl). reflexivity.
Defined.

Lemma export_rows_parse_back_witness :
  let t := [("__p", Dir [("maps", Dir [("tag.txt", File "sea ,air")])])] in
  In ["__p/maps"; "sea, air"] (export_rows (load_all_tags t empty_browser))
  /\ strip_pieces (join ", " ["sea"; "air"]) = ["sea"; "air"].
Proof.
  intros t.
  destruct (export_rows_parse_back t empty_browser) as (_ & _ & H & _).
  apply (H "__p/maps" ["sea"; "air"]). left; reflexivity.
Defined.

(** ** Lower case and stripping *)

Lemma isspace_lower_char (c : ascii) : isspace (lower_char c) = isspace c.
Proof.
  destruct c as [[] [] [] [] [] [] [] []]; vm_compute; reflexivity.
Qed.

Lemma lower_truthy (s : string) : truthy (lower s) = truthy s.
Proof. destruct s; reflexivity. Qed.

Lemma lstrip_lower (s : string) : lstrip (lower s) = lower (lstrip s).
Proof.
  induction s as [|c s IH]; [reflexivity|].
  simpl. rewrite isspace_lower_char.
  destruct (isspace c); [exact IH|reflexivity].
Qed.

Lemma rstrip_lower (s : string) : rstrip (lower s) = lower (rstrip s).
Proof.
  induction s as [|c s IH]; [reflexivity|].
  simpl. rewrite IH, isspace_lower_char.
  destruct (rstrip s) as [|d r]; simpl; [|reflexivity].
  destruct (isspace c); reflexivity.
Qed.

(** [text.lower().strip()] and [text.strip().lower()] are the same. *)
Lemma strip_lower (s : string) : strip (lower s) = lower (strip s).
Proof. unfold strip. rewrite lstrip_lower, rstrip_lower. reflexivity. Qed.

Lemma lower_app (a c : string) :
  lower (a ++ c)%string = (lower a ++ lower c)%string.
Proof.
  induction a as [|x a IH]; [reflexivity|]. simpl. rewrite IH. reflexivity.
Qed.

Lemma append_assoc (a c d : string) :
  ((a ++ c) ++ d)%string = (a ++ (c ++ d))%string.
Proof.
  induction a as [|x a IH]; [reflexivity|]. simpl. rewrite IH. reflexivity.
Qed.

Lemma occurs_in_app (q a c d : string) :
  occurs_in q c -> occurs_in q (a ++ c ++ d)%string.
Proof.
  intros (pre & post & ->). exists (a ++ pre)%string, (post ++ d)%string.
  rewrite !append_assoc. reflexivity.
Qed.

Lemma contains_empty (s : string) : contains EmptyString s = true.
Proof. destruct s; reflexivity. Qed.

Lemma filter_all {A : Type} (f : A -> bool) (l : list A) :
  (forall x, In x l -> f x = true) -> filter f l = l.
Proof.
  induction l as [|x l IH]; intros H; [reflexivity|].
  simpl. rewrite (H x (or_introl eq_refl)).
  rewrite IH; [reflexivity|]. intros y Hy. apply H. right. exact Hy.
Qed.

(** ** Per-column filters *)

(** X8.  The publisher filter shows exactly the publishers whose
    lower-cased name contains the stripped, lower-cased text; a blank
    text shows the full list; the filter never
    changes the full lists or the cache, so a filter applied after another
    one is the filter of the last text alone (filters do not add up). *)
Theorem filter_publishers_spec (b : browser) (text : string) :
  let b' := filter_publishers b text in
  (forall p, In p (publisher_list b')
             <-> In p (all_publishers b)
                 /\ occurs_in (lower (strip text)) (lower p))
  /\ (whitespace_only text = true -> publisher_list b' = all_publishers b)
  /\ all_publishers b' = all_publishers b
  /\ tag_cache b' = tag_cache b
  /\ (forall text2, filter_publishers b' text2
                    = filter_publishers b text2).
Proof.
  intros b'. subst b'. unfold filter_publishers.
  cbn [publisher_list all_publishers tag_cache all_topics all_chapters
       all_tags topic_list chapter_list tag_list].
  split; [|split; [|split; [reflexivity|split; [reflexivity|reflexivity]]]].
  - intros p. rewrite filter_In, contains_iff, strip_lower. tauto.
  - intros H. apply filter_all. intros p _.
    rewrite strip_lower, (strip_whitespace_only _ H). apply contains_empty.
Qed.

Lemma filter_publishers_spec_witness :
  let b := init [("__North", Dir []); ("#_south", Dir []); ("zzz", Dir [])] in
  publisher_list (filter_publishers b " NOR ") = ["__North"]
  /\ publisher_list (filter_publishers b "   ") = ["#_south"; "__North"].
Proof.
  intros b.
  destruct (filter_publishers_spec b "   ") as (_ & H & _).
  split; [reflexivity|]. rewrite (H eq_refl). reflexivity.
Defined.

(** X9.  For a text that is not blank, global search shows the same
    publishers as the publisher filter and the same tags as the tag
    filter: the two code paths normalise the text in a different order
    (strip then lower, lower then strip) with the same result. *)
Theorem global_search_agrees_with_filters
    (t : tree) (b : browser) (text : string) :
  whitespace_only text = false ->
  publisher_list (global_search t b text)
  = publisher_list (filter_publishers b text)
  /\ tag_list (global_search t b text) = tag_list (filter_tags b text).
Proof.
  intros H. unfold global_search, filter_publishers, filter_tags.
  assert (Hq : truthy (lower (strip text)) = true).
  { rewrite lower_truthy. clear -H. unfold strip.
    induction text as [|c s IH]; [discriminate|].
    simpl in *. destruct (isspace c) eqn:E.
    - apply IH. exact H.
    - simpl. destruct (rstrip s); [rewrite E|]; reflexivity. }
  rewrite Hq. cbn [negb].
  destruct (fold_left (search_step (lower (strip text))) (tag_cache b) ([], [])).
  cbn [publisher_list tag_list]. rewrite strip_lower. split; reflexivity.
Qed.

Lemma global_search_agrees_with_filters_witness :
  let t := [("__North", Dir [("maps", Dir [("tag.txt", File "Sea, nor")])])] in
  publisher_list (global_search t (init t) " NOR ") = ["__North"]
  /\ tag_list (global_search t (init t) " NOR ") = ["nor"].
Proof.
  intros t.
  destruct (global_search_agrees_with_filters t (init t) " NOR " eq_refl)
    as [H1 H2].
  rewrite H1, H2. split; reflexivity.
Defined.

Lemma occurs_in_prepend (q a c : string) :
  occurs_in q c -> occurs_in q (a ++ c)%string.
Proof.
  intros (pre & post & ->). exists (a ++ pre)%string, post.
  rewrite append_assoc. reflexivity.
Qed.

(** X10.  The topic and the chapter filter match on the text an item
    shows (its name), leave the full lists alone and show the full list
    for a blank text. *)
Theorem filter_topics_chapters_spec (b : browser) (text : string) :
  let q := lower (strip text) in
  (forall name rel,
      In (name, rel) (topic_list (filter_topics b text))
      <-> In (name, rel) (all_topics b) /\ occurs_in q (lower name))
  /\ (forall name rel,
         In (name, rel) (chapter_list (filter_chapters b text))
         <-> In (name, rel) (all_chapters b) /\ occurs_in q (lower name))
  /\ (whitespace_only text = true ->
      topic_list (filter_topics b text) = all_topics b
      /\ chapter_list (filter_chapters b text) = all_chapters b)
  /\ all_topics (filter_topics b text) = all_topics b
  /\ chapter_list (filter_topics b text) = chapter_list b
  /\ all_chapters (filter_chapters b text) = all_chapters b
  /\ topic_list (filter_chapters b text) = topic_list b.
Proof.
  intros q. subst q. unfold filter_topics, filter_chapters.
  cbn [topic_list chapter_list all_topics all_chapters].
  split; [|split; [|split; [|repeat split]]].
  - intros name rel. rewrite filter_In, contains_iff, strip_lower.
    cbn [fst]. tauto.
  - intros name rel. rewrite filter_In, contains_iff, strip_lower.
    cbn [fst]. tauto.
  - intros H. split; apply filter_all; intros x _;
      rewrite strip_lower, (strip_whitespace_only _ H); apply contains_empty.
Qed.

Lemma filter_topics_chapters_spec_witness :
  let t := [("__p", Dir [("Maps", Dir []); ("art", Dir [])])] in
  exists b1,
    load_topics t (init t) "__p" = Ok b1
    /\ topic_list (filter_topics b1 "  ") = [("Maps", "__p/Maps"); ("art", "__p/art")]
    /\ In ("Maps", "__p/Maps") (topic_list (filter_topics b1 "AP")).
Proof.
  intros t. eexists. split; [reflexivity|].
  match goal with
  | |- topic_list (filter_topics ?b _) = _ /\ _ =>
      destruct (filter_topics_chapters_spec b "  ") as (_ & _ & H & _);
      destruct (filter_topics_chapters_spec b "AP") as (H1 & _)
  end.
  split.
  - rewrite (proj1 (H eq_refl)). reflexivity.
  - apply (proj2 (H1 "Maps" "__p/Maps")). split; [left; reflexivity|].
    exists "m", "s". reflexivity.
Defined.

(** X11.  A chapter item shows the chapter name followed by the topic
    name in parentheses, and the chapter filter matches on that text: so
    after [load_chapters], any text that occurs in the topic name keeps
    every chapter of the topic in the list. *)
Theorem chapter_filter_matches_topic_name
    (t : tree) (b b1 : browser) (topic_relative text : string) :
  load_chapters t b topic_relative = Ok b1 ->
  occurs_in (lower (strip text))
            (lower (last_item (split sep topic_relative))) ->
  chapter_list (filter_chapters b1 text) = chapter_list b1
  /\ chapter_list b1 = all_chapters b1.
Proof.
  unfold load_chapters. intros H Hq.
  destruct (listdir_under t topic_relative) as [[topic_path names]|e];
    cbn [bind] in H; [|discriminate].
  injection H as <-. unfold filter_chapters.
  cbn [chapter_list all_chapters]. split; [|reflexivity].
  apply filter_all. intros [name rel] Hin.
  apply in_map_iff in Hin. destruct Hin as (chapter & E & _).
  injection E as <- _. cbn [fst].
  rewrite strip_lower. apply contains_iff.
  rewrite lower_app. apply occurs_in_prepend.
  change (" (" ++ last_item (split sep topic_relative) ++ ")")%string
    with (String " " (String "(" (last_item (split sep topic_relative) ++ ")")))%string.
  cbn [lower]. rewrite lower_app.
  apply (occurs_in_app _ (String (lower_char " ") (String (lower_char "(") EmptyString))
                       _ (lower ")") Hq).
Qed.

Lemma chapter_filter_matches_topic_name_witness :
  let t := [("__p", Dir [("Maps", Dir [("one", Dir []); ("two", Dir [])])])] in
  exists b1,
    load_chapters t (init t) "__p/Maps" = Ok b1
    /\ chapter_list (filter_chapters b1 "map")
       = [("one (Maps)", "__p/Maps/one"); ("two (Maps)", "__p/Maps/two")].
Proof.
  intros t. eexists. split; [reflexivity|].
  match goal with
  | |- chapter_list (filter_chapters ?b _) = _ =>
      assert (H : load_chapters t (init t) "__p/Maps" = Ok b) by reflexivity
  end.
  rewrite (proj1 (chapter_filter_matches_topic_name
                    t (init t) _ "__p/Maps" "map" H
                    (ex_intro _ EmptyString (ex_intro _ "s" eq_refl)))).
  reflexivity.
Defined.

(** ** Filtering by a clicked tag *)

Lemma tag_hit_iff (t : tree) (clicked : string) (p : path) :
  tag_hit t clicked p = true
  <-> exists tag, In tag (load_tags t (p ++ ["tag.txt"]))
                  /\ lower tag = clicked.
Proof.
  unfold tag_hit. rewrite mem_iff, in_map_iff.
  split; intros (tag & H1 & H2); exists tag; auto.
Qed.

Lemma load_tags_missing_file_aux (t : tree) (p : path) :
  isfile t p = false -> load_tags t p = [].
Proof.
  unfold isfile, load_tags.
  destruct (resolve t p) as [[text|es]|]; intros H;
    [discriminate|reflexivity|reflexivity].
Qed.

Lemma tag_hit_isfile (t : tree) (clicked : string) (p : path) :
  isfile t (p ++ ["tag.txt"]) = false -> tag_hit t clicked p = false.
Proof.
  intros H. unfold tag_hit. rewrite (load_tags_missing_file_aux t _ H).
  reflexivity.
Qed.

(** One turn of the loop on a directory with POSIX entry names. *)
Lemma tag_step_wf (t : tree) (clicked : string) (p : path)
    (acc : list (string * string) * list (string * string)) :
  Forall (fun n => wf_name n = true) p ->
  tag_step t clicked acc p
  = (fst acc
     ++ (if tag_hit t clicked p && Nat.eqb (List.length p) 2
         then [((item 1 p ++ " (" ++ item 0 p ++ ")")%string, relpath p)]
         else []),
     snd acc
     ++ (if tag_hit t clicked p && Nat.eqb (List.length p) 3
         then [(("(" ++ item 0 p ++ ") (" ++ item 1 p ++ ") "
                 ++ item 2 p)%string, relpath p)]
         else [])).
Proof.
  intros W. destruct acc as [tops chaps]. unfold tag_step. cbn [fst snd].
  destruct (isfile t (p ++ ["tag.txt"])) eqn:F.
  2:{ rewrite (tag_hit_isfile t clicked p F). cbn [andb].
      rewrite !app_nil_r. reflexivity. }
  fold (tag_hit t clicked p).
  destruct (tag_hit t clicked p); cbn [andb];
    [|rewrite !app_nil_r; reflexivity].
  destruct p as [|a [|c [|d [|e r]]]].
  - cbn. rewrite !app_nil_r. reflexivity.
  - rewrite (split_relpath [a] ltac:(discriminate) W).
    cbn. rewrite !app_nil_r. reflexivity.
  - rewrite (split_relpath [a; c] ltac:(discriminate) W).
    cbn [List.length Nat.eqb]. rewrite app_nil_r. reflexivity.
  - rewrite (split_relpath [a; c; d] ltac:(discriminate) W).
    cbn [List.length Nat.eqb]. rewrite app_nil_r. reflexivity.
  - rewrite (split_relpath (a :: c :: d :: e :: r) ltac:(discriminate) W).
    cbn [List.length Nat.eqb]. rewrite !app_nil_r. reflexivity.
Qed.

Lemma tag_fold_wf (t : tree) (clicked : string) (l : list path) :
  Forall (Forall (fun n => wf_name n = true)) l ->
  forall acc,
    fold_left (tag_step t clicked) l acc
    = (fst acc
       ++ flat_map
            (fun p =>
               if tag_hit t clicked p && Nat.eqb (List.length p) 2
               then [((item 1 p ++ " (" ++ item 0 p ++ ")")%string, relpath p)]
               else []) l,
       snd acc
       ++ flat_map
            (fun p =>
               if tag_hit t clicked p && Nat.eqb (List.length p) 3
               then [(("(" ++ item 0 p ++ ") (" ++ item 1 p ++ ") "
                       ++ item 2 p)%string, relpath p)]
               else []) l).
Proof.
  induction 1 as [|p l Wp Wl IH]; intros acc.
  - simpl. rewrite !app_nil_r. destruct acc; reflexivity.
  - cbn [fold_left flat_map]. rewrite IH, (tag_step_wf t clicked p acc Wp).
    cbn [fst snd]. rewrite <- !app_assoc. reflexivity.
Qed.

(** X12.  On a tree with POSIX entry names, clicking a tag shows as
    topics exactly the directories two levels below the root, and as
    chapters exactly those three levels below it, whose tag file holds the
    clicked tag in some upper or lower case spelling; a topic is shown as
    "topic (publisher)", a chapter as "(publisher) (topic) chapter".  The
    cache and the publisher and tag lists stay as they are. *)
Theorem filter_by_tag_spec (t : tree) (b : browser) (tag_text : string) :
  wf_tree t = true ->
  let clicked := lower (strip tag_text) in
  let b' := filter_by_tag t b tag_text in
  (forall name rel,
      In (name, rel) (topic_list b')
      <-> exists pub topic,
            isdir t [pub; topic] = true
            /\ (exists tag, In tag (load_tags t [pub; topic; "tag.txt"])
                            /\ lower tag = clicked)
            /\ name = (topic ++ " (" ++ pub ++ ")")%string
            /\ rel = (pub ++ "/" ++ topic)%string)
  /\ (forall name rel,
         In (name, rel) (chapter_list b')
         <-> exists pub topic chapter,
               isdir t [pub; topic; chapter] = true
               /\ (exists tag,
                      In tag (load_tags t [pub; topic; chapter; "tag.txt"])
                      /\ lower tag = clicked)
               /\ name = ("(" ++ pub ++ ") (" ++ topic ++ ") " ++ chapter)%string
               /\ rel = (pub ++ "/" ++ topic ++ "/" ++ chapter)%string)
  /\ tag_cache b' = tag_cache b
  /\ publisher_list b' = publisher_list b
  /\ tag_list b' = tag_list b.
Proof.
  intros W clicked b'. subst b'. unfold filter_by_tag. fold clicked.
  rewrite (tag_fold_wf t clicked (walk t)).
  2:{ apply Forall_forall. intros p Hp. apply (walk_names p t W Hp). }
  cbn [fst snd app topic_list chapter_list tag_cache publisher_list tag_list].
  split; [|split; [|repeat split]].
  - intros name rel. rewrite in_flat_map. split.
    + intros (p & Hp & Hin).
      destruct (tag_hit t clicked p) eqn:Hh; cbn [andb] in Hin; [|destruct Hin].
      destruct p as [|pub [|topic [|x r]]]; cbn in Hin; try contradiction.
      destruct Hin as [E|[]]. injection E as <- <-.
      exists pub, topic. split; [apply (walk_isdir _ t W), Hp|].
      split; [apply (tag_hit_iff t clicked [pub; topic]), Hh|].
      split; reflexivity.
    + intros (pub & topic & Hd & Hh & -> & ->).
      exists [pub; topic]. split; [apply (walk_isdir _ t W), Hd|].
      rewrite (proj2 (tag_hit_iff t clicked [pub; topic]) Hh).
      left. reflexivity.
  - intros name rel. rewrite in_flat_map. split.
    + intros (p & Hp & Hin).
      destruct (tag_hit t clicked p) eqn:Hh; cbn [andb] in Hin; [|destruct Hin].
      destruct p as [|pub [|topic [|chapter [|x r]]]]; cbn in Hin;
        try contradiction.
      destruct Hin as [E|[]]. injection E as <- <-.
      exists pub, topic, chapter. split; [apply (walk_isdir _ t W), Hp|].
      split; [apply (tag_hit_iff t clicked [pub; topic; chapter]), Hh|].
      split; reflexivity.
    + intros (pub & topic & chapter & Hd & Hh & -> & ->).
      exists [pub; topic; chapter]. split; [apply (walk_isdir _ t W), Hd|].
      rewrite (proj2 (tag_hit_iff t clicked [pub; topic; chapter]) Hh).
      left. reflexivity.
Qed.

Lemma filter_by_tag_spec_witness :
  let t := [("__p", Dir [("maps", Dir [("tag.txt", File "SEA, air");
                                       ("old", Dir [("tag.txt", File "Sea")])]);
                         ("art", Dir [("tag.txt", File "seal")])])] in
  In ("maps (__p)", "__p/maps") (topic_list (filter_by_tag t (init t) " sea"))
  /\ In ("(__p) (maps) old", "__p/maps/old")
        (chapter_list (filter_by_tag t (init t) " sea"))
  /\ ~ In ("art (__p)", "__p/art") (topic_list (filter_by_tag t (init t) " sea")).
Proof.
  intros t.
  destruct (filter_by_tag_spec t (init t) " sea" eq_refl) as (Ht & Hc & _).
  split; [|split].
  - apply (proj2 (Ht "maps (__p)" "__p/maps")).
    exists "__p", "maps". split; [reflexivity|].
    split; [exists "SEA"; split; [left|]; reflexivity|split; reflexivity].
  - apply (proj2 (Hc "(__p) (maps) old" "__p/maps/old")).
    exists "__p", "maps", "old". split; [reflexivity|].
    split; [exists "Sea"; split; [left|]; reflexivity|split; reflexivity].
  - intros H. vm_compute in H. destruct H as [H|[]]. discriminate H.
Defined.

(** ** The tag editor *)

(** X13.  The text the tag editor shows parses back to the loaded tags.
    When the folder exists, accepting any text saves: every other file and
    all folders stay as they are, and the tags read back are the sorted,
    deduplicated tags of the text (the text having no carriage return).
    Accepting the text as shown keeps the tags of the folder, stored
    sorted and without duplicates. *)
Theorem tag_editor_round_trip (t : tree) (folder : path) :
  isdir t folder = true ->
  isdir t (folder ++ ["tag.txt"]) = false ->
  let tag_file := folder ++ ["tag.txt"] in
  strip_pieces (initial_text t tag_file) = load_tags t tag_file
  /\ (forall text,
         exists t',
           accept t tag_file text = Ok t'
           /\ (forall q, isdir t' q = isdir t q)
           /\ (forall q, q <> tag_file -> file_at t' q = file_at t q)
           /\ (has_char CR text = false ->
               load_tags t' tag_file = sorted (set (strip_pieces text))))
  /\ (exists t',
         accept t tag_file (initial_text t tag_file) = Ok t'
         /\ load_tags t' tag_file = sorted (set (load_tags t tag_file))).
Proof.
  intros D F tag_file.
  assert (Hparse : strip_pieces (initial_text t tag_file) = load_tags t tag_file).
  { apply strip_pieces_join, load_tags_clean. }
  split; [exact Hparse|]. split.
  - intros text.
    destruct (write_text_succeeds folder "tag.txt"
                (join ", " (sorted (set (strip_pieces text)))) t D F)
      as [t' W].
    exists t'. split; [exact W|].
    split; [apply (isdir_write _ _ _ _ W)|]. split.
    + intros q Hq. rewrite (file_at_write _ _ _ _ W q).
      destruct (list_eq_dec string_dec q (folder ++ ["tag.txt"]));
        [contradiction|reflexivity].
    + intros Hcr. apply (load_after_save_clean t t' tag_file _); [|exact W].
      pose proof (strip_pieces_clean text) as C.
      pose proof (strip_pieces_no_char CR text Hcr) as N.
      rewrite Forall_forall in *. intros x Hx.
      split; [apply C|apply N]; exact Hx.
  - destruct (write_text_succeeds folder "tag.txt"
                (join ", " (sorted (set (load_tags t tag_file)))) t D F)
      as [t' W].
    exists t'. unfold accept. rewrite Hparse. split; [exact W|].
    apply (load_after_save_clean t t' tag_file _); [|exact W].
    apply load_tags_clean_no_CR.
Qed.

Lemma tag_editor_round_trip_witness :
  let t := [("__p", Dir [("tag.txt", File "sea,air ,sea")])] in
  initial_text t ["__p"; "tag.txt"] = "sea, air, sea"
  /\ exists t',
       accept t ["__p"; "tag.txt"] (initial_text t ["__p"; "tag.txt"]) = Ok t'
       /\ load_tags t' ["__p"; "tag.txt"] = ["air"; "sea"].
Proof.
  intros t. split; [reflexivity|].
  destruct (tag_editor_round_trip t ["__p"] eq_refl eq_refl)
    as (_ & _ & t' & H1 & H2).
  exists t'. split; [exact H1|exact H2].
Defined.

(** ** Publishers, topics and chapters *)

Lemma prefix_longer (a c s : string) :
  String.prefix (a ++ c)%string s = true -> String.prefix a s = true.
Proof.
  rewrite !prefix_iff. intros (post & ->). exists (c ++ post)%string.
  apply append_assoc.
Qed.

Lemma startswith_prefixes (name : string) :
  startswith prefixes name
  = String.prefix "$_" name || String.prefix "#_" name
    || String.prefix "__" name.
Proof.
  unfold startswith, prefixes. cbn [existsb].
  destruct (String.prefix "$__" name) eqn:E1.
  - rewrite (prefix_longer "$_" "_" name E1). reflexivity.
  - destruct (String.prefix "#__" name) eqn:E2.
    + rewrite (prefix_longer "#_" "_" name E2).
      destruct (String.prefix "$_" name); reflexivity.
    + destruct (String.prefix "$_" name), (String.prefix "#_" name),
        (String.prefix "__" name); reflexivity.
Qed.

(** X14.  [load_publishers] lists exactly the directories at the top
    level whose name starts with "$_", "#_" or "__" (the two longer
    prefixes of the code add nothing); on a tree with POSIX entry names
    the list is strictly ascending; the widget shows the full list, and
    the cache and the topic and chapter lists are left alone. *)
Theorem load_publishers_spec (t : tree) (b : browser) :
  wf_tree t = true ->
  let b' := load_publishers t b in
  (forall p, In p (all_publishers b')
             <-> isdir t [p] = true
                 /\ (String.prefix "$_" p = true
                     \/ String.prefix "#_" p = true
                     \/ String.prefix "__" p = true))
  /\ StronglySorted (fun x y => String.ltb x y = true) (all_publishers b')
  /\ publisher_list b' = all_publishers b'
  /\ tag_cache b' = tag_cache b
  /\ topic_list b' = topic_list b
  /\ chapter_list b' = chapter_list b.
Proof.
  intros W b'. subst b'. unfold load_publishers.
  cbn [all_publishers publisher_list tag_cache topic_list chapter_list].
  split; [|split; [|repeat split]].
  - intros p. rewrite sorted_In, filter_In, andb_true_iff.
    rewrite startswith_prefixes, !orb_true_iff. split.
    + intros (_ & D & H). split; [exact D|tauto].
    + intros (D & H). split; [|split; [exact D|tauto]].
      destruct (isdir_name t p D) as [es L].
      apply in_map_iff. exists (p, Dir es). split; [reflexivity|].
      apply lookup_In, L.
  - apply strongly_sorted_strict; [apply sorted_sorted|].
    eapply Permutation_NoDup; [apply sorted_perm|].
    apply NoDup_filter, wf_tree_nodup, W.
Qed.

Lemma load_publishers_spec_witness :
  let t := [("$__b", Dir []); ("#_a", Dir []); ("__c.txt", File "x");
            ("plain", Dir [])] in
  all_publishers (load_publishers t empty_browser) = ["#_a"; "$__b"]
  /\ (In "$__b" (all_publishers (load_publishers t empty_browser))
      <-> isdir t ["$__b"] = true
          /\ (String.prefix "$_" "$__b" = true
              \/ String.prefix "#_" "$__b" = true
              \/ String.prefix "__" "$__b" = true)).
Proof.
  intros t.
  destruct (load_publishers_spec t empty_browser eq_refl) as (H & _).
  split; [reflexivity|apply H].
Defined.

Lemma resolve_snoc (p : path) (x : string) :
  forall t : tree,
    resolve t (p ++ [x])
    = match resolve t p with
      | Some (Dir es) => lookup x es
      | _ => None
      end.
Proof.
  induction p as [|n p IH]; intros t.
  - simpl. destruct (lookup x t) as [[text|es]|]; reflexivity.
  - change ((n :: p) ++ [x]) with (n :: (p ++ [x])).
    rewrite !resolve_cons.
    destruct (lookup n t) as [[text|es]|]; [| apply IH |reflexivity].
    destruct p; reflexivity.
Qed.

Lemma subdirs_iff (t : tree) (p : path) (x : string) :
  In x (subdirs t p) <-> isdir t (p ++ [x]) = true.
Proof.
  unfold subdirs. split.
  - destruct (resolve t p) as [[text|es]|]; try contradiction.
    intros H. apply filter_In in H. apply H.
  - intros H. unfold isdir in H. rewrite resolve_snoc in H.
    destruct (resolve t p) as [[text|es]|] eqn:R; try discriminate.
    apply filter_In. split.
    + destruct (lookup x es) as [c|] eqn:L; [|discriminate].
      apply in_map_iff. exists (x, c). split; [reflexivity|apply lookup_In, L].
    + unfold isdir. rewrite resolve_snoc, R. exact H.
Qed.

Lemma wf_resolve (p : path) :
  forall (t es : tree),
    wf_tree t = true -> resolve t p = Some (Dir es) -> wf_tree es = true.
Proof.
  induction p as [|n p IH]; intros t es W R.
  - injection R as <-. exact W.
  - rewrite resolve_cons in R.
    destruct (lookup n t) as [[text|es']|] eqn:L; [| |discriminate].
    + destruct p; discriminate.
    + apply (IH es' es); [|exact R].
      apply (wf_tree_entry t n (Dir es') W (lookup_In _ _ _ L)).
Qed.

Lemma subdirs_wf (t : tree) (p : path) :
  wf_tree t = true ->
  NoDup (subdirs t p)
  /\ forall x, In x (subdirs t p) -> wf_name x = true.
Proof.
  intros W. unfold subdirs.
  destruct (resolve t p) as [[text|es]|] eqn:R;
    try (split; [constructor|intros x []]).
  pose proof (wf_resolve p t es W R) as Wes. split.
  - apply NoDup_filter, wf_tree_nodup, Wes.
  - intros x Hx. apply filter_In in Hx. destruct Hx as [Hx _].
    apply in_map_iff in Hx. destruct Hx as ([n c] & <- & Hin).
    apply (wf_tree_entry es n c Wes Hin).
Qed.

Lemma prefix_sep_wf (n : string) :
  wf_name n = true -> String.prefix "/" n = false.
Proof.
  intros W. apply wf_name_iff in W. destruct W as (_ & Hsep & _).
  destruct (String.prefix "/" n) eqn:P; [|reflexivity].
  apply prefix_iff in P. destruct P as [post ->]. discriminate Hsep.
Qed.

Lemma ends_with_sep_app (a c : string) :
  c <> EmptyString -> ends_with_sep (a ++ c)%string = ends_with_sep c.
Proof.
  intros Hc. induction a as [|x a IH]; [reflexivity|].
  simpl. rewrite IH.
  destruct (a ++ c)%string eqn:E; [|reflexivity].
  destruct a; [simpl in E; contradiction|discriminate].
Qed.

Lemma ends_with_sep_no_sep (a : string) :
  has_char sep a = false -> ends_with_sep a = false.
Proof.
  induction a as [|x a IH]; [reflexivity|].
  simpl. intros H. apply orb_false_iff in H. destruct H as [Hx Ha].
  destruct a; [exact Hx|apply IH, Ha].
Qed.

Lemma path_join_names (a c : string) :
  truthy a = true -> ends_with_sep a = false ->
  String.prefix "/" c = false ->
  path_join a c = (a ++ "/" ++ c)%string.
Proof.
  intros Ha Hs Hc. unfold path_join. rewrite Hc, Ha, Hs. reflexivity.
Qed.

Lemma listdir_under_dir (t : tree) (p : path) :
  Forall (fun n => wf_name n = true) p ->
  isdir t p = true ->
  exists es, resolve t p = Some (Dir es)
             /\ listdir_under t (relpath p) = Ok (p, map fst es).
Proof.
  intros W D. unfold isdir in D.
  destruct (resolve t p) as [[text|es]|] eqn:R; try discriminate.
  exists es. split; [reflexivity|].
  unfold listdir_under, listdir. rewrite (under_root_relpath p W).
  cbn [bind]. rewrite R. reflexivity.
Qed.

Lemma relpath_truthy_no_end_sep (p : path) (n : string) :
  Forall (fun x => wf_name x = true) (p ++ [n]) ->
  truthy (relpath (p ++ [n])) = true
  /\ ends_with_sep (relpath (p ++ [n])) = false.
Proof.
  intros W.
  assert (Wn : wf_name n = true).
  { rewrite Forall_forall in W. apply W, in_or_app. right. left. reflexivity. }
  apply wf_name_iff in Wn. destruct Wn as (Hne & Hsep & _).
  induction p as [|a p IH].
  - simpl. split; [apply truthy_true_iff, Hne|apply ends_with_sep_no_sep, Hsep].
  - inversion W as [|? ? Wa Wp]; subst. specialize (IH Wp).
    destruct IH as [IH1 IH2].
    change (relpath ((a :: p) ++ [n]))
      with (join "/" (a :: (p ++ [n]))).
    destruct (p ++ [n]) as [|y l] eqn:E; [destruct p; discriminate|].
    change (join "/" (a :: y :: l)) with (a ++ "/" ++ relpath (y :: l))%string.
    apply wf_name_iff in Wa. destruct Wa as (Ha & _).
    split.
    + destruct a; [contradiction|reflexivity].
    + rewrite ends_with_sep_app.
      * change ("/" ++ relpath (y :: l))%string
          with (String "/" (relpath (y :: l))).
        destruct (relpath (y :: l)) eqn:Er; [discriminate IH1|].
        simpl. simpl in IH2. exact IH2.
      * discriminate.
Qed.

(** X15.  On a tree with POSIX entry names, clicking a publisher folder
    shows its sub-directories sorted by name, each with the relative path
    "publisher/topic", and empties the chapter list; clicking any topic
    shown then never fails: it lists the sub-directories of the topic,
    sorted, as "chapter (topic)" with the path "publisher/topic/chapter",
    and leaves the topic list as it is. *)
Theorem load_topics_then_chapters (t : tree) (b : browser) (pub : string) :
  wf_tree t = true ->
  wf_name pub = true ->
  isdir t [pub] = true ->
  exists b1,
    load_topics t b pub = Ok b1
    /\ topic_list b1
       = map (fun topic => (topic, (pub ++ "/" ++ topic)%string))
             (sorted (subdirs t [pub]))
    /\ all_topics b1 = topic_list b1
    /\ chapter_list b1 = []
    /\ (forall topic, In topic (subdirs t [pub])
                      <-> isdir t [pub; topic] = true)
    /\ forall topic rel,
         In (topic, rel) (topic_list b1) ->
         exists b2,
           load_chapters t b1 rel = Ok b2
           /\ chapter_list b2
              = map (fun chapter =>
                       ((chapter ++ " (" ++ topic ++ ")")%string,
                        (rel ++ "/" ++ chapter)%string))
                    (sorted (subdirs t [pub; topic]))
           /\ all_chapters b2 = chapter_list b2
           /\ topic_list b2 = topic_list b1.
Proof.
  intros W Wp D.
  assert (Wl : Forall (fun n => wf_name n = true) [pub])
    by (constructor; [exact Wp|constructor]).
  destruct (listdir_under_dir t [pub] Wl D) as (es & R & LU).
  change (relpath [pub]) with pub in LU.
  assert (Hsub : filter (fun topic => isdir t ([pub] ++ [topic])) (map fst es)
                 = subdirs t [pub]).
  { unfold subdirs. rewrite R. reflexivity. }
  destruct (subdirs_wf t [pub] W) as [_ Hwf].
  assert (Hitems :
            map (fun topic => (topic, path_join pub topic))
                (sorted (subdirs t [pub]))
            = map (fun topic => (topic, (pub ++ "/" ++ topic)%string))
                  (sorted (subdirs t [pub]))).
  { apply map_ext_in. intros topic Hin.
    apply (proj1 (sorted_In _ _)) in Hin. f_equal.
    apply wf_name_iff in Wp.
    apply path_join_names.
    - apply truthy_true_iff. tauto.
    - apply ends_with_sep_no_sep. tauto.
    - apply prefix_sep_wf, Hwf, Hin. }
  eexists. unfold load_topics. rewrite LU. cbn [bind]. rewrite Hsub, Hitems.
  split; [reflexivity|].
  cbn [topic_list all_topics chapter_list].
  split; [reflexivity|]. split; [reflexivity|]. split; [reflexivity|].
  split; [intros topic; apply (subdirs_iff t [pub] topic)|].
  intros topic rel Hin. apply in_map_iff in Hin.
  destruct Hin as (topic' & E & Hin). injection E as -> <-.
  apply (proj1 (sorted_In _ _)) in Hin.
  pose proof (Hwf topic Hin) as Wt.
  assert (Dt : isdir t [pub; topic] = true)
    by (apply (subdirs_iff t [pub] topic), Hin).
  assert (Wl2 : Forall (fun n => wf_name n = true) [pub; topic])
    by (repeat constructor; assumption).
  destruct (listdir_under_dir t [pub; topic] Wl2 Dt) as (es2 & R2 & LU2).
  assert (Hsub2 : filter (fun chapter => isdir t ([pub; topic] ++ [chapter]))
                         (map fst es2)
                  = subdirs t [pub; topic]).
  { unfold subdirs. rewrite R2. reflexivity. }
  destruct (subdirs_wf t [pub; topic] W) as [_ Hwf2].
  assert (Hname : last_item (split sep (relpath [pub; topic])) = topic).
  { rewrite (split_relpath [pub; topic] ltac:(discriminate) Wl2). reflexivity. }
  destruct (relpath_truthy_no_end_sep [pub] topic Wl2) as [Htr Hend].
  change ([pub] ++ [topic]) with [pub; topic] in Htr, Hend.
  change (pub ++ String "/" topic)%string with (relpath [pub; topic]).
  eexists. unfold load_chapters. rewrite LU2. cbn [bind].
  rewrite Hsub2, Hname.
  split; [reflexivity|]. cbn [chapter_list all_chapters topic_list].
  split; [|split; reflexivity].
  apply map_ext_in. intros chapter Hc.
  apply (proj1 (sorted_In _ _)) in Hc. f_equal.
  apply path_join_names; [exact Htr|exact Hend|].
  apply prefix_sep_wf, Hwf2, Hc.
Qed.

Lemma load_topics_then_chapters_witness :
  let t := [("__p", Dir [("maps", Dir [("two", Dir []); ("one", Dir []);
                                       ("tag.txt", File "sea")]);
                         ("art", Dir []); ("readme", File "x")])] in
  exists b1 b2,
    load_topics t (init t) "__p" = Ok b1
    /\ topic_list b1 = [("art", "__p/art"); ("maps", "__p/maps")]
    /\ load_chapters t b1 "__p/maps" = Ok b2
    /\ chapter_list b2
       = [("one (maps)", "__p/maps/one"); ("two (maps)", "__p/maps/two")].
Proof.
  intros t.
  destruct (load_topics_then_chapters t (init t) "__p" eq_refl eq_refl eq_refl)
    as (b1 & H1 & H2 & _ & _ & _ & H6).
  assert (Hin : In ("maps", "__p/maps") (topic_list b1)).
  { rewrite H2. right; left; reflexivity. }
  destruct (H6 "maps" "__p/maps" Hin) as (b2 & H7 & H8 & _).
  exists b1, b2. split; [exact H1|]. split; [rewrite H2; reflexivity|].
  split; [exact H7|]. rewrite H8. reflexivity.
Defined.

(** ** The tables of the statistics *)

Lemma count_topics_exact (t : tree) (pubs : list string) :
  forall acc : dict nat,
    (forall pub, In pub pubs -> wf_name pub = true /\ isdir t [pub] = true) ->
    NoDup pubs ->
    (forall pub, In pub pubs -> ~ In pub (keys acc)) ->
    count_topics t pubs acc
    = Ok (acc ++ map (fun pub => (pub, List.length (subdirs t [pub]))) pubs).
Proof.
  induction pubs as [|pub pubs IH]; intros acc Hw Hn Hf.
  - simpl. rewrite app_nil_r. reflexivity.
  - destruct (Hw pub (or_introl eq_refl)) as [W D].
    destruct (listdir_under_name t pub W D) as (es & L & LU).
    inversion Hn as [|? ? Hni Hn']; subst.
    cbn [count_topics]. rewrite LU. cbn [bind].
    rewrite (dict_set_fresh pub _ acc (Hf pub (or_introl eq_refl))).
    assert (Hs : filter (fun x => isdir t ([pub] ++ [x])) (map fst es)
                 = subdirs t [pub]).
    { unfold subdirs. rewrite resolve_cons, L. reflexivity. }
    rewrite Hs, IH.
    + cbn [map]. rewrite <- app_assoc. reflexivity.
    + intros p Hp. apply Hw. right. exact Hp.
    + exact Hn'.
    + intros p Hp Hin. rewrite keys_app in Hin. apply in_app_or in Hin.
      destruct Hin as [Hin|[<-|[]]]; [|contradiction].
      apply (Hf p (or_intror Hp)). exact Hin.
Qed.

Lemma count_chapters_of_fst (t : tree) (pub : string) (names : list string) :
  forall acc : dict nat * nat,
    NoDup names ->
    (forall n, In n names -> ~ In (pub ++ "/" ++ n)%string (keys (fst acc))) ->
    exists total,
      count_chapters_of t pub [pub] names acc
      = Ok (fst acc
            ++ map (fun topic =>
                      ((pub ++ "/" ++ topic)%string,
                       List.length (subdirs t [pub; topic])))
                   (filter (fun x => isdir t ([pub] ++ [x])) names),
            total).
Proof.
  induction names as [|topic names IH]; intros acc Hn Hf.
  - exists (snd acc). simpl. rewrite app_nil_r. destruct acc; reflexivity.
  - inversion Hn as [|? ? Hni Hn']; subst.
    cbn [count_chapters_of filter].
    destruct (isdir t ([pub] ++ [topic])) eqn:D.
    + unfold isdir in D.
      destruct (resolve t ([pub] ++ [topic])) as [[text|es]|] eqn:R;
        try discriminate.
      unfold listdir. rewrite R. cbn [bind].
      assert (Hs : filter (fun c => isdir t (([pub] ++ [topic]) ++ [c]))
                          (map fst es)
                   = subdirs t [pub; topic]).
      { unfold subdirs. change [pub; topic] with ([pub] ++ [topic]).
        rewrite R. reflexivity. }
      rewrite Hs.
      rewrite (dict_set_fresh _ _ _ (Hf topic (or_introl eq_refl))).
      destruct (IH (fst acc ++ [((pub ++ "/" ++ topic)%string,
                                 List.length (subdirs t [pub; topic]))],
                     snd acc + List.length (subdirs t [pub; topic])))
        as [total Ht].
      * exact Hn'.
      * intros m Hm Hin. cbn [fst] in Hin. rewrite keys_app in Hin.
        apply in_app_or in Hin. destruct Hin as [Hin|[E|[]]].
        -- apply (Hf m (or_intror Hm)). exact Hin.
        -- apply append_cancel_l in E. injection E as E.
           subst m. contradiction.
      * exists total. etransitivity; [exact Ht|]. cbn [fst map].
        rewrite <- app_assoc. reflexivity.
    + apply IH; [exact Hn'|]. intros m Hm. apply Hf. right. exact Hm.
Qed.

Lemma count_chapters_fst (t : tree) (items : dict nat) :
  wf_tree t = true ->
  forall acc : dict nat * nat,
    NoDup (keys items) ->
    (forall pub, In pub (keys items) ->
                 wf_name pub = true /\ isdir t [pub] = true) ->
    (forall k, In k (keys (fst acc)) ->
               exists pub' n, ~ In pub' (keys items)
                              /\ has_char sep pub' = false
                              /\ k = (pub' ++ "/" ++ n)%string) ->
    exists total,
      count_chapters t items acc
      = Ok (fst acc ++ flat_map (topic_rows t) (keys items), total).
Proof.
  intros W. induction items as [|[pub cnt] items IH]; intros acc Hn Hw Hk.
  - exists (snd acc). simpl. rewrite app_nil_r. destruct acc; reflexivity.
  - destruct (Hw pub (or_introl eq_refl)) as [Wp D].
    destruct (listdir_under_name t pub Wp D) as (es & L & LU).
    assert (Hsep : has_char sep pub = false).
    { apply wf_name_iff in Wp. tauto. }
    assert (Wes : wf_tree es = true).
    { apply (wf_tree_entry t pub (Dir es) W (lookup_In _ _ _ L)). }
    cbn [count_chapters]. rewrite LU. cbn [bind].
    inversion Hn as [|? ? Hni Hn']; subst.
    destruct (count_chapters_of_fst t pub (map fst es) acc) as [total1 H1].
    + apply wf_tree_nodup, Wes.
    + intros n _ Hin. destruct (Hk _ Hin) as (pub' & n' & Hni' & Hsep' & E).
      destruct (topic_key_inj _ _ _ _ Hsep Hsep' E) as [<- _].
      apply Hni'. left. reflexivity.
    + rewrite H1. cbn [bind].
      assert (Hs : filter (fun x => isdir t ([pub] ++ [x])) (map fst es)
                   = subdirs t [pub]).
      { unfold subdirs. rewrite resolve_cons, L. reflexivity. }
      rewrite Hs. fold (topic_rows t pub).
      destruct (IH (fst acc ++ topic_rows t pub, total1)) as [total Ht].
      * exact Hn'.
      * intros p Hp. apply Hw. right. exact Hp.
      * intros k Hin. cbn [fst] in Hin. rewrite keys_app in Hin.
        apply in_app_or in Hin. destruct Hin as [Hin|Hin].
        -- destruct (Hk _ Hin) as (pub' & n' & Hni' & Hsep' & E).
           exists pub', n'. split; [|split; assumption].
           intros Hin'. apply Hni'. right. exact Hin'.
        -- unfold keys, topic_rows in Hin. rewrite map_map in Hin.
           apply in_map_iff in Hin. destruct Hin as (n & <- & _).
           exists pub, n. cbn [fst]. split; [exact Hni|split; [exact Hsep|reflexivity]].
      * exists total. etransitivity; [exact Ht|]. cbn [fst keys map flat_map].
        rewrite <- app_assoc. reflexivity.
Qed.

Lemma length_flat_map_sum {A B : Type} (f : A -> list B) (l : list A) :
  List.length (flat_map f l) = list_sum (map (fun x => List.length (f x)) l).
Proof.
  induction l as [|x l IH]; [reflexivity|].
  simpl. rewrite length_app, IH. reflexivity.
Qed.

(** X16.  On a tree with POSIX entry names and with the publishers loaded
    from it, the per-publisher table of [compute_statistics] has one row
    per publisher, in the order of the publisher list, with the number of
    its sub-directories; the per-topic table has one row "publisher/topic"
    per topic folder with the number of its sub-directories; the total of
    topics is the number of rows of the per-topic table, and the number of
    unique tags is the length of the tag list. *)
Theorem compute_statistics_tables (t : tree) (b : browser) :
  wf_tree t = true ->
  all_publishers b = all_publishers (init t) ->
  exists stats,
    compute_statistics t b = Ok stats
    /\ topics_per_publisher stats
       = map (fun pub => (pub, List.length (subdirs t [pub])))
             (all_publishers b)
    /\ chapters_per_topic stats = flat_map (topic_rows t) (all_publishers b)
    /\ total_topics stats = List.length (chapters_per_topic stats)
    /\ total_unique_tags stats = List.length (all_tags b).
Proof.
  intros W Hp.
  assert (Hin : forall pub, In pub (all_publishers b) ->
                            wf_name pub = true /\ isdir t [pub] = true).
  { intros pub H. rewrite Hp in H.
    unfold init, load_all_tags, load_publishers in H.
    cbn [all_publishers] in H.
    apply (proj1 (sorted_In _ _)) in H. apply filter_In in H.
    destruct H as [Hm Hc]. apply andb_true_iff in Hc. destruct Hc as [D _].
    split; [|exact D].
    apply in_map_iff in Hm. destruct Hm as ([name c] & <- & He).
    apply (wf_tree_entry t name c W He). }
  assert (Hnd : NoDup (all_publishers b)).
  { rewrite Hp. unfold init, load_all_tags, load_publishers.
    cbn [all_publishers].
    eapply Permutation_NoDup; [apply sorted_perm|].
    apply NoDup_filter, wf_tree_nodup, W. }
  pose proof (count_topics_exact t (all_publishers b) [] Hin Hnd) as Hd.
  cbn [app] in Hd. specialize (Hd (fun pub _ H => H)).
  set (d := map (fun pub => (pub, List.length (subdirs t [pub])))
                (all_publishers b)) in *.
  assert (Hk : keys d = all_publishers b).
  { unfold keys, d. rewrite map_map. apply map_id. }
  destruct (count_chapters_fst t d W ([], 0)) as [total Hc].
  - rewrite Hk. exact Hnd.
  - rewrite Hk. exact Hin.
  - intros k [].
  - cbn [fst app] in Hc. rewrite Hk in Hc.
    exists (mkStatistics (List.length (all_publishers b))
              (list_sum (values d)) total (List.length (all_tags b)) d
              (flat_map (topic_rows t) (all_publishers b))
              (usage_counts (tag_cache b) (all_tags b))).
    unfold compute_statistics. rewrite Hd. cbn [bind]. rewrite Hc. cbn [bind].
    split; [reflexivity|].
    cbn [topics_per_publisher chapters_per_topic total_topics
         total_unique_tags].
    split; [reflexivity|]. split; [reflexivity|]. split; [|reflexivity].
    rewrite length_flat_map_sum. unfold values, d. rewrite map_map.
    f_equal. apply map_ext. intros pub. cbn [snd]. unfold topic_rows.
    rewrite length_map. reflexivity.
Qed.

Lemma compute_statistics_tables_witness :
  exists stats,
    compute_statistics example_root (init example_root) = Ok stats
    /\ topics_per_publisher stats = [("#_south", 3); ("__north", 3)]
    /\ List.length (chapters_per_topic stats) = 6.
Proof.
  destruct (compute_statistics_tables example_root (init example_root)
              eq_refl eq_refl) as (stats & H0 & H1 & H2 & _).
  exists stats. split; [exact H0|]. split; [rewrite H1|rewrite H2];
    reflexivity.
Defined.

(** ** A publisher that is gone *)

Lemma listdir_under_raises_oserror (t : tree) (relative : string) (e : exn) :
  listdir_under t relative = Raise e -> e = OSError.
Proof.
  unfold listdir_under, listdir.
  destruct (under_root relative) as [p|]; cbn [bind].
  - destruct (resolve t p) as [[text|es]|]; intros H;
      try discriminate; injection H as <-; reflexivity.
  - intros H. injection H as <-. reflexivity.
Qed.

Lemma count_topics_raise (t : tree) (pub : string) (pubs : list string) :
  In pub pubs ->
  listdir_under t pub = Raise OSError ->
  forall acc, count_topics t pubs acc = Raise OSError.
Proof.
  intros Hin Hr. induction pubs as [|x pubs IH]; intros acc; [destruct Hin|].
  cbn [count_topics].
  destruct (listdir_under t x) as [[pub_path names]|e] eqn:L; cbn [bind].
  - destruct Hin as [->|Hin]; [congruence|]. apply IH, Hin.
  - rewrite (listdir_under_raises_oserror _ _ _ L). reflexivity.
Qed.

(** X17.  The publisher list is kept from the last load: when one of its
    folders is no longer a directory of the tree, clicking it and computing
    the statistics both raise [OSError], and the statistics then return
    nothing, also for the publishers that are still there. *)
Theorem stale_publisher_raises (t : tree) (b : browser) (pub : string) :
  In pub (all_publishers b) ->
  wf_name pub = true ->
  isdir t [pub] = false ->
  load_topics t b pub = Raise OSError
  /\ compute_statistics t b = Raise OSError.
Proof.
  intros Hin W D.
  assert (L : listdir_under t pub = Raise OSError).
  { unfold listdir_under, listdir. rewrite (under_root_name pub W).
    unfold isdir in D. destruct (resolve t [pub]) as [[text|es]|];
      [reflexivity|discriminate|reflexivity]. }
  split.
  - unfold load_topics. rewrite L. reflexivity.
  - unfold compute_statistics.
    rewrite (count_topics_raise t pub (all_publishers b) Hin L). reflexivity.
Qed.

Lemma stale_publisher_raises_witness :
  let before := [("__a", Dir []); ("__b", Dir [])] in
  let after := [("__a", Dir [])] in
  load_topics after (init before) "__b" = Raise OSError
  /\ compute_statistics after (init before) = Raise OSError.
Proof.
  intros before after.
  apply (stale_publisher_raises after (init before) "__b").
  - right; left; reflexivity.
  - reflexivity.
  - reflexivity.
Defined.

(** ** Start-up *)

(** X18.  [main] launches the browser on the first field of the first row
    of the pointer file that names a directory, passing over blank rows
    and rows whose first field is no directory; it reports a missing
    pointer file, and reports that no valid path was found when every row
    is passed over. *)
Theorem main_picks_first_directory
    (is_directory : string -> bool) (rows : list (list string)) :
  main is_directory None = FileNotFound
  /\ (forall root_dir,
         main is_directory (Some rows) = Launch root_dir
         <-> root_dir <> EmptyString
             /\ exists before fields after,
                  rows = before ++ (root_dir :: fields) :: after
                  /\ is_directory root_dir = true
                  /\ Forall (not_a_root is_directory) before)
  /\ (Forall (not_a_root is_directory) rows ->
      main is_directory (Some rows) = NoValidPath).
Proof.
  split; [reflexivity|].
  assert (Hfirst : forall r,
             first_root is_directory rows = Some r
             <-> exists before fields after,
                   rows = before ++ (r :: fields) :: after
                   /\ is_directory r = true
                   /\ Forall (not_a_root is_directory) before).
  { intros r. induction rows as [|row rows IH].
    - split; [discriminate|]. intros (before & fields & after & H & _).
      destruct before; discriminate.
    - cbn [first_root]. destruct row as [|first rest].
      + rewrite IH. split.
        * intros (before & fields & after & -> & Hd & Hb).
          exists ([] :: before), fields, after.
          split; [reflexivity|]. split; [exact Hd|].
          constructor; [exact I|exact Hb].
        * intros (before & fields & after & H & Hd & Hb).
          destruct before as [|x before]; [discriminate|].
          injection H as <- ->. inversion Hb; subst.
          exists before, fields, after. auto.
      + destruct (is_directory first) eqn:D.
        * split.
          -- intros H. injection H as <-.
             exists [], rest, rows. split; [reflexivity|]. split; [exact D|constructor].
          -- intros (before & fields & after & H & Hd & Hb).
             destruct before as [|x before].
             ++ injection H as <- _ _. reflexivity.
             ++ injection H as <- _. inversion Hb as [|? ? Hx _]; subst.
                simpl in Hx. congruence.
        * rewrite IH. split.
          -- intros (before & fields & after & -> & Hd & Hb).
             exists ((first :: rest) :: before), fields, after.
             split; [reflexivity|]. split; [exact Hd|].
             constructor; [exact D|exact Hb].
          -- intros (before & fields & after & H & Hd & Hb).
             destruct before as [|x before].
             ++ injection H as <- _ _. congruence.
             ++ injection H as <- ->. inversion Hb; subst.
                exists before, fields, after. auto. }
  split.
  - intros root_dir. unfold main. split.
    + destruct (first_root is_directory rows) as [r|] eqn:F; [|discriminate].
      destruct (truthy r) eqn:T; [|discriminate].
      intros H. injection H as <-.
      split; [apply truthy_true_iff, T|apply (proj1 (Hfirst r) eq_refl)].
    + intros (Hne & H). apply Hfirst in H. rewrite H.
      apply truthy_true_iff in Hne. rewrite Hne. reflexivity.
  - intros Hall. unfold main.
    destruct (first_root is_directory rows) as [r|] eqn:F; [|reflexivity].
    exfalso.
    destruct (proj1 (Hfirst r) eq_refl) as (before & fields & after & E & Hd & _).
    subst rows.
    rewrite Forall_forall in Hall.
    assert (Hr : not_a_root is_directory (r :: fields)).
    { apply Hall, in_or_app. right. left. reflexivity. }
    simpl in Hr. congruence.
Qed.

Lemma main_picks_first_directory_witness :
  let is_directory := fun s => String.eqb s "/data" || String.eqb s "/more" in
  main is_directory (Some [[]; ["/none"; "x"]; ["/data"]; ["/more"]])
  = Launch "/data"
  /\ main is_directory (Some [[]; ["/none"]]) = NoValidPath.
Proof.
  intros is_directory.
  destruct (main_picks_first_directory is_directory
              [[]; ["/none"; "x"]; ["/data"]; ["/more"]]) as (_ & H1 & _).
  destruct (main_picks_first_directory is_directory [[]; ["/none"]])
    as (_ & _ & H2).
  split.
  - apply (proj2 (H1 "/data")). split; [discriminate|].
    exists [[]; ["/none"; "x"]], [], [["/more"]].
    split; [reflexivity|]. split; [reflexivity|].
    repeat constructor.
  - apply H2. repeat constructor.
Defined.

(** ** Editing the tags of one folder *)

Lemma dict_get_None {V : Type} (k : string) (d : dict V) :
  ~ In k (keys d) -> dict_get k d = None.
Proof.
  induction d as [|[k0 v0] d IH]; simpl; intros H; [reflexivity|].
  destruct (String.eqb k0 k) eqn:E.
  - apply String.eqb_eq in E. exfalso. apply H. left. exact E.
  - apply IH. intros Hin. apply H. right. exact Hin.
Qed.

(** What a scan keeps under the key of a directory of the walk. *)
Lemma scan_fold_get_exact (t : tree) (l : list path) (p : path) :
  (forall q, In q l -> relpath q = relpath p -> q = p) ->
  In p l ->
  dict_get (relpath p) (fold_left (scan_step t) l [])
  = match load_tags t (p ++ ["tag.txt"]) with
    | [] => None
    | x :: xs => Some (x :: xs)
    end.
Proof.
  intros Hinj Hin.
  destruct (load_tags t (p ++ ["tag.txt"])) as [|x xs] eqn:E.
  - apply dict_get_None. intros Hk. apply scan_fold_keys in Hk.
    destruct Hk as [Hk|(q & Hq & Hr & Hne)]; [destruct Hk|].
    rewrite (Hinj q Hq (eq_sym Hr)) in Hne. contradiction.
  - rewrite <- E. apply scan_fold_get; [exact Hinj|exact Hin|].
    rewrite E. discriminate.
Qed.

(** X19.  On a tree with POSIX entry names, editing the tags of a folder
    of the tree (its tag file not being a directory) with a text without
    carriage return and closing the editor with OK ends normally.  Only
    the tag file of that folder is written; the reloaded cache then holds
    under the folder the sorted, deduplicated pieces of the text, or no
    entry when the text holds no tag, and under every other folder what a
    scan held before the edit.  Cancelling the editor changes nothing. *)
Theorem edit_tags_updates_one_folder
    (t : tree) (b : browser) (p : path) (text : string) :
  wf_tree t = true ->
  In p (walk t) ->
  isdir t (p ++ ["tag.txt"]) = false ->
  has_char CR text = false ->
  show_edit_tags_menu t b (Some (relpath p)) None = Done t b
  /\ exists t' : tree,
       show_edit_tags_menu t b (Some (relpath p)) (Some text)
       = Done t' (load_all_tags t' b)
       /\ walk t' = walk t
       /\ (forall q, q <> p ++ ["tag.txt"] -> file_at t' q = file_at t q)
       /\ load_tags t' (p ++ ["tag.txt"]) = sorted (set (strip_pieces text))
       /\ dict_get (relpath p) (tag_cache (load_all_tags t' b))
          = match sorted (set (strip_pieces text)) with
            | [] => None
            | x :: xs => Some (x :: xs)
            end
       /\ (forall q, In q (walk t) -> q <> p ->
             dict_get (relpath q) (tag_cache (load_all_tags t' b))
             = dict_get (relpath q) (tag_cache (load_all_tags t b))).
Proof.
  intros W Hp Hfile Hcr. split; [reflexivity|].
  pose proof (proj1 (walk_isdir p t W) Hp) as Hdir.
  pose proof (under_root_relpath p (walk_names p t W Hp)) as Hroot.
  destruct (write_text_succeeds p "tag.txt"
              (join ", " (sorted (set (strip_pieces text)))) t Hdir Hfile)
    as [t' S].
  change (save_tags t (p ++ ["tag.txt"]) (strip_pieces text) = Ok t') in S.
  assert (Hwalk : walk t' = walk t) by apply (walk_write _ _ _ _ S).
  assert (Hload : load_tags t' (p ++ ["tag.txt"])
                  = sorted (set (strip_pieces text))).
  { apply (load_after_save_clean t t' _ _); [|exact S].
    pose proof (strip_pieces_clean text) as C.
    pose proof (strip_pieces_no_char CR text Hcr) as N.
    rewrite Forall_forall in *. intros x Hx.
    split; [apply C|apply N]; exact Hx. }
  exists t'. split; [|split; [|split; [|split; [|split]]]].
  - unfold show_edit_tags_menu, tag_file_under, TagEditor.accept.
    rewrite Hroot, S. reflexivity.
  - exact Hwalk.
  - intros q Hq. rewrite (file_at_write _ _ _ _ S q).
    destruct (list_eq_dec string_dec q (p ++ ["tag.txt"]));
      [contradiction|reflexivity].
  - exact Hload.
  - unfold load_all_tags. cbn [tag_cache]. rewrite Hwalk.
    rewrite scan_fold_get_exact, Hload; [reflexivity| |exact Hp].
    intros q Hq E. apply (walk_relpath_inj t W p q Hp Hq E).
  - intros q Hq Hne. unfold load_all_tags. cbn [tag_cache]. rewrite Hwalk.
    rewrite !scan_fold_get_exact; try exact Hq;
      try (intros q' Hq' E; apply (walk_relpath_inj t W q q' Hq Hq' E)).
    rewrite (load_tags_write_other t t' (p ++ ["tag.txt"])
               (q ++ ["tag.txt"]) _ S); [reflexivity|].
    intros E. apply app_inj_tail in E. apply Hne, E.
Qed.

Lemma edit_tags_updates_one_folder_witness :
  let t := [("__p", Dir [("maps", Dir [("tag.txt", File "sea")]);
                         ("atlas", Dir [("tag.txt", File "old")])])] in
  exists t' : tree,
    show_edit_tags_menu t (init t) (Some "__p/maps") (Some "sea , air,,sea")
    = Done t' (load_all_tags t' (init t))
    /\ load_tags t' ["__p"; "maps"; "tag.txt"] = ["air"; "sea"]
    /\ dict_get "__p/atlas" (tag_cache (load_all_tags t' (init t)))
       = Some ["old"].
Proof.
  intros t.
  destruct (edit_tags_updates_one_folder t (init t) ["__p"; "maps"]
              "sea , air,,sea" eq_refl)
    as (_ & t' & H1 & _ & _ & H4 & _ & H6).
  - right. right. left. reflexivity.
  - reflexivity.
  - reflexivity.
  - exists t'. split; [exact H1|]. split; [exact H4|].
    etransitivity; [apply (H6 ["__p"; "atlas"])|reflexivity];
      [|discriminate].
    right. right. right. left. reflexivity.
Defined.

(** ** Importing the same file again *)

Lemma set_entry_same (name : string) (x : node) (es : tree) :
  lookup name es = Some x -> set_entry name x es = es.
Proof.
  induction es as [|[n y] es IH]; simpl; [reflexivity|].
  destruct (String.eqb n name); intros H.
  - injection H as ->. reflexivity.
  - rewrite (IH H). reflexivity.
Qed.

(** Writing a file the text it holds leaves the tree as it is. *)
Lemma write_text_same (p : path) (text : string) :
  forall t : tree, file_at t p = Some text -> write_text t p text = Ok t.
Proof.
  unfold file_at. induction p as [|name rest IH]; intros t H; [discriminate|].
  rewrite resolve_cons in H. rewrite write_text_cons.
  destruct (lookup name t) as [[old|es]|] eqn:L; try discriminate.
  - destruct rest; [|discriminate]. injection H as ->.
    rewrite (set_entry_same _ _ _ L). reflexivity.
  - destruct rest as [|r rs]; [simpl in H; discriminate|].
    rewrite (IH es H). cbn [bind].
    rewrite (set_entry_same _ _ _ L). reflexivity.
Qed.

Lemma dict_get_set {V : Type} (k k' : string) (v : V) (d : dict V) :
  dict_get k' (dict_set k v d)
  = if String.eqb k k' then Some v else dict_get k' d.
Proof.
  destruct (String.eqb k k') eqn:E.
  - apply String.eqb_eq in E. subst k'. apply dict_get_set_same.
  - apply String.eqb_neq in E. apply dict_get_set_other. congruence.
Qed.

(** A field [csv.DictReader] files under a name is a field of the row. *)
Lemma row_dict_field (fieldnames row : list string) (key v : string) :
  dict_get key (row_dict fieldnames row) = Some (Some v) -> In v row.
Proof.
  unfold row_dict. intros H.
  assert (P1 : forall l d,
             dict_get key (fold_left (fun d k => dict_set k None d) l d)
             = Some (Some v) ->
             dict_get key d = Some (Some v)).
  { induction l as [|a l IH]; simpl; intros d Hd; [exact Hd|].
    apply IH in Hd. rewrite dict_get_set in Hd.
    destruct (String.eqb a key); [discriminate|exact Hd]. }
  assert (P2 : forall (l : list (string * string)) d,
             dict_get key
               (fold_left (fun d kv => dict_set (fst kv) (Some (snd kv)) d) l d)
             = Some (Some v) ->
             dict_get key d = Some (Some v) \/ In v (map snd l)).
  { induction l as [|[k x] l IH]; simpl; intros d Hd; [auto|].
    apply IH in Hd. destruct Hd as [Hd|Hd]; [|auto].
    rewrite dict_get_set in Hd.
    destruct (String.eqb k key); [injection Hd as ->; auto|auto]. }
  apply P1, P2 in H. destruct H as [H|H]; [discriminate|].
  apply in_map_iff in H. destruct H as ([k x] & <- & Hin).
  apply in_combine_r in Hin. exact Hin.
Qed.

Lemma dict_reader_without_CR (rows : list (list string)) :
  Forall (Forall (fun field => has_char CR field = false)) rows ->
  Forall tags_without_CR (dict_reader rows).
Proof.
  intros H. destruct rows as [|fieldnames data]; [constructor|].
  inversion H as [|? ? _ Hd]; subst. cbn [dict_reader].
  apply Forall_forall. intros row Hrow.
  apply in_map_iff in Hrow. destruct Hrow as (r & <- & Hr).
  apply filter_In in Hr. destruct Hr as [Hr _].
  rewrite Forall_forall in Hd. specialize (Hd r Hr).
  rewrite Forall_forall in Hd.
  intros txt Htxt. apply Hd. apply (row_dict_field _ _ _ _ Htxt).
Qed.

(** One merged row is settled afterwards, and it unsettles no other. *)
Lemma settled_step (t t' : tree) (b b' : browser)
    (row : dict (option string)) :
  import_row false t b row = Ok (t', b') ->
  tags_without_CR row ->
  settled t' row /\ (forall other, settled t other -> settled t' other).
Proof.
  unfold import_row, subscript. intros H Hcr.
  destruct (dict_get "Path" row) as [[relative|]|] eqn:HP;
    destruct (dict_get "Tags" row) as [[tags_text|]|] eqn:HT;
    cbn [bind] in H; try discriminate.
  specialize (Hcr tags_text HT).
  destruct (under_root relative) as [full_path|] eqn:U; [|discriminate].
  destruct (isdir t full_path) eqn:D.
  2:{ injection H as <- <-. split; [|auto].
      exists relative, tags_text. rewrite U. auto. }
  set (tag_file := full_path ++ ["tag.txt"]) in *.
  set (combined := set (load_tags t tag_file ++ strip_pieces tags_text)) in *.
  destruct (save_tags t tag_file combined) as [t1|e] eqn:S;
    cbn [bind] in H; [|discriminate].
  injection H as <- <-.
  assert (F : file_at t1 tag_file = Some (join ", " (sorted (set combined)))).
  { unfold file_at. unfold save_tags in S.
    rewrite (resolve_write_text _ _ _ _ S). reflexivity. }
  assert (Ld : load_tags t1 tag_file = sorted (set combined)).
  { apply (load_after_save_clean t t1 tag_file _); [|exact S].
    apply Forall_forall. intros x Hx.
    apply (proj1 (nodup_In _ _ _)) in Hx. apply in_app_or in Hx.
    destruct Hx as [Hx|Hx].
    - pose proof (load_tags_clean_no_CR t tag_file) as C.
      rewrite Forall_forall in C. apply C, Hx.
    - pose proof (strip_pieces_clean tags_text) as C.
      pose proof (strip_pieces_no_char CR tags_text Hcr) as N.
      rewrite Forall_forall in C, N. split; [apply C|apply N]; exact Hx. }
  split.
  - exists relative, tags_text. rewrite U. repeat split; try assumption.
    right. exists combined. repeat split; try assumption.
    intros x Hx. apply nodup_In, in_or_app. right. exact Hx.
  - intros other (rel & txt & HP' & HT' & M).
    exists rel, txt. split; [exact HP'|]. split; [exact HT'|].
    destruct (under_root rel) as [fp|]; [|exact M].
    unfold save_tags in S.
    destruct M as [M|(l & F' & Ld' & I')].
    + left. rewrite (isdir_write _ _ _ _ S). exact M.
    + right.
      destruct (list_eq_dec string_dec (fp ++ ["tag.txt"]) tag_file)
        as [E|Hne].
      * exists combined. rewrite E. repeat split; try assumption.
        intros x Hx. apply nodup_In, in_or_app. left.
        rewrite <- E, Ld'. apply sorted_set_In. apply I', Hx.
      * exists l. split; [|split; [|exact I']].
        -- rewrite (file_at_write _ _ _ _ S).
           destruct (list_eq_dec string_dec (fp ++ ["tag.txt"]) tag_file);
             [contradiction|exact F'].
        -- rewrite (load_tags_write_other _ _ _ _ _ S Hne). exact Ld'.
Qed.

Lemma settled_rows (rows : list (dict (option string))) :
  forall (t t1 : tree) (b b1 : browser),
    import_rows false rows t b = Done t1 b1 ->
    Forall tags_without_CR rows ->
    (forall other, settled t other -> settled t1 other)
    /\ Forall (settled t1) rows.
Proof.
  induction rows as [|row rows IH]; intros t t1 b b1 H Hcr.
  - injection H as <- <-. split; [auto|constructor].
  - cbn [import_rows] in H.
    destruct (import_row false t b row) as [[t' b']|e] eqn:R; [|discriminate].
    inversion Hcr as [|? ? Hrow Hrest]; subst.
    destruct (settled_step _ _ _ _ _ R Hrow) as [S1 P1].
    destruct (IH _ _ _ _ H Hrest) as [P2 F2].
    split; [intros other Ho; apply P2, P1, Ho|].
    constructor; [apply P2, S1|exact F2].
Qed.

(** A settled row is merged without a change to the tree, and with no
    change to the attributes a reload keeps. *)
Lemma settled_fixpoint (t : tree) (row : dict (option string)) :
  settled t row ->
  forall b, exists b',
    import_row false t b row = Ok (t, b')
    /\ forall t0, load_all_tags t0 b' = load_all_tags t0 b.
Proof.
  intros (relative & tags_text & HP & HT & M) b.
  unfold import_row, subscript. rewrite HP, HT. cbn [bind].
  destruct (under_root relative) as [full_path|]; [|contradiction].
  destruct (isdir t full_path) eqn:D; [|exists b; split; reflexivity].
  destruct M as [M|(l & F & Ld & I)]; [discriminate|].
  rewrite Ld.
  assert (E : sorted (set (set (sorted (set l) ++ strip_pieces tags_text)))
              = sorted (set l)).
  { rewrite sorted_set_set. apply sorted_set_ext. intros x.
    rewrite in_app_iff, sorted_set_In. split; [|auto].
    intros [H|H]; [exact H|apply I, H]. }
  unfold save_tags. rewrite E, (write_text_same _ _ _ F). cbn [bind].
  eexists. split; reflexivity.
Qed.

Lemma settled_rows_fixpoint (t : tree) (rows : list (dict (option string))) :
  Forall (settled t) rows ->
  forall b, exists b',
    import_rows false rows t b = Done t b'
    /\ forall t0, load_all_tags t0 b' = load_all_tags t0 b.
Proof.
  induction 1 as [|row rows Hrow _ IH]; intros b.
  - exists b. split; reflexivity.
  - destruct (settled_fixpoint t row Hrow b) as (b1 & R & E1).
    destruct (IH b1) as (b2 & R2 & E2).
    exists b2. cbn [import_rows]. rewrite R. split; [exact R2|].
    intros t0. rewrite E2. apply E1.
Qed.

(** X20.  A merge import is idempotent: when the paths of the CSV stay in
    the tree (they are relative and have no ".." component), no field
    holds a carriage return and the import in merge mode ends normally,
    importing the same file again in merge mode ends normally too and
    leaves the whole tree and all attributes exactly as the first import
    left them. *)
Theorem merge_import_twice
    (rows : list (list string)) (t t1 : tree) (b b1 : browser) :
  paths_in_tree (dict_reader rows) ->
  Forall (Forall (fun field => has_char CR field = false)) rows ->
  import_tags false (Some rows) t b = Done t1 b1 ->
  import_tags false (Some rows) t1 b1 = Done t1 b1.
Proof.
  intros _ Hcr H. unfold import_tags in *.
  destruct (import_rows false (dict_reader rows) t b) as [t' b'|e t' b'] eqn:R;
    [|discriminate].
  injection H as <- <-.
  destruct (settled_rows _ _ _ _ _ R (dict_reader_without_CR rows Hcr))
    as [_ F].
  destruct (settled_rows_fixpoint t' _ F (load_all_tags t' b'))
    as (b2 & R2 & E).
  rewrite R2, E. reflexivity.
Qed.

Lemma merge_import_twice_witness :
  let t := [("__p", Dir [("maps", Dir [("tag.txt", File "sea, air")]);
                         ("atlas", Dir [])])] in
  let rows := [["Path"; "Tags"]; ["__p/maps"; "ink, sea"];
               ["__p/none"; "x"]; ["__p/atlas"; "sea"]; ["__p/maps"; "fog"]] in
  exists t1 b1,
    import_tags false (Some rows) t (init t) = Done t1 b1
    /\ import_tags false (Some rows) t1 b1 = Done t1 b1
    /\ load_tags t1 ["__p"; "maps"; "tag.txt"] = ["air"; "fog"; "ink"; "sea"].
Proof.
  intros t rows.
  set (o := import_tags false (Some rows) t (init t)).
  assert (R : o = Done (outcome_tree o) (outcome_browser o)) by reflexivity.
  exists (outcome_tree o), (outcome_browser o).
  split; [exact R|]. split; [|reflexivity].
  apply (merge_import_twice rows t _ (init t) _);
    [reflexivity| |exact R].
  repeat constructor.
Defined.

(** ** What a merge import stores *)

Lemma mergeable_row (t : tree) (row : dict (option string)) :
  mergeable t row = true ->
  exists relative tags_text folder,
    dict_get "Path" row = Some (Some relative)
    /\ dict_get "Tags" row = Some (Some tags_text)
    /\ under_root relative = Some folder
    /\ isdir t (folder ++ ["tag.txt"]) = false.
Proof.
  unfold mergeable, row_folder. intros H.
  destruct (dict_get "Tags" row) as [[tags_text|]|];
    destruct (dict_get "Path" row) as [[relative|]|];
    try discriminate H.
  destruct (under_root relative) as [folder|] eqn:U; [|discriminate H].
  apply negb_true_iff in H. exists relative, tags_text, folder. auto.
Qed.

Lemma mergeable_isdir (t t' : tree) (rows : list (dict (option string))) :
  (forall q, isdir t' q = isdir t q) ->
  forallb (mergeable t') rows = forallb (mergeable t) rows.
Proof.
  intros H. induction rows as [|row rows IH]; [reflexivity|].
  cbn [forallb]. rewrite IH. f_equal. unfold mergeable.
  destruct (dict_get "Tags" row) as [[tags_text|]|]; try reflexivity.
  destruct (row_folder row) as [folder|]; [|reflexivity].
  rewrite H. reflexivity.
Qed.

Lemma names_folder_iff (folder : path) (row : dict (option string)) :
  names_folder folder row = true <-> row_folder row = Some folder.
Proof.
  unfold names_folder. destruct (row_folder row) as [p|].
  - destruct (list_eq_dec string_dec p folder) as [->|Hne].
    + split; reflexivity.
    + split; [discriminate|]. intros E. injection E as E. contradiction.
  - split; discriminate.
Qed.

Lemma named_by_cons (folder : path) (row : dict (option string))
    (rows : list (dict (option string))) :
  named_by folder (row :: rows)
  = names_folder folder row || named_by folder rows.
Proof. reflexivity. Qed.

Lemma imported_for_cons (folder : path) (row : dict (option string))
    (rows : list (dict (option string))) :
  imported_for folder (row :: rows)
  = (if names_folder folder row then row_tags row else [])
    ++ imported_for folder rows.
Proof.
  unfold imported_for. cbn [filter].
  destruct (names_folder folder row); reflexivity.
Qed.

Lemma imported_for_unnamed (folder : path)
    (rows : list (dict (option string))) :
  named_by folder rows = false -> imported_for folder rows = [].
Proof.
  induction rows as [|row rows IH]; [reflexivity|].
  rewrite named_by_cons, imported_for_cons. intros H.
  apply orb_false_iff in H. destruct H as [H1 H2].
  rewrite H1, (IH H2). reflexivity.
Qed.

(** The loop of a merge import over rows it can process: it ends
    normally, and the tag file of every folder that some row names holds
    the sorted union of what it held and of what the rows bring. *)
Lemma merge_rows_spec (rows : list (dict (option string))) :
  forall (t : tree) (b : browser),
    Forall tags_without_CR rows ->
    forallb (mergeable t) rows = true ->
    exists t' b',
      import_rows false rows t b = Done t' b'
      /\ (forall t0, load_all_tags t0 b' = load_all_tags t0 b)
      /\ forall folder,
           isdir t folder = true ->
           if named_by folder rows
           then file_at t' (folder ++ ["tag.txt"])
                = Some (join ", "
                          (sorted (set (load_tags t (folder ++ ["tag.txt"])
                                        ++ imported_for folder rows))))
                /\ load_tags t' (folder ++ ["tag.txt"])
                   = sorted (set (load_tags t (folder ++ ["tag.txt"])
                                  ++ imported_for folder rows))
           else file_at t' (folder ++ ["tag.txt"])
                = file_at t (folder ++ ["tag.txt"]).
Proof.
  induction rows as [|row rows IH]; intros t b Hcr Hm.
  - exists t, b. split; [reflexivity|]. split; [reflexivity|].
    intros folder _. reflexivity.
  - cbn [forallb] in Hm. apply andb_true_iff in Hm.
    destruct Hm as [Hrow Hrest].
    inversion Hcr as [|? ? Hc1 Hc2]; subst.
    destruct (mergeable_row t row Hrow)
      as (relative & tags_text & fp & HP & HT & U & F).
    specialize (Hc1 tags_text HT).
    assert (RF : row_folder row = Some fp).
    { unfold row_folder. rewrite HP. exact U. }
    assert (RT : row_tags row = strip_pieces tags_text).
    { unfold row_tags. rewrite HT. reflexivity. }
    destruct (isdir t fp) eqn:D.
    + pose (combined := set (load_tags t (fp ++ ["tag.txt"])
                             ++ strip_pieces tags_text)).
      destruct (write_text_succeeds fp "tag.txt"
                  (join ", " (sorted (set combined))) t D F) as [t1 W].
      assert (S : save_tags t (fp ++ ["tag.txt"]) combined = Ok t1)
        by exact W.
      assert (R : import_row false t b row
                  = Ok (t1, set_tag_cache relative combined b)).
      { unfold import_row, subscript. rewrite HP, HT. cbn [bind].
        rewrite U, D. fold combined. rewrite S. reflexivity. }
      assert (Ec : sorted (set combined)
                   = sorted (set (load_tags t (fp ++ ["tag.txt"])
                                  ++ strip_pieces tags_text))).
      { unfold combined. apply sorted_set_set. }
      assert (F1 : file_at t1 (fp ++ ["tag.txt"])
                   = Some (join ", " (sorted (set combined)))).
      { unfold file_at. rewrite (resolve_write_text _ _ _ _ W). reflexivity. }
      assert (Ld1 : load_tags t1 (fp ++ ["tag.txt"]) = sorted (set combined)).
      { apply (load_after_save_clean t t1 _ _); [|exact S].
        apply Forall_forall. intros x Hx.
        apply (proj1 (nodup_In _ _ _)) in Hx. apply in_app_or in Hx.
        destruct Hx as [Hx|Hx].
        - pose proof (load_tags_clean_no_CR t (fp ++ ["tag.txt"])) as C.
          rewrite Forall_forall in C. apply C, Hx.
        - pose proof (strip_pieces_clean tags_text) as C.
          pose proof (strip_pieces_no_char CR tags_text Hc1) as N.
          rewrite Forall_forall in C, N. split; [apply C|apply N]; exact Hx. }
      destruct (IH t1 (set_tag_cache relative combined b) Hc2)
        as (t' & b' & R' & Hb' & Hf').
      { rewrite (mergeable_isdir t t1 rows (isdir_write _ _ _ _ W)).
        exact Hrest. }
      exists t', b'. split; [cbn [import_rows]; rewrite R; exact R'|].
      split; [intros t0; rewrite Hb'; reflexivity|].
      intros folder Dk.
      assert (Dk1 : isdir t1 folder = true).
      { rewrite (isdir_write _ _ _ _ W). exact Dk. }
      specialize (Hf' folder Dk1).
      rewrite named_by_cons, imported_for_cons.
      destruct (names_folder folder row) eqn:N.
      * apply names_folder_iff in N. rewrite RF in N. injection N as <-.
        rewrite RT. cbn [orb].
        destruct (named_by fp rows) eqn:NB.
        -- assert (E : sorted (set (load_tags t1 (fp ++ ["tag.txt"])
                                    ++ imported_for fp rows))
                       = sorted (set (load_tags t (fp ++ ["tag.txt"])
                                      ++ strip_pieces tags_text
                                      ++ imported_for fp rows))).
           { rewrite Ld1, Ec. apply sorted_set_ext. intros x.
             rewrite !in_app_iff, sorted_set_In, in_app_iff. tauto. }
           rewrite <- E. exact Hf'.
        -- rewrite (imported_for_unnamed fp rows NB), app_nil_r, <- Ec.
           split; [rewrite Hf'; exact F1|].
           rewrite load_tags_file_at, Hf', <- load_tags_file_at. exact Ld1.
      * assert (Hne : folder ++ ["tag.txt"] <> fp ++ ["tag.txt"]).
        { intros E. apply app_inj_tail in E. destruct E as [E _].
          subst folder.
          apply (proj2 (names_folder_iff fp row)) in RF. congruence. }
        cbn [orb app].
        rewrite (load_tags_write_other _ _ _ _ _ W Hne) in Hf'.
        assert (Fo : file_at t1 (folder ++ ["tag.txt"])
                     = file_at t (folder ++ ["tag.txt"])).
        { rewrite (file_at_write _ _ _ _ W).
          destruct (list_eq_dec string_dec (folder ++ ["tag.txt"])
                                (fp ++ ["tag.txt"]));
            [contradiction|reflexivity]. }
        rewrite Fo in Hf'. exact Hf'.
    + assert (R : import_row false t b row = Ok (t, b)).
      { unfold import_row, subscript. rewrite HP, HT. cbn [bind].
        rewrite U, D. reflexivity. }
      destruct (IH t b Hc2 Hrest) as (t' & b' & R' & Hb' & Hf').
      exists t', b'. split; [cbn [import_rows]; rewrite R; exact R'|].
      split; [exact Hb'|].
      intros folder Dk. specialize (Hf' folder Dk).
      rewrite named_by_cons, imported_for_cons.
      destruct (names_folder folder row) eqn:N.
      * apply names_folder_iff in N. rewrite RF in N. injection N as <-.
        congruence.
      * exact Hf'.
Qed.

(** C4.  A merge import of a CSV whose rows it can process (each row has
    its Path and its Tags, the path stays in the tree, no tag file is a
    directory; the fields hold no carriage return) ends normally, and for
    every folder some row names it stores the deduplicated union of the
    tags the folder had and the tags the rows bring for it: the tag file
    gets the union sorted, this is what is read back, and on a tree with
    POSIX entry names it is what the reloaded cache holds (no entry when
    the union is empty).  Combining the two collections in the other order
    gives the same stored list.  The folders no row names keep their tag
    file, and no folder is created or removed. *)
Theorem merge_import_stores_union
    (rows : list (list string)) (t : tree) (b : browser) :
  Forall (Forall (fun field => has_char CR field = false)) rows ->
  forallb (mergeable t) (dict_reader rows) = true ->
  exists t' : tree,
    import_tags false (Some rows) t b = Done t' (load_all_tags t' b)
    /\ (forall q, isdir t' q = isdir t q)
    /\ (forall q, is_tag_file q = false -> file_at t' q = file_at t q)
    /\ (forall folder,
          isdir t folder = true ->
          named_by folder (dict_reader rows) = false ->
          file_at t' (folder ++ ["tag.txt"])
          = file_at t (folder ++ ["tag.txt"]))
    /\ (forall folder,
          isdir t folder = true ->
          named_by folder (dict_reader rows) = true ->
          let tag_file := folder ++ ["tag.txt"] in
          let existing := load_tags t tag_file in
          let imported := imported_for folder (dict_reader rows) in
          let stored := sorted (set (existing ++ imported)) in
          file_at t' tag_file = Some (join ", " stored)
          /\ load_tags t' tag_file = stored
          /\ sorted_dedup_of (existing ++ imported) stored
          /\ (forall x, In x stored <-> In x existing \/ In x imported)
          /\ stored = sorted (set (imported ++ existing))
          /\ (wf_tree t = true ->
              dict_get (relpath folder) (tag_cache (load_all_tags t' b))
              = match stored with
                | [] => None
                | x :: xs => Some (x :: xs)
                end)).
Proof.
  intros Hcr Hm.
  destruct (merge_rows_spec (dict_reader rows) t b
              (dict_reader_without_CR rows Hcr) Hm)
    as (t' & b' & R & Hb & Hf).
  pose proof (import_rows_frame false (dict_reader rows) t b) as Fr.
  rewrite R in Fr. cbn [outcome_tree outcome_browser] in Fr.
  destruct Fr as (Hw & Hd & Ho & _).
  exists t'. split; [|split; [exact Hd|split; [exact Ho|split]]].
  - unfold import_tags. rewrite R, Hb. reflexivity.
  - intros folder D N. specialize (Hf folder D). rewrite N in Hf. exact Hf.
  - intros folder D N tag_file existing imported stored.
    specialize (Hf folder D). rewrite N in Hf.
    fold tag_file existing imported stored in Hf. destruct Hf as [Hfile Hload].
    split; [exact Hfile|]. split; [exact Hload|].
    split; [apply sorted_set_spec|].
    split; [intros x; unfold stored; rewrite sorted_set_In; apply in_app_iff|].
    split.
    + unfold stored. apply sorted_set_ext. intros x.
      rewrite !in_app_iff. tauto.
    + intros W. unfold load_all_tags. cbn [tag_cache]. rewrite Hw.
      assert (Hp : In folder (walk t)) by (apply (walk_isdir folder t W), D).
      rewrite scan_fold_get_exact; [|intros q Hq E;
        apply (walk_relpath_inj t W folder q Hp Hq E)|exact Hp].
      fold tag_file. rewrite Hload. reflexivity.
Qed.

Lemma merge_import_stores_union_witness :
  let t := [("__p", Dir [("maps", Dir [("tag.txt", File "sea, air")]);
                         ("atlas", Dir [("tag.txt", File "old")])])] in
  let rows := [["Path"; "Tags"]; ["__p/maps"; "ink, sea"]; [];
               ["__p/none"; "x"]; ["__p/maps/"; "fog"]] in
  exists t' : tree,
    import_tags false (Some rows) t (init t)
    = Done t' (load_all_tags t' (init t))
    /\ file_at t' ["__p"; "maps"; "tag.txt"] = Some "air, fog, ink, sea"
    /\ dict_get "__p/maps" (tag_cache (load_all_tags t' (init t)))
       = Some ["air"; "fog"; "ink"; "sea"]
    /\ file_at t' ["__p"; "atlas"; "tag.txt"] = Some "old".
Proof.
  intros t rows.
  destruct (merge_import_stores_union rows t (init t)) as
      (t' & H0 & _ & _ & H3 & H4).
  - repeat constructor.
  - reflexivity.
  - exists t'. split; [exact H0|].
    destruct (H4 ["__p"; "maps"] eq_refl eq_refl) as (H5 & _ & _ & _ & _ & H6).
    split; [exact H5|]. split; [exact (H6 eq_refl)|].
    apply (H3 ["__p"; "atlas"] eq_refl eq_refl).
Defined.
